(** * music.py: index, select, convert, relocate, report

    A shallow embedding of [music.py] and the properties of its functions.

    Conventions of the embedding.
    - A Python [str] is the list of its code points, each a number [char].
      The strings of the program (paths, the text and the strings of the
      index file, what is printed and logged) are of this type [str].
    - A line typed at the terminal is a [line], a [list ascii] read as the
      code points U+0000..U+00FF: the Unicode predicates that the program
      applies to what is typed ([str.isspace] behind [strip],
      [str.isdigit], [str.lower]) are written out for exactly that range.
    - Python integers are [Z].
    - [os.sep] is ["/"]: the paths of the script are POSIX paths.
    - An uncaught exception is a value of [exn]; pure fallible code returns
      [res], code with effects lives in the monad [M], in which the state of
      the world survives an exception. *)

From Stdlib Require Import ZArith NArith Ascii String List Lia.
From stdpp Require Import base option list gmap sets strings.

Abbreviation char := N (only parsing).
Abbreviation str := (list char) (only parsing).
Abbreviation line := (list ascii) (only parsing).

(** A literal is read character by character: ["/"%char] is the code point
    47, ["abc"] the string of the three code points. *)
Coercion N_of_ascii : ascii >-> N.
Definition code_points (s : string) : str :=
  map N_of_ascii (list_ascii_of_string s).
Coercion code_points : string >-> list.

(** A literal of what is typed, and a line as a string. *)
Definition latin1 (s : string) : line := list_ascii_of_string s.
Definition widen (l : line) : str := map N_of_ascii l.

Open Scope string_scope.
Open Scope list_scope.
Open Scope Z_scope.
Open Scope stdpp_scope.

(** ** Exceptions and fallible results *)

Inductive exn : Type :=
  | IndexError
  | ValueError
  | KeyError
  | TypeError
  | FileNotFoundError
  | FileExistsError
  | NotADirectoryError
  | ShutilError
  | CalledProcessError (cmd : list str) (returncode : Z)
  | JSONDecodeError
  | OutOfFuel.

Inductive res (A : Type) : Type :=
  | Ok (a : A)
  | Raise (e : exn).
Arguments Ok {A} a.
Arguments Raise {A} e.

Definition res_bind {A B} (r : res A) (k : A -> res B) : res B :=
  match r with
  | Ok a => k a
  | Raise e => Raise e
  end.

(** A list comprehension whose element expression may raise: elements are
    evaluated left to right and the first exception leaves the loop. *)
Fixpoint res_map {A B} (f : A -> res B) (l : list A) : res (list B) :=
  match l with
  | [] => Ok []
  | x :: l' =>
      res_bind (f x) (fun y =>
      res_bind (res_map f l') (fun ys => Ok (y :: ys)))
  end.

(** ** Python builtins and [str] methods *)

Module Py.

Definition ord (c : char) : Z := Z.of_N c.

(** *** What is typed: [strip], [lower], [isdigit], [int] and [split] on a
    line *)

(** [str.isspace] on one character: U+0009..U+000D, U+001C..U+001F,
    U+0020, U+0085, U+00A0. *)
Definition isspace_char (c : ascii) : bool :=
  let n := ord c in
  ((9 <=? n) && (n <=? 13)) || ((28 <=? n) && (n <=? 32))
  || (n =? 133) || (n =? 160).

(** The decimal digits 0-9. *)
Definition digit_value (c : ascii) : option Z :=
  let n := ord c in
  if (48 <=? n) && (n <=? 57) then Some (n - 48) else None.

(** [str.isdigit] on one character: the decimal digits and the
    superscripts U+00B2, U+00B3, U+00B9. *)
Definition isdigit_char (c : ascii) : bool :=
  let n := ord c in
  ((48 <=? n) && (n <=? 57)) || (n =? 178) || (n =? 179) || (n =? 185).

(** [str.lower] on one character: A-Z and U+00C0..U+00DE except U+00D7. *)
Definition lower_char (c : ascii) : ascii :=
  let n := ord c in
  if ((65 <=? n) && (n <=? 90))
     || ((192 <=? n) && (n <=? 222) && negb (n =? 215))
  then ascii_of_N (Z.to_N (n + 32))
  else c.

Definition lower (s : line) : line := map lower_char s.

Fixpoint lstrip (s : line) : line :=
  match s with
  | [] => []
  | c :: s' => if isspace_char c then lstrip s' else s
  end.

Definition rstrip (s : line) : line := rev (lstrip (rev s)).

Definition strip (s : line) : line := rstrip (lstrip s).

(** [s.isdigit()]: at least one character, and all of them digits. *)
Definition isdigit (s : line) : bool :=
  match s with
  | [] => false
  | _ => forallb isdigit_char s
  end.

(** [s.split(sep)] for a separator of one character, told by [is_sep]. *)
Fixpoint split_by {C} (is_sep : C -> bool) (s : list C) : list (list C) :=
  match s with
  | [] => [[]]
  | c :: s' =>
      if is_sep c then [] :: split_by is_sep s'
      else match split_by is_sep s' with
           | [] => [[c]]
           | w :: ws => (c :: w) :: ws
           end
  end.

(** [s.split(sep)] on a line. *)
Definition split_line (sep : ascii) (s : line) : list line :=
  split_by (fun c => Ascii.eqb c sep) s.

(** The digits of an integer literal: decimal digits, single underscores
    allowed between two digits. *)
Fixpoint int_body (acc : Z) (after_digit : bool) (s : line) : option Z :=
  match s with
  | [] => if after_digit then Some acc else None
  | c :: s' =>
      match digit_value c with
      | Some d => int_body (10 * acc + d) true s'
      | None =>
          if Ascii.eqb c "_" && after_digit
          then match s' with
               | [] => None
               | _ => int_body acc false s'
               end
          else None
      end
  end.

(** [int(s)] in base 10: surrounding whitespace, an optional sign, then
    the digits; anything else is a [ValueError].  CPython 3.11 and later
    also refuse a literal of more than 4300 digits; the statements that
    speak of every line bound its length. *)
Definition int (s : line) : res Z :=
  let t := strip s in
  let '(neg, body) :=
    match t with
    | "-"%char :: r => (true, r)
    | "+"%char :: r => (false, r)
    | _ => (false, t)
    end in
  match int_body 0 false body with
  | Some v => Ok (if neg : bool then - v else v)
  | None => Raise ValueError
  end.

(** *** The strings of the program *)

(** [s.split(sep)] for a separator of one character. *)
Definition split (sep : char) (s : str) : list str :=
  split_by (fun c => N.eqb c sep) s.
Arguments split sep%_char s.

(** [s.startswith(p)]. *)
Fixpoint startswith (p s : str) : bool :=
  match p, s with
  | [], _ => true
  | _ :: _, [] => false
  | a :: p', b :: s' => N.eqb a b && startswith p' s'
  end.

(** [s.endswith(p)]. *)
Definition endswith (p s : str) : bool := startswith (rev p) (rev s).

(** [p in s]: [p] occurs in [s] as a substring. *)
Fixpoint contains (p s : str) : bool :=
  startswith p s ||
  match s with
  | [] => false
  | _ :: s' => contains p s'
  end.

(** [s.replace(old, new)] for a non-empty [old]: the occurrences of [old]
    are replaced from left to right, without overlap.  [skip] counts the
    characters of a matched occurrence that are still to be passed. *)
Fixpoint replace_from (old new : str) (skip : nat) (s : str) : str :=
  match s with
  | [] => []
  | c :: s' =>
      match skip with
      | S k => replace_from old new k s'
      | O =>
          if startswith old s
          then new ++ replace_from old new (Nat.pred (length old)) s'
          else c :: replace_from old new O s'
      end
  end.

Definition replace (old new s : str) : str := replace_from old new O s.

Definition len {A} (l : list A) : Z := Z.of_nat (length l).

(** [l[i]]: a negative index counts from the end, an index outside the
    list is an [IndexError]. *)
Definition getitem {A} (l : list A) (i : Z) : res A :=
  let j := if i <? 0 then i + len l else i in
  if j <? 0 then Raise IndexError
  else match l !! Z.to_nat j with
       | Some x => Ok x
       | None => Raise IndexError
       end.

End Py.

(** ** The artist extractor and the selector *)

(** [get_artists_with_files]: the set [artists] is a [gset]; [list(artists)]
    is [elements], a duplicate-free list in an order the program does not
    choose. *)
Definition add_artist (artists : gset str) (file : str) : gset str :=
  let parts := Py.split "/" file in
  if 5 <? Py.len parts then
    match parts !! 5%nat with
    | Some artist => {[ artist ]} ∪ artists
    | None => artists
    end
  else artists.

Definition get_artists_with_files (files : list str) : list str :=
  elements (foldl add_artist ∅ files).

(** [select_artists]: [choices] is the line returned by [input]; the menu
    printed before it does not enter the result and is left out. *)
Definition selected_indices (choices : line) : res (list Z) :=
  res_map (fun num => res_bind (Py.int (Py.strip num)) (fun n => Ok (n - 1)))
          (filter (fun num => Py.isdigit (Py.strip num) = true)
                  (Py.split_line "," choices)).

Definition select_artists (artists : list str) (allow_all : bool)
    (choices : line) : res (list str) :=
  if allow_all && bool_decide (Py.lower (Py.strip choices) = latin1 "all")
  then Ok artists
  else
    res_bind (selected_indices choices) (fun selected_indices =>
    res_map (fun i => Py.getitem artists i)
            (filter (fun i => 0 <= i) selected_indices)).

(** ** [os.path] on POSIX *)

Module posixpath.

(** [os.path.join(a, b)]. *)
Definition join (a b : str) : str :=
  if Py.startswith "/" b then b
  else if bool_decide (a = []) || Py.endswith "/" a then a ++ b
  else a ++ "/" ++ b.

(** [os.path.join(a, *p)]. *)
Definition join_all (a : str) (p : list str) : str := foldl join a p.

Definition isabs (p : str) : bool := Py.startswith "/" p.

(** [p.rstrip('/')]. *)
Fixpoint lstrip_sep (s : str) : str :=
  match s with
  | [] => []
  | c :: s' => if N.eqb c "/"%char then lstrip_sep s' else s
  end.

Definition rstrip_sep (s : str) : str := rev (lstrip_sep (rev s)).

(** [head, tail = os.path.split(p)]: [tail] is what follows the last
    separator; [head] is what precedes it, without its trailing
    separators unless it consists of separators only. *)
Fixpoint tail_rev (r : str) : str * str :=
  match r with
  | [] => ([], [])
  | c :: r' =>
      if N.eqb c "/"%char then ([], r)
      else let '(t, h) := tail_rev r' in (c :: t, h)
  end.

Definition split (p : str) : str * str :=
  let '(t, h) := tail_rev (rev p) in
  let head := rev h in
  let tail := rev t in
  (if bool_decide (rstrip_sep head = []) then head else rstrip_sep head,
   tail).

Definition dirname (p : str) : str := fst (split p).
Definition basename (p : str) : str := snd (split p).

(** ['/'.join(comps)]. *)
Fixpoint sep_join (comps : list str) : str :=
  match comps with
  | [] => []
  | [c] => c
  | c :: cs => c ++ "/" ++ sep_join cs
  end.

(** The loop of [normpath] over the components; [new_comps] is kept in
    reverse, its last element first. *)
Fixpoint norm_comps (initial_slashes : nat) (new_comps : list str)
    (comps : list str) : list str :=
  match comps with
  | [] => rev new_comps
  | comp :: comps' =>
      if bool_decide (comp = []) || bool_decide (comp = ".")
      then norm_comps initial_slashes new_comps comps'
      else if negb (bool_decide (comp = ".."))
              || (Nat.eqb initial_slashes 0 && bool_decide (new_comps = []))
              || match new_comps with
                 | last :: _ => bool_decide (last = "..")
                 | [] => false
                 end
      then norm_comps initial_slashes (comp :: new_comps) comps'
      else norm_comps initial_slashes (List.tl new_comps) comps'
  end.

(** [os.path.normpath(path)]. *)
Definition normpath (path : str) : str :=
  if bool_decide (path = []) then "."
  else
    let initial_slashes : nat :=
      if Py.startswith "/" path then
        if Py.startswith "//" path && negb (Py.startswith "///" path)
        then 2%nat else 1%nat
      else 0%nat in
    let comps := norm_comps initial_slashes [] (Py.split "/" path) in
    let path' := List.repeat ("/"%char : char) initial_slashes ++ sep_join comps in
    if bool_decide (path' = []) then "." else path'.

(** [os.path.abspath(path)], with the working directory [cwd]. *)
Definition abspath (cwd path : str) : str :=
  normpath (if isabs path then path else join cwd path).

(** [len(os.path.commonprefix([l1, l2]))] on two lists of components. *)
Fixpoint common_len (l1 l2 : list str) : nat :=
  match l1, l2 with
  | a :: l1', b :: l2' =>
      if bool_decide (a = b) then S (common_len l1' l2') else O
  | _, _ => O
  end.

Definition nonempty_comps (p : str) : list str :=
  filter (fun x : str => x <> []) (Py.split "/" p).

(** [os.path.relpath(path, start)]. *)
Definition relpath (cwd path start : str) : res str :=
  if bool_decide (path = []) then Raise ValueError
  else
    let start_list := nonempty_comps (abspath cwd start) in
    let path_list := nonempty_comps (abspath cwd path) in
    let i := common_len start_list path_list in
    let rel_list :=
      List.repeat (".." : str) (length start_list - i)
      ++ drop i path_list in
    match rel_list with
    | [] => Ok ("." : str)
    | c :: cs => Ok (join_all c cs)
    end.

End posixpath.

(** ** The directories of the script *)

Definition music_dir : str := "/Volumes/Media/Music".
Definition flac_converted_dir : str :=
  Eval cbv in posixpath.join music_dir "FLAC_CONVERTED".
Definition m4a_converted_dir : str :=
  Eval cbv in posixpath.join music_dir "M4A_CONVERTED".

(** ** The world of the script

    Paths are compared as strings: two spellings of one file (through [.],
    [..], repeated separators or links) are two keys. *)

(** The messages of the two loggers, one constructor per format string. *)
Inductive LogMsg : Type :=
  | DryWouldConvert (input_file output_file : str)
      (* "[DRY RUN] Would convert {input_file} to {output_file}" *)
  | ErrorConverting (input_file : str) (cmd : list str) (returncode : Z)
      (* "Error converting {input_file}: {e}" *)
  | DryWouldMove (file new_path : str)
      (* "[DRY RUN] Would move {file} to {new_path}" *)
  | Converted (dry_run : bool) (file output_file : str)
      (* "Converted {file} to {output_file}", "[DRY RUN] Converted ..." *)
  | FailedToConvert (dry_run : bool) (file : str)
      (* "Failed to convert {file}", "[DRY RUN] Failed to convert ..." *)
  | TotalOriginalBytes (n : Z)   (* "Total original size: {n} bytes" *)
  | TotalConvertedBytes (n : Z)  (* "Total converted size: {n} bytes" *)
  | SpaceSavedBytes (n : Z).     (* "Space saved: {n} bytes" *)

(** The lines printed on standard output.  The three report lines show
    their byte count divided by 1024*1024 with two decimals; the constructor
    keeps the byte count, the floating-point rendering is not modelled. *)
Inductive Printed : Type :=
  | IndexingStart                (* "Indexing music files..." *)
  | IndexingDir (root : str)     (* "Indexing: {root}" *)
  | IndexingComplete             (* "Indexing complete." *)
  | TotalOriginalMB (bytes : Z)
  | TotalConvertedMB (bytes : Z)
  | SpaceSavedMB (bytes : Z).

Record World : Type := mkWorld {
  files : gmap str N;          (* regular files, with their size in bytes *)
  dirs : gset str;             (* directories *)
  snapshot : option str;       (* text of music_index.json, if it exists *)
  main_log : list LogMsg;      (* music_conversion.log, oldest first *)
  errors_log : list LogMsg;    (* music_conversion_errors.log *)
  stdout : list Printed;
  spawned : list (list str * Z);  (* subprocess.run calls: argv, exit status *)
  moved : list (str * str)        (* shutil.move calls: src, dst *)
}.

Definition set_files (f : gmap str N -> gmap str N) (w : World) : World :=
  mkWorld (f (files w)) (dirs w) (snapshot w) (main_log w) (errors_log w)
          (stdout w) (spawned w) (moved w).
Definition set_dirs (f : gset str -> gset str) (w : World) : World :=
  mkWorld (files w) (f (dirs w)) (snapshot w) (main_log w) (errors_log w)
          (stdout w) (spawned w) (moved w).
Definition set_snapshot (s : option str) (w : World) : World :=
  mkWorld (files w) (dirs w) s (main_log w) (errors_log w)
          (stdout w) (spawned w) (moved w).
Definition add_main_log (m : LogMsg) (w : World) : World :=
  mkWorld (files w) (dirs w) (snapshot w) (main_log w ++ [m]) (errors_log w)
          (stdout w) (spawned w) (moved w).
Definition add_errors_log (m : LogMsg) (w : World) : World :=
  mkWorld (files w) (dirs w) (snapshot w) (main_log w) (errors_log w ++ [m])
          (stdout w) (spawned w) (moved w).
Definition add_stdout (p : Printed) (w : World) : World :=
  mkWorld (files w) (dirs w) (snapshot w) (main_log w) (errors_log w)
          (stdout w ++ [p]) (spawned w) (moved w).
Definition add_spawned (c : list str * Z) (w : World) : World :=
  mkWorld (files w) (dirs w) (snapshot w) (main_log w) (errors_log w)
          (stdout w) (spawned w ++ [c]) (moved w).
Definition add_moved (c : str * str) (w : World) : World :=
  mkWorld (files w) (dirs w) (snapshot w) (main_log w) (errors_log w)
          (stdout w) (spawned w) (moved w ++ [c]).

(** What one run of the external transcoder does: its exit status, and the
    size of the file it leaves at its output path, if it leaves one. *)
Record ToolRun : Type := mkToolRun {
  returncode : Z;
  output_size : option N
}.

(** What the script does not decide: the transcoder (a function of the
    files present and of its input and output paths) and the working
    directory of the process. *)
Record Env : Type := mkEnv {
  ffmpeg : gmap str N -> str -> str -> ToolRun;
  getcwd : str
}.

(** ** Computations with effects *)

Definition M (A : Type) : Type := World -> res A * World.

Definition ret {A} (a : A) : M A := fun w => (Ok a, w).
Definition raise {A} (e : exn) : M A := fun w => (Raise e, w).
Definition bind {A B} (m : M A) (k : A -> M B) : M B :=
  fun w =>
    match m w with
    | (Ok a, w') => k a w'
    | (Raise e, w') => (Raise e, w')
    end.
Definition lift {A} (r : res A) : M A := fun w => (r, w).
Definition modify (f : World -> World) : M unit := fun w => (Ok tt, f w).
Definition gets {A} (f : World -> A) : M A := fun w => (Ok (f w), w).

(** [try: body / except: handler]; [handler e] is [None] when no [except]
    clause matches [e]. *)
Definition try_except {A} (body : M A) (handler : exn -> option (M A))
    : M A :=
  fun w =>
    match body w with
    | (Ok a, w') => (Ok a, w')
    | (Raise e, w') =>
        match handler e with
        | Some h => h w'
        | None => (Raise e, w')
        end
    end.

Notation "'let*' x ':=' m 'in' k" := (bind m (fun x => k))
  (at level 10, x pattern, m at level 100, k at level 200).
Notation "m ';;' k" := (bind m (fun _ => k))
  (at level 100, k at level 200, right associativity).

(** A [for] loop whose body updates the loop variables [acc]. *)
Fixpoint for_each {A S} (l : list A) (body : A -> S -> M S) (acc : S)
    : M S :=
  match l with
  | [] => ret acc
  | x :: l' => let* acc' := body x acc in for_each l' body acc'
  end.

(** ** Logging

    The root logger writes music_conversion.log at level INFO.
    [error_logger] has its own handler on music_conversion_errors.log and,
    as a child of the root logger, also hands its records to the root
    handler. *)

Definition logging_info (m : LogMsg) : M unit := modify (add_main_log m).
Definition logging_error (m : LogMsg) : M unit := modify (add_main_log m).
Definition error_logger_error (m : LogMsg) : M unit :=
  modify (fun w => add_main_log m (add_errors_log m w)).
Definition print (p : Printed) : M unit := modify (add_stdout p).

(** ** Files and processes *)

Definition exists_ (p : str) (w : World) : bool :=
  bool_decide (p ∈ dirs w) || bool_decide (is_Some (files w !! p)).

(** [os.path.getsize(file)] for a path that is a regular file or that does
    not exist.  The world records no size for a directory: a listed path
    that names a directory is outside what this function describes, and
    the statements about a file that is gone say that no directory stands
    at its path either. *)
Definition calculate_size (file : str) : M Z :=
  fun w =>
    match files w !! file with
    | Some n => (Ok (Z.of_N n), w)
    | None => (Raise FileNotFoundError, w)
    end.

(** The path of the directory in which [name] is to stand: the head of
    [name], its trailing separators apart. *)
Definition parent_dir (name : str) : str :=
  let '(head, tail) := posixpath.split name in
  if bool_decide (tail = []) then fst (posixpath.split head) else head.

(** [os.mkdir(name)], as [makedirs] calls it: the parent exists by then,
    and a regular file in its place is [NotADirectoryError]; something at
    [name] itself is [FileExistsError]. *)
Definition mkdir (name : str) : M unit :=
  fun w =>
    if bool_decide (name = []) then (Raise FileNotFoundError, w)
    else if bool_decide (is_Some (files w !! parent_dir name))
            && negb (bool_decide (parent_dir name ∈ dirs w))
    then (Raise NotADirectoryError, w)
    else if exists_ name w then (Raise FileExistsError, w)
    else (Ok tt, set_dirs (fun d => {[ name ]} ∪ d) w).

(** [os.makedirs(name, exist_ok=True)].  The recursion on the head of the
    path is bounded by [fuel]; see [makedirs]. *)
Fixpoint makedirs_fuel (fuel : nat) (name : str) : M unit :=
  match fuel with
  | O => raise OutOfFuel
  | S fuel' =>
      let '(head, tail) := posixpath.split name in
      let '(head, tail) :=
        if bool_decide (tail = []) then posixpath.split head
        else (head, tail) in
      let* missing := gets (fun w => negb (exists_ head w)) in
      let* stop :=
        if negb (bool_decide (head = [])) && negb (bool_decide (tail = []))
           && missing
        then
          try_except (makedirs_fuel fuel' head)
            (fun e => match e with
                      | FileExistsError => Some (ret tt)
                      | _ => None
                      end) ;;
          ret (bool_decide (tail = "."))
        else ret false in
      if stop : bool then ret tt
      else
        try_except (mkdir name)
          (fun e => Some (fun w =>
             if bool_decide (name ∈ dirs w) then (Ok tt, w)
             else (Raise e, w)))
  end.

Definition makedirs (name : str) : M unit :=
  makedirs_fuel (S (length name)) name.

(** [shutil.move(src, dst)] of a regular file on one filesystem. *)
Definition shutil_move (src dst : str) : M unit :=
  modify (add_moved (src, dst)) ;;
  let* dst_is_dir := gets (fun w => bool_decide (dst ∈ dirs w)) in
  let real_dst :=
    if dst_is_dir : bool
    then posixpath.join dst (posixpath.basename (posixpath.rstrip_sep src))
    else dst in
  let* clash := gets (exists_ real_dst) in
  if (dst_is_dir : bool) && clash then raise ShutilError
  else
    fun w =>
      match files w !! src with
      | None => (Raise FileNotFoundError, w)
      | Some n =>
          (Ok tt, set_files (fun f => <[ real_dst := n ]> (delete src f)) w)
      end.

(** [subprocess.run(cmd, check=True, ...)] for the transcoder command
    [ffmpeg -i input -b:a 320k output]. *)
Definition run_ffmpeg (env : Env) (input_file output_file : str) : M unit :=
  let cmd : list str :=
    ["ffmpeg" : str; "-i" : str; input_file; "-b:a" : str; "320k" : str;
     output_file] in
  fun w =>
    let r := ffmpeg env (files w) input_file output_file in
    let w1 :=
      match output_size r with
      | Some n => set_files (fun f => <[ output_file := n ]> f) w
      | None => w
      end in
    let w2 := add_spawned (cmd, returncode r) w1 in
    if returncode r =? 0 then (Ok tt, w2)
    else (Raise (CalledProcessError cmd (returncode r)), w2).

(** ** The converter and the batch *)

Definition convert_file (env : Env) (input_file output_file : str)
    (dry_run : bool) : M bool :=
  try_except
    ((if dry_run
      then logging_info (DryWouldConvert input_file output_file)
      else run_ffmpeg env input_file output_file) ;;
     ret true)
    (fun e =>
       match e with
       | CalledProcessError cmd rc =>
           Some (error_logger_error (ErrorConverting input_file cmd rc) ;;
                 ret false)
       | _ => None
       end).

Definition output_file_of (file : str) : str :=
  Py.replace ".m4a" ".mp3" (Py.replace ".flac" ".mp3" file).

(** The loop variables of [process_files]. *)
Record Totals : Type := mkTotals {
  total_original_size : Z;
  total_converted_size : Z
}.

(** The body of the loop of [process_files] for one [file].  The progress
    bar that [tqdm] draws on standard error is left out. *)
Definition process_file (env : Env) (convert_artists : list str)
    (converted_dir : str) (dry_run : bool) (file : str) (t : Totals)
    : M Totals :=
  let parts := Py.split "/" file in
  if 5 <? Py.len parts then
    let* artist := lift (Py.getitem parts 5) in
    if bool_decide (artist ∈ convert_artists) then
      let output_file := output_file_of file in
      let* original_size := calculate_size file in
      let t := mkTotals (total_original_size t + original_size)
                        (total_converted_size t) in
      let* ok := convert_file env file output_file dry_run in
      if ok : bool then
        let* rel := lift (posixpath.relpath (getcwd env) file music_dir) in
        let new_path := posixpath.join converted_dir rel in
        makedirs (posixpath.dirname new_path) ;;
        let* t :=
          if dry_run then
            logging_info (DryWouldMove file new_path) ;;
            ret t
          else
            shutil_move file new_path ;;
            let* converted_size := calculate_size output_file in
            ret (mkTotals (total_original_size t)
                          (total_converted_size t + converted_size)) in
        logging_info (Converted dry_run file output_file) ;;
        ret t
      else
        logging_error (FailedToConvert dry_run file) ;;
        ret t
    else ret t
  else ret t.

Definition process_files (env : Env) (files : list str)
    (convert_artists : list str) (converted_dir : str) (dry_run : bool)
    : M unit :=
  let* t := for_each files
              (process_file env convert_artists converted_dir dry_run)
              (mkTotals 0 0) in
  if negb dry_run then
    let space_saved := total_original_size t - total_converted_size t in
    print (TotalOriginalMB (total_original_size t)) ;;
    print (TotalConvertedMB (total_converted_size t)) ;;
    print (SpaceSavedMB space_saved) ;;
    logging_info (TotalOriginalBytes (total_original_size t)) ;;
    logging_info (TotalConvertedBytes (total_converted_size t)) ;;
    logging_info (SpaceSavedBytes space_saved)
  else ret tt.

(** ** What the batch did, file by file *)

(** [file] passes the two tests of the loop: it has a segment at index 5,
    and that segment is one of [convert_artists]. *)
Definition selected (convert_artists : list str) (file : str) : bool :=
  match Py.split "/" file !! 5%nat with
  | Some artist => bool_decide (artist ∈ convert_artists)
  | None => false
  end.

(** The conversion outcome of one file: the size of the original when its
    conversion was attempted, and the size of the converted file when the
    conversion succeeded. *)
Record Outcome : Type := mkOutcome {
  oc_file : str;
  oc_original : Z;
  oc_converted : option Z
}.

(** The outcome of [file] in a live batch, read off the world [w] in which
    its turn starts and the world [w'] in which it ends: no outcome unless
    the file is selected and present; its size in [w]; on exit status zero,
    the size of its output file in [w']. *)
Definition file_outcomes (env : Env) (convert_artists : list str)
    (file : str) (w w' : World) : list Outcome :=
  if selected convert_artists file then
    match files w !! file with
    | Some n =>
        [mkOutcome file (Z.of_N n)
           (if returncode (ffmpeg env (files w) file (output_file_of file))
               =? 0
            then Z.of_N <$> (files w' !! output_file_of file)
            else None)]
    | None => []
    end
  else [].

Fixpoint conversion_outcomes (env : Env) (convert_artists : list str)
    (converted_dir : str) (files : list str) (w : World) : list Outcome :=
  match files with
  | [] => []
  | file :: rest =>
      let w' := snd (process_file env convert_artists converted_dir false
                                  file (mkTotals 0 0) w) in
      file_outcomes env convert_artists file w w'
      ++ conversion_outcomes env convert_artists converted_dir rest w'
  end.

Definition original_total (outcomes : list Outcome) : Z :=
  foldr (fun oc acc => oc_original oc + acc) 0 outcomes.

Definition converted_total (outcomes : list Outcome) : Z :=
  foldr (fun oc acc => default 0 (oc_converted oc) + acc) 0 outcomes.

(** The three lines of the report in the log. *)
Definition is_report (m : LogMsg) : bool :=
  match m with
  | TotalOriginalBytes _ | TotalConvertedBytes _ | SpaceSavedBytes _ => true
  | _ => false
  end.

(** ** Relations between the world before and the world after *)

(** [w'] differs from [w] by new directories only. *)
Definition only_dirs_grow (w w' : World) : Prop :=
  files w' = files w /\ snapshot w' = snapshot w /\
  main_log w' = main_log w /\ errors_log w' = errors_log w /\
  stdout w' = stdout w /\ spawned w' = spawned w /\ moved w' = moved w /\
  dirs w ⊆ dirs w'.

(** [w'] prints nothing more than [w], and its log continues the log of [w]
    with lines that are not report lines. *)
Definition logs_extend (w w' : World) : Prop :=
  stdout w' = stdout w /\
  exists msgs, main_log w' = main_log w ++ msgs /\
               Forall (fun m => is_report m = false) msgs.

(** [w'] has the files of [w], has run no process and moved no file. *)
Definition files_untouched (w w' : World) : Prop :=
  files w' = files w /\ spawned w' = spawned w /\ moved w' = moved w /\
  errors_log w' = errors_log w /\ snapshot w' = snapshot w.

(** [file] is still there in [w'] if it was in [w], and no move of [file]
    was added. *)
Definition file_kept (file : str) (w w' : World) : Prop :=
  (is_Some (files w !! file) -> is_Some (files w' !! file)) /\
  (forall dst, (file, dst) ∈ moved w' -> (file, dst) ∈ moved w).

(** ** JSON text, as [json.dump] writes it and [json.load] reads it *)

Module json.

(** The Python values of JSON.  A number keeps the text of its literal
    (the program stores no number).  A [dict] is the list of its items in
    insertion order; [dict_get] reads it. *)
#[warnings="-register-all"] Inductive value : Type :=
  | PyNone
  | PyBool (b : bool)
  | PyNumber (literal : str)
  | PyStr (s : str)
  | PyList (items : list value)
  | PyDict (items : list (str * value)).

Definition dquote : char := "034"%char.
Definition backslash : char := "092"%char.

(** *** Encoder, with the defaults [ensure_ascii=True] and the separators
    [", "] and [": "] *)

Definition hex_digit (n : Z) : char :=
  if n <? 10 then Z.to_N (48 + n) else Z.to_N (87 + n).

(** ['\\u{0:04x}'.format(n)] for [n] below [0x10000]. *)
Definition u_escape (n : Z) : str :=
  [backslash; "u"%char : char; hex_digit (n / 4096); hex_digit (n / 256 mod 16);
   hex_digit (n / 16 mod 16); hex_digit (n mod 16)].

(** One character of a string literal: the short escapes, the printable
    ASCII characters as they are, every other character of the basic plane
    as [\uXXXX], and a character above it as the two escapes of its
    surrogate pair. *)
Definition escape_char (c : char) : str :=
  let n := Py.ord c in
  if n =? 34 then [backslash; dquote]
  else if n =? 92 then [backslash; backslash]
  else if n =? 10 then [backslash; "n"%char : char]
  else if n =? 13 then [backslash; "r"%char : char]
  else if n =? 9 then [backslash; "t"%char : char]
  else if n =? 8 then [backslash; "b"%char : char]
  else if n =? 12 then [backslash; "f"%char : char]
  else if (32 <=? n) && (n <=? 126) then [c]
  else if n <? 65536 then u_escape n
  else
    let v := n - 65536 in
    u_escape (Z.lor 55296 (Z.land (Z.shiftr v 10) 1023))
    ++ u_escape (Z.lor 56320 (Z.land v 1023)).

Definition encode_string (s : str) : str :=
  dquote :: flat_map escape_char s ++ [dquote].

(** [sep.join(parts)]. *)
Fixpoint sep_concat {C} (sep : list C) (parts : list (list C)) : list C :=
  match parts with
  | [] => []
  | [p] => p
  | p :: ps => p ++ sep ++ sep_concat sep ps
  end.

Fixpoint dumps (v : value) : str :=
  match v with
  | PyNone => "null"
  | PyBool true => "true"
  | PyBool false => "false"
  | PyNumber literal => literal
  | PyStr s => encode_string s
  | PyList items => "[" ++ sep_concat ", " (map dumps items) ++ "]"
  | PyDict items =>
      "{"
      ++ sep_concat ", "
           (map (fun kv => encode_string (fst kv) ++ ": " ++ dumps (snd kv))
                items)
      ++ "}"
  end.

(** *** Decoder *)

Definition is_ws (c : char) : bool :=
  let n := Py.ord c in
  (n =? 32) || (n =? 9) || (n =? 10) || (n =? 13).

Fixpoint skip_ws (s : str) : str :=
  match s with
  | [] => []
  | c :: s' => if is_ws c then skip_ws s' else s
  end.

Definition hex_value (c : char) : option Z :=
  let n := Py.ord c in
  if (48 <=? n) && (n <=? 57) then Some (n - 48)
  else if (97 <=? n) && (n <=? 102) then Some (n - 87)
  else if (65 <=? n) && (n <=? 70) then Some (n - 55)
  else None.

Definition hex4 (a b c d : char) : option Z :=
  match hex_value a, hex_value b, hex_value c, hex_value d with
  | Some x, Some y, Some z, Some t => Some (((x * 16 + y) * 16 + z) * 16 + t)
  | _, _, _, _ => None
  end.

Definition unescape (c : char) : option char :=
  let n := Py.ord c in
  if (n =? 34) || (n =? 92) || (n =? 47) then Some c
  else if n =? 98 then Some 8%N
  else if n =? 102 then Some 12%N
  else if n =? 110 then Some 10%N
  else if n =? 114 then Some 13%N
  else if n =? 116 then Some 9%N
  else None.

Definition cons_result (c : char) (r : res (str * str)) : res (str * str) :=
  res_bind r (fun tr => Ok (c :: fst tr, snd tr)).

(** The surrogates U+D800..U+DBFF and U+DC00..U+DFFF, and the character
    that the escapes of a pair stand for. *)
Definition is_high_surrogate (n : Z) : bool := (55296 <=? n) && (n <=? 56319).
Definition is_low_surrogate (n : Z) : bool := (56320 <=? n) && (n <=? 57343).
Definition join_surrogates (high low : Z) : char :=
  Z.to_N (65536 + Z.lor (Z.shiftl (high - 55296) 10) (low - 56320)).

(** The body of a string literal, from after its opening quote: the
    decoded string and the text after the closing quote.  The escape of a
    high surrogate that is followed by the escape of a low surrogate is
    read with it as one character. *)
Fixpoint scanstring (s : str) : res (str * str) :=
  match s with
  | [] => Raise JSONDecodeError
  | c :: r =>
      if N.eqb c dquote then Ok ([], r)
      else if N.eqb c backslash then
        match r with
        | [] => Raise JSONDecodeError
        | e :: r1 =>
            if N.eqb e "u"%char then
              match r1 with
              | h1 :: h2 :: h3 :: h4 :: r2 =>
                  match hex4 h1 h2 h3 h4 with
                  | Some n =>
                      if is_high_surrogate n then
                        match r2 with
                        | b :: u :: r3 =>
                            if N.eqb b backslash && N.eqb u "u"%char then
                              match r3 with
                              | k1 :: k2 :: k3 :: k4 :: r4 =>
                                  match hex4 k1 k2 k3 k4 with
                                  | Some n2 =>
                                      if is_low_surrogate n2
                                      then cons_result (join_surrogates n n2)
                                                       (scanstring r4)
                                      else cons_result (Z.to_N n)
                                                       (scanstring r2)
                                  | None => Raise JSONDecodeError
                                  end
                              | _ => Raise JSONDecodeError
                              end
                            else cons_result (Z.to_N n) (scanstring r2)
                        | _ => cons_result (Z.to_N n) (scanstring r2)
                        end
                      else cons_result (Z.to_N n) (scanstring r2)
                  | None => Raise JSONDecodeError
                  end
              | _ => Raise JSONDecodeError
              end
            else
              match unescape e with
              | Some c' => cons_result c' (scanstring r1)
              | None => Raise JSONDecodeError
              end
        end
      else if Py.ord c <? 32 then Raise JSONDecodeError
      else cons_result c (scanstring r)
  end.

Definition is_decimal (c : char) : bool :=
  (48 <=? Py.ord c) && (Py.ord c <=? 57).

(** The longest run of decimal digits at the head of [s], and the rest. *)
Fixpoint digits (s : str) : str * str :=
  match s with
  | [] => ([], [])
  | c :: s' =>
      if is_decimal c then let '(d, r) := digits s' in (c :: d, r)
      else ([], s)
  end.

(** The number literal at the head of [s], as the number pattern of the
    decoder matches it: the integer part, then the fraction and the
    exponent where they are complete.  Each part is given with the text
    after it. *)
Definition number_int (s : str) : option (str * str) :=
  let '(sign, r) :=
    match s with
    | c :: r => if N.eqb c "-"%char then ([c], r) else ([], s)
    | [] => ([], s)
    end in
  match r with
  | [] => None
  | c :: r' =>
      if N.eqb c "0"%char then Some (sign ++ [c], r')
      else if is_decimal c
      then let '(d, r'') := digits r' in Some (sign ++ c :: d, r'')
      else None
  end.

Definition number_frac (r1 : str) : str * str :=
  match r1 with
  | c :: r' =>
      if N.eqb c "."%char then
        match digits r' with
        | ([], _) => ([], r1)
        | (d, r'') => (c :: d, r'')
        end
      else ([], r1)
  | [] => ([], r1)
  end.

Definition number_exp (r2 : str) : str * str :=
  match r2 with
  | c :: r' =>
      if N.eqb c "e"%char || N.eqb c "E"%char then
        let '(esign, r'') :=
          match r' with
          | c' :: t =>
              if N.eqb c' "-"%char || N.eqb c' "+"%char
              then ([c'], t) else ([], r')
          | [] => ([], r')
          end in
        match digits r'' with
        | ([], _) => ([], r2)
        | (d, t) => (c :: esign ++ d, t)
        end
      else ([], r2)
  | [] => ([], r2)
  end.

Definition scan_number (s : str) : option (str * str) :=
  match number_int s with
  | None => None
  | Some (int_part, r1) =>
      let '(frac, r2) := number_frac r1 in
      let '(exp, r3) := number_exp r2 in
      Some (int_part ++ frac ++ exp, r3)
  end.

(** A constant [word] at the head of [s]. *)
Definition scan_word (word : str) (v : value) (s : str)
    : option (value * str) :=
  if Py.startswith word s then Some (v, drop (length word) s) else None.

(** The values that are neither strings, arrays nor objects, tried in the
    order of the decoder. *)
Definition scan_atom (s : str) : res (value * str) :=
  match scan_word "null" PyNone s with
  | Some r => Ok r
  | None =>
  match scan_word "true" (PyBool true) s with
  | Some r => Ok r
  | None =>
  match scan_word "false" (PyBool false) s with
  | Some r => Ok r
  | None =>
  match scan_number s with
  | Some (lit, r) => Ok (PyNumber lit, r)
  | None =>
  match scan_word "NaN" (PyNumber "NaN") s with
  | Some r => Ok r
  | None =>
  match scan_word "Infinity" (PyNumber "Infinity") s with
  | Some r => Ok r
  | None =>
  match scan_word "-Infinity" (PyNumber "-Infinity") s with
  | Some r => Ok r
  | None => Raise JSONDecodeError
  end end end end end end end.

(** [scan_once] reads the value at the head of [s]; [parse_elements]
    reads the elements of an array from its first element to its closing
    bracket; [parse_members] reads the members of an object from after
    the opening quote of the first key to its closing brace.  Each call
    takes one unit of [fuel]; [loads] gives enough of it. *)
Fixpoint scan_once (fuel : nat) (s : str) : res (value * str) :=
  match fuel with
  | O => Raise OutOfFuel
  | S fuel' =>
      match s with
      | [] => Raise JSONDecodeError
      | c :: r =>
          if N.eqb c dquote then
            res_bind (scanstring r) (fun tr => Ok (PyStr (fst tr), snd tr))
          else if N.eqb c "{"%char then
            match skip_ws r with
            | [] => Raise JSONDecodeError
            | c2 :: r2 =>
                if N.eqb c2 "}"%char then Ok (PyDict [], r2)
                else if N.eqb c2 dquote then
                  res_bind (parse_members fuel' r2)
                           (fun mr => Ok (PyDict (fst mr), snd mr))
                else Raise JSONDecodeError
            end
          else if N.eqb c "["%char then
            match skip_ws r with
            | [] => Raise JSONDecodeError
            | c2 :: r2 =>
                if N.eqb c2 "]"%char then Ok (PyList [], r2)
                else
                  res_bind (parse_elements fuel' (c2 :: r2))
                           (fun er => Ok (PyList (fst er), snd er))
            end
          else scan_atom s
      end
  end
with parse_elements (fuel : nat) (s : str) : res (list value * str) :=
  match fuel with
  | O => Raise OutOfFuel
  | S fuel' =>
      res_bind (scan_once fuel' s) (fun vr =>
        match skip_ws (snd vr) with
        | [] => Raise JSONDecodeError
        | c :: r =>
            if N.eqb c "]"%char then Ok ([fst vr], r)
            else if N.eqb c ","%char then
              res_bind (parse_elements fuel' (skip_ws r))
                       (fun er => Ok (fst vr :: fst er, snd er))
            else Raise JSONDecodeError
        end)
  end
with parse_members (fuel : nat) (s : str)
    : res (list (str * value) * str) :=
  match fuel with
  | O => Raise OutOfFuel
  | S fuel' =>
      res_bind (scanstring s) (fun kr =>
        match skip_ws (snd kr) with
        | [] => Raise JSONDecodeError
        | c :: r =>
            if N.eqb c ":"%char then
              res_bind (scan_once fuel' (skip_ws r)) (fun vr =>
                match skip_ws (snd vr) with
                | [] => Raise JSONDecodeError
                | c2 :: r2 =>
                    if N.eqb c2 "}"%char then Ok ([(fst kr, fst vr)], r2)
                    else if N.eqb c2 ","%char then
                      match skip_ws r2 with
                      | [] => Raise JSONDecodeError
                      | c3 :: r3 =>
                          if N.eqb c3 dquote then
                            res_bind (parse_members fuel' r3) (fun mr =>
                              Ok ((fst kr, fst vr) :: fst mr, snd mr))
                          else Raise JSONDecodeError
                      end
                    else Raise JSONDecodeError
                end)
            else Raise JSONDecodeError
        end)
  end.

(** [json.loads(s)]: one value, with whitespace around it and nothing
    else. *)
Definition loads (s : str) : res value :=
  res_bind (scan_once (S (2 * length s)) (skip_ws s)) (fun vr =>
    match skip_ws (snd vr) with
    | [] => Ok (fst vr)
    | _ :: _ => Raise JSONDecodeError
    end).

(** [d[key]] on the items of a [dict] built from pairs: the last item
    with that key. *)
Fixpoint dict_get (key : str) (items : list (str * value)) : option value :=
  match items with
  | [] => None
  | (k, v) :: items' =>
      match dict_get key items' with
      | Some v' => Some v'
      | None => if bool_decide (k = key) then Some v else None
      end
  end.

(** [data[key]] for a string [key]. *)
Definition getitem (data : value) (key : str) : res value :=
  match data with
  | PyDict items =>
      match dict_get key items with
      | Some v => Ok v
      | None => Raise KeyError
      end
  | _ => Raise TypeError
  end.

End json.

(** ** Strings that the snapshot keeps *)

(** A [str] holds code points up to U+10FFFF. *)
Definition is_code_point (c : char) : bool := Py.ord c <=? 1114111.

(** [s] begins with a low surrogate. *)
Definition low_first (s : str) : bool :=
  match s with
  | c :: _ => json.is_low_surrogate (Py.ord c)
  | [] => false
  end.

(** No high surrogate of [s] is directly followed by a low surrogate.
    [json.load] reads the escapes of such a pair as those of one character
    above the basic plane.  A string decoded from a file name holds no such
    pair: the decoders of file names yield no high surrogate (UTF-8 with
    [surrogateescape]) or read a high surrogate followed by a low one as
    one character (UTF-16). *)
Fixpoint no_surrogate_pair (s : str) : bool :=
  match s with
  | [] => true
  | c :: s' =>
      negb (json.is_high_surrogate (Py.ord c) && low_first s')
      && no_surrogate_pair s'
  end.

(** The strings that [json.dump] and [json.load] keep as they are: every
    [str] without such a pair. *)
Definition kept_by_json (s : str) : bool :=
  forallb is_code_point s && no_surrogate_pair s.

(** The characters of a path as a POSIX system gives it to the program:
    [os.walk] decodes a file name with [os.fsdecode], that is UTF-8 with
    the [surrogateescape] handler, which yields the characters that UTF-8
    encodes, none of them a surrogate, and one of U+DC80..U+DCFF for each
    byte that is not UTF-8. *)
Definition path_char (c : char) : bool :=
  let n := Py.ord c in
  (n <=? 1114111)
  && (negb ((55296 <=? n) && (n <=? 57343)) || ((56448 <=? n) && (n <=? 56575))).

Definition path_string (s : str) : bool := forallb path_char s.

Definition path_strings (l : list str) : bool := forallb path_string l.

(** After the escape of a high surrogate, [t] makes [scanstring] leave the
    simple case: [t] begins with a second [\u] escape that is cut short,
    is not hexadecimal, or is that of a low surrogate. *)
Definition pair_follows (t : str) : bool :=
  match t with
  | b :: t1 =>
      N.eqb b json.backslash
      && match t1 with
         | u :: t2 =>
             N.eqb u "u"%char
             && match t2 with
                | k1 :: k2 :: k3 :: k4 :: _ =>
                    match json.hex4 k1 k2 k3 k4 with
                    | Some n2 => json.is_low_surrogate n2
                    | None => true
                    end
                | _ => true
                end
         | [] => false
         end
  | [] => false
  end.

(** A character that ends a number literal for good: no digit, point or
    exponent mark. *)
Definition number_stop (c : char) : bool :=
  let n := Py.ord c in
  negb ((48 <=? n) && (n <=? 57)) && negb (n =? 46) && negb (n =? 101)
  && negb (n =? 69).

(** [r] begins with such a character. *)
Definition number_ends (r : str) : bool :=
  match r with
  | c :: _ => number_stop c
  | [] => false
  end.

(** The first character of [s] after the whitespace is one with which a
    value begins: a quote, a brace, a bracket, the first letter of [null],
    [true], [false], [NaN] or [Infinity], a minus sign or a digit. *)
Definition begins_value (s : str) : bool :=
  match json.skip_ws s with
  | [] => false
  | c :: _ =>
      let n := Py.ord c in
      (n =? 34) || (n =? 123) || (n =? 91) || (n =? 110) || (n =? 116)
      || (n =? 102) || (n =? 78) || (n =? 73) || (n =? 45)
      || ((48 <=? n) && (n <=? 57))
  end.

(** A path whose artist and title hold a letter of Latin-1 (U+00F6), a
    character of the basic plane (U+4E2D), a character above it (U+1F3B5)
    and the stand-in U+DC80 of a byte that is not UTF-8. *)
Definition path_of_many_planes : str :=
  "/Volumes/Media/Music/Lib/Bj" ++ [246%N] ++ "rk/Album/"
  ++ [20013%N; 127925%N; 56448%N] ++ ".flac".

(** ** The index store *)

Definition py_str_list (l : list str) : json.value :=
  json.PyList (map json.PyStr l).

(** The dictionary [{'flac': flac_files, 'm4a': m4a_files}], and
    [with open(index_file, 'w') as f: json.dump(..., f)], the last
    statements of [index_music_files]. *)
Definition index_dict (flac_files m4a_files : list str) : json.value :=
  json.PyDict [("flac" : str, py_str_list flac_files);
               ("m4a" : str, py_str_list m4a_files)].

(** The malformed snapshots: text in which no value begins (empty, blank,
    or beginning with another character), a saved snapshot cut short, and
    a saved snapshot followed by text that is not blank. *)
Inductive malformed_snapshot : str -> Prop :=
  | no_value (text : str) :
      begins_value text = false -> malformed_snapshot text
  | cut_short (flac_files m4a_files : list str) (n : nat) :
      forallb kept_by_json flac_files = true ->
      forallb kept_by_json m4a_files = true ->
      (n < length (json.dumps (index_dict flac_files m4a_files)))%nat ->
      malformed_snapshot (take n (json.dumps (index_dict flac_files m4a_files)))
  | extra_data (flac_files m4a_files : list str) (rest : str) :
      forallb kept_by_json flac_files = true ->
      forallb kept_by_json m4a_files = true ->
      json.skip_ws rest <> [] ->
      malformed_snapshot (json.dumps (index_dict flac_files m4a_files) ++ rest).

Definition save_index (flac_files m4a_files : list str) : M unit :=
  modify (set_snapshot (Some (json.dumps (index_dict flac_files m4a_files)))).

(** [open(index_file, 'r')] and [f.read()]. *)
Definition read_index_file : M str :=
  fun w =>
    match snapshot w with
    | Some text => (Ok text, w)
    | None => (Raise FileNotFoundError, w)
    end.

Definition load_index : M (json.value * json.value) :=
  let* text := read_index_file in
  let* data := lift (json.loads text) in
  let* flac := lift (json.getitem data "flac") in
  let* m4a := lift (json.getitem data "m4a") in
  ret (flac, m4a).

(** ** The indexer *)

(** A directory: its name, its subdirectories and the names of its files,
    in the order in which the directory lists them. *)
#[warnings="-register-all"] Inductive Dir : Type :=
  | mkDir (name : str) (subdirs : list Dir) (filenames : list str).

Definition dir_name (d : Dir) : str :=
  match d with mkDir name _ _ => name end.

(** [os.walk(top)] on the directory [d] found at [top], top-down: the
    triples [(root, dirs, files)].  Every directory can be listed and none
    is a link. *)
Fixpoint os_walk (top : str) (d : Dir) : list (str * list str * list str) :=
  match d with
  | mkDir _ subdirs filenames =>
      (top, map dir_name subdirs, filenames)
      :: flat_map (fun sub => os_walk (posixpath.join top (dir_name sub)) sub)
                  subdirs
  end.

(** The two lists that [index_music_files] fills. *)
Definition Index : Type := list str * list str.

Definition index_file_name (root : str) (acc : Index) (file : str) : Index :=
  let '(flac_files, m4a_files) := acc in
  if Py.endswith ".flac" file
  then (flac_files ++ [posixpath.join root file], m4a_files)
  else if Py.endswith ".m4a" file
  then (flac_files, m4a_files ++ [posixpath.join root file])
  else acc.

Definition index_dir (entry : str * list str * list str) (acc : Index)
    : M Index :=
  let '(root, _, filenames) := entry in
  if Py.contains flac_converted_dir root || Py.contains m4a_converted_dir root
  then ret acc
  else
    print (IndexingDir root) ;;
    ret (foldl (index_file_name root) acc filenames).

(** [index_music_files()], with the directory found at [music_dir]. *)
Definition index_music_files (tree : Dir) : M Index :=
  print IndexingStart ;;
  let* idx := for_each (os_walk music_dir tree) index_dir ([], []) in
  print IndexingComplete ;;
  save_index (fst idx) (snd idx) ;;
  ret idx.

(** An empty world. *)
Definition empty_world : World :=
  mkWorld ∅ ∅ None [] [] [] [] [].


(** ** Statements about the decoder *)

(** What the three scanners leave is shorter than what they were given. *)
Definition scanners_consume (fuel : nat) : Prop :=
  (forall s v r, json.scan_once fuel s = Ok (v, r) ->
                 (length r < length s)%nat) /\
  (forall s vs r, json.parse_elements fuel s = Ok (vs, r) ->
                  (length r < length s)%nat) /\
  (forall s ms r, json.parse_members fuel s = Ok (ms, r) ->
                  (length r < length s)%nat).

(** With the fuel that [loads] gives, the scanners do not run out of it. *)
Definition scanners_fuelled (fuel : nat) : Prop :=
  (forall s, (2 * length s + 1 <= fuel)%nat ->
             json.scan_once fuel s <> Raise OutOfFuel) /\
  (forall s, (2 * length s + 2 <= fuel)%nat ->
             json.parse_elements fuel s <> Raise OutOfFuel) /\
  (forall s, (2 * length s + 2 <= fuel)%nat ->
             json.parse_members fuel s <> Raise OutOfFuel).

(** ** The indexer's property in the words of the specification

    Every indexed path has the extension of its list and does not begin
    with either converted directory. *)
Definition prefix_free (ext p : str) : Prop :=
  Py.endswith ext p = true /\
  Py.startswith flac_converted_dir p = false /\
  Py.startswith m4a_converted_dir p = false.

Definition indexer_prefix_free (tree : Dir) : Prop :=
  forall (w : World) (flac_files m4a_files : list str),
    fst (index_music_files tree w) = Ok (flac_files, m4a_files) ->
    (forall p, p ∈ flac_files -> prefix_free ".flac" p) /\
    (forall p, p ∈ m4a_files -> prefix_free ".m4a" p).

(** What the indexer guarantees of a path [p] of the list for [ext]: [p]
    joins a walked directory [root] and one of its file names, the name
    ends with [ext], [root] contains neither converted directory as a
    substring, and [p] lies beneath neither of them. *)
Definition indexed_from (walk : list (str * list str * list str))
    (ext p : str) : Prop :=
  Py.endswith ext p = true /\
  Py.startswith (flac_converted_dir ++ "/") p = false /\
  Py.startswith (m4a_converted_dir ++ "/") p = false /\
  exists root ds fs file,
    (root, ds, fs) ∈ walk /\ file ∈ fs /\
    Py.endswith ext file = true /\
    p = posixpath.join root file /\
    Py.contains flac_converted_dir root = false /\
    Py.contains m4a_converted_dir root = false.

(** File names hold no separator. *)
Definition plain_names (walk : list (str * list str * list str)) : Prop :=
  forall root ds fs file,
    (root, ds, fs) ∈ walk -> file ∈ fs -> ("/"%char : char) ∉ file.

(** The invariant of the two loops of the indexer over [walk]. *)
Definition index_inv (walk : list (str * list str * list str))
    (idx : Index) : Prop :=
  (forall p, p ∈ fst idx -> indexed_from walk ".flac" p) /\
  (forall p, p ∈ snd idx -> indexed_from walk ".m4a" p).

(** ** Concrete inputs used in the examples below *)

Definition three_artists : list str := ["A" : str; "B" : str; "C" : str].

(** A music directory with one album and, at its top, a file whose name
    starts like the converted directory. *)
Definition tree_with_lookalike : Dir :=
  mkDir "Music"
    [mkDir "Lib" [mkDir "Art" [mkDir "Alb" [] ["t.flac" : str; "u.m4a" : str]] []] [];
     mkDir "FLAC_CONVERTED" [] ["old.flac" : str]]
    ["FLAC_CONVERTED.flac" : str].

(** A music directory in which a directory deep in the library repeats the
    path of the converted directory. *)
Definition tree_with_nested_path : Dir :=
  mkDir "Music"
    [mkDir "Lib"
       [mkDir "Volumes"
          [mkDir "Media"
             [mkDir "Music" [mkDir "FLAC_CONVERTED" [] ["s.flac" : str]] []]
             []]
          []]
       []]
    [].

(** Three tracks: two of the artist [Art], one of them in a directory
    whose name ends in [.flac], and one of the artist [Bob]. *)
Definition track_a : str := "/Volumes/Media/Music/Lib/Art/Alb/t.flac".
Definition track_live : str := "/Volumes/Media/Music/Lib/Art/Live.flac/t.flac".
Definition track_other : str := "/Volumes/Media/Music/Lib/Bob/Alb/u.flac".

(** A world with the three tracks and, as the script makes them when it
    starts, the two converted directories. *)
Definition example_world : World :=
  mkWorld {[ track_a := 100%N; track_live := 10%N; track_other := 50%N ]}
          {[ music_dir; flac_converted_dir; m4a_converted_dir ]}
          None [] [] [] [] [].

(** A transcoder that converts [track_a] into 130 bytes and fails on every
    other input. *)
Definition env_growing : Env :=
  mkEnv (fun _ input _ =>
           if bool_decide (input = track_a) then mkToolRun 0 (Some 130%N)
           else mkToolRun 1 None)
        "/home/user".

(** A transcoder that always fails. *)
Definition env_failing : Env :=
  mkEnv (fun _ _ _ => mkToolRun 1 None) "/home/user".

(** ** The menu of the selector *)

(** [str(n)] for an integer: its decimal digits, after a minus sign when it
    is negative; they are ASCII, and [str_int] gives them as they are
    typed.  [render_digits] puts the digits of [n] before [acc], last digit
    first. *)
Fixpoint render_digits (fuel : nat) (n : Z) (acc : line) : line :=
  match fuel with
  | O => acc
  | S fuel' =>
      let acc' := ascii_of_N (Z.to_N (48 + n mod 10)) :: acc in
      if n <? 10 then acc' else render_digits fuel' (n / 10) acc'
  end.

Definition str_int (n : Z) : line :=
  if n <? 0 then "-"%char :: render_digits (S (Z.to_nat (- n))) (- n) []
  else render_digits (S (Z.to_nat n)) n [].

(** [enumerate(l, start)]. *)
Fixpoint enumerate {A} (l : list A) (start : Z) : list (Z * A) :=
  match l with
  | [] => []
  | x :: l' => (start, x) :: enumerate l' (start + 1)
  end.

(** The lines that [select_artists] prints before it reads the answer. *)
Definition select_artists_menu (artists : list str) (allow_all : bool)
    : list str :=
  ["Select artists to convert their files (comma separated):" : str;
   "0. None" : str]
  ++ (if allow_all then ["all. All artists" : str] else [])
  ++ map (fun ia => widen (str_int (fst ia)) ++ ". " ++ snd ia)
         (enumerate artists 1).

(** ** The index as a function of the walk *)

(** The test of the indexer on the directory [root]. *)
Definition skipped (root : str) : bool :=
  Py.contains flac_converted_dir root || Py.contains m4a_converted_dir root.

(** The paths of the files of the walk whose name satisfies [keep], in the
    order of the walk, the skipped directories left out. *)
Definition walk_paths (keep : str -> bool)
    (walk : list (str * list str * list str)) : list str :=
  flat_map (fun entry =>
              if skipped (fst (fst entry)) then []
              else map (posixpath.join (fst (fst entry)))
                       (List.filter keep (snd entry)))
           walk.

Definition is_flac (file : str) : bool := Py.endswith ".flac" file.
Definition is_m4a (file : str) : bool :=
  negb (Py.endswith ".flac" file) && Py.endswith ".m4a" file.

(** The directories that the indexer reports while it walks. *)
Definition walk_progress (walk : list (str * list str * list str))
    : list Printed :=
  flat_map (fun entry =>
              if skipped (fst (fst entry)) then []
              else [IndexingDir (fst (fst entry))])
           walk.

(** Directory names hold no separator. *)
Definition plain_dir_names (walk : list (str * list str * list str)) : Prop :=
  forall root ds fs name,
    (root, ds, fs) ∈ walk -> name ∈ ds -> (("/"%char : char) ∉ name).

(** ** Paths below the media root *)

(** A path component that [normpath] keeps as it is: not empty, without a
    separator, and neither [.] nor [..]. *)
Definition plain_comp (c : str) : Prop :=
  c <> [] /\ (("/"%char : char) ∉ c) /\ c <> "." /\ c <> "..".

(** ** What a batch runs and moves *)

(** The command line of the transcoder for one file. *)
Definition ffmpeg_command (input_file output_file : str) : list str :=
  ["ffmpeg" : str; "-i" : str; input_file; "-b:a" : str; "320k" : str;
   output_file].

(** What a live turn leaves when the conversion of [file] succeeded: from the
    world [w] and the totals [t] to the world [w'] and the totals [t']. *)
Definition relocated (env : Env) (converted_dir file : str)
    (t : Totals) (w : World) (t' : Totals) (w' : World) : Prop :=
  exists n m rel,
    files w !! file = Some n /\
    posixpath.relpath (getcwd env) file music_dir = Ok rel /\
    spawned w'
    = spawned w ++ [(ffmpeg_command file (output_file_of file), 0)] /\
    moved w' = moved w ++ [(file, posixpath.join converted_dir rel)] /\
    main_log w' = main_log w ++ [Converted false file (output_file_of file)] /\
    errors_log w' = errors_log w /\ stdout w' = stdout w /\
    snapshot w' = snapshot w /\ dirs w ⊆ dirs w' /\
    files w' !! output_file_of file = Some m /\
    t' = mkTotals (total_original_size t + Z.of_N n)
                  (total_converted_size t + Z.of_N m) /\
    (posixpath.join converted_dir rel ∉ dirs w' ->
     (posixpath.join converted_dir rel <> file -> files w' !! file = None) /\
     (output_file_of file <> file ->
      files w' !! posixpath.join converted_dir rel = Some n) /\
     (forall p, p <> file -> p <> output_file_of file ->
                p <> posixpath.join converted_dir rel ->
                files w' !! p = files w !! p)).

(** The discipline of a batch over the files [listed], between the world [w]
    in which it starts and the world [w'] in which it stops: every process
    it started is the transcoder, run on a listed file that passes the two
    tests of the loop and on its output path; every file it moved is such a
    file, moved to the join of the converted directory and its path relative
    to the media root, after a run of the transcoder on it that exited with
    status zero. *)
Definition batch_discipline (env : Env) (listed convert_artists : list str)
    (converted_dir : str) (w w' : World) : Prop :=
  exists runs moves,
    spawned w' = spawned w ++ runs /\
    moved w' = moved w ++ moves /\
    Forall (fun run : list str * Z =>
              exists file,
                file ∈ listed /\ selected convert_artists file = true /\
                fst run = ffmpeg_command file (output_file_of file))
           runs /\
    Forall (fun mv : str * str =>
              exists rel,
                fst mv ∈ listed /\
                selected convert_artists (fst mv) = true /\
                posixpath.relpath (getcwd env) (fst mv) music_dir = Ok rel /\
                snd mv = posixpath.join converted_dir rel /\
                (ffmpeg_command (fst mv) (output_file_of (fst mv)), 0) ∈ runs)
           moves.

(** What a batch over the files [listed] keeps, between the world [w] in
    which it starts and the world [w'] in which it stops: the directories,
    the snapshot of the index, and every file that is not a listed file
    passing the two tests of the loop. *)
Definition batch_keeps (listed convert_artists : list str) (w w' : World)
    : Prop :=
  dirs w ⊆ dirs w' /\
  snapshot w' = snapshot w /\
  forall p, p ∉ listed \/ selected convert_artists p = false ->
            is_Some (files w !! p) -> is_Some (files w' !! p).

(** ** The program: [main] and what runs before it

    [main] reads standard input, and it prints and logs lines of its own
    between those of the functions it calls.  A run of it is a function of
    a [Session], the world and the lines still to be read, that returns its
    result, the session it leaves and the events it produced itself. *)

(** The exceptions that [main] can end with: those of the functions it
    calls, and two more. *)
Inductive main_exn : Type :=
  | Uncaught (e : exn)
  | AttributeError  (* [file.split] on an entry of the index that is no
                       string *)
  | EOFError.       (* [input] at the end of standard input *)

Inductive outcome (A : Type) : Type :=
  | Done (a : A)
  | Failed (e : main_exn).
Arguments Done {A} a.
Arguments Failed {A} e.

(** The lines that [main] logs, one constructor per format string; the
    artists are kept as a list, the log line joins them with [", "]. *)
Inductive MainLog : Type :=
  | FoundFiles (n_flac n_m4a : Z)
      (* "Found {n_flac} FLAC files and {n_m4a} M4A files." *)
  | ConvertingFlac (artists : list str)
      (* "Converting FLAC for artists: {', '.join(artists)}" *)
  | NoFlacSelected  (* "No artists selected for FLAC conversion." *)
  | ConvertingM4a (artists : list str)
      (* "Converting M4A for artists: {', '.join(artists)}" *)
  | NoM4aSelected.  (* "No artists selected for M4A conversion." *)

Inductive MainEvent : Type :=
  | Says (line : str)    (* [print(line)] *)
  | Asks (prompt : str)  (* the prompt that [input(prompt)] writes *)
  | Logs (m : MainLog).  (* [logging.info(...)] *)

(** An event with its place among the lines of the functions that [main]
    calls: the number of lines of [stdout] and of [main_log] written before
    it. *)
Record Placed : Type := mkPlaced {
  after_stdout : nat;
  after_main_log : nat;
  event : MainEvent
}.

Record Session : Type := mkSession {
  world : World;
  stdin : list line  (* the lines still to be read, without their newline *)
}.

Definition Run (A : Type) : Type :=
  Session -> outcome A * Session * list Placed.

Definition run_ret {A} (a : A) : Run A := fun s => (Done a, s, []).
Definition run_bind {A B} (m : Run A) (k : A -> Run B) : Run B :=
  fun s =>
    match m s with
    | (Done a, s', events) =>
        let '(r, s'', events') := k a s' in (r, s'', events ++ events')
    | (Failed e, s', events) => (Failed e, s', events)
    end.

Notation "'let!' x ':=' m 'in' k" := (run_bind m (fun x => k))
  (at level 10, x pattern, m at level 100, k at level 200).
Notation "m ';;;' k" := (run_bind m (fun _ => k))
  (at level 100, k at level 200, right associativity).

(** A computation on the world, run in the session. *)
Definition lift_m {A} (m : M A) : Run A :=
  fun s =>
    match m (world s) with
    | (Ok a, w') => (Done a, mkSession w' (stdin s), [])
    | (Raise e, w') => (Failed (Uncaught e), mkSession w' (stdin s), [])
    end.

Definition lift_res {A} (r : res A) : Run A :=
  fun s =>
    match r with
    | Ok a => (Done a, s, [])
    | Raise e => (Failed (Uncaught e), s, [])
    end.

Definition lift_outcome {A} (r : outcome A) : Run A := fun s => (r, s, []).

Definition place (s : Session) (e : MainEvent) : Placed :=
  mkPlaced (length (stdout (world s))) (length (main_log (world s))) e.

Definition emit (e : MainEvent) : Run unit :=
  fun s => (Done tt, s, [place s e]).

Definition emit_all (es : list MainEvent) : Run unit :=
  fun s => (Done tt, s, map (place s) es).

(** [input(prompt)]. *)
Definition input (prompt : str) : Run line :=
  fun s =>
    match stdin s with
    | [] => (Failed EOFError, s, [place s (Asks prompt)])
    | line :: rest =>
        (Done line, mkSession (world s) rest, [place s (Asks prompt)])
    end.

(** *** The values of the index, as [main] uses them *)

(** The keys of a [dict] built from pairs, each at its first place. *)
Fixpoint dict_keys (items : list (str * json.value)) : list str :=
  match items with
  | [] => []
  | (k, _) :: items' =>
      k :: filter (fun k' : str => k' <> k) (dict_keys items')
  end.

(** [len(v)]. *)
Definition py_len (v : json.value) : res Z :=
  match v with
  | json.PyList l => Ok (Py.len l)
  | json.PyStr s => Ok (Py.len s)
  | json.PyDict items => Ok (Py.len (dict_keys items))
  | _ => Raise TypeError
  end.

(** The values that [for file in v] goes through. *)
Definition py_iter (v : json.value) : res (list json.value) :=
  match v with
  | json.PyList l => Ok l
  | json.PyStr s => Ok (map (fun c => json.PyStr [c]) s)
  | json.PyDict items => Ok (map json.PyStr (dict_keys items))
  | _ => Raise TypeError
  end.

(** The strings among [items], as long as [file.split(os.sep)] finds each
    of them to be one. *)
Fixpoint strings_of (items : list json.value) : outcome (list str) :=
  match items with
  | [] => Done []
  | json.PyStr s :: items' =>
      match strings_of items' with
      | Done l => Done (s :: l)
      | Failed e => Failed e
      end
  | _ :: _ => Failed AttributeError
  end.

(** The files that [get_artists_with_files(v)] and [process_files(v, ...)]
    go through. *)
Definition file_names (v : json.value) : outcome (list str) :=
  match py_iter v with
  | Ok items => strings_of items
  | Raise e => Failed (Uncaught e)
  end.

(** *** [select_artists], with its menu and its prompt *)

Definition select_artists_io (artists : list str) (allow_all : bool)
    : Run (list str) :=
  emit_all (map Says (select_artists_menu artists allow_all)) ;;;
  let! choices := input "Enter numbers or 'all': " in
  lift_res (select_artists artists allow_all choices).

(** *** [main] *)

(** [index_music_files()], its two lists as Python values. *)
Definition fresh_index (tree : Dir) : Run (json.value * json.value) :=
  let! idx := lift_m (index_music_files tree) in
  run_ret (py_str_list (fst idx), py_str_list (snd idx)).

(** The first statement of [main]: the index, made anew or read. *)
Definition obtain_index (tree : Dir) : Run (json.value * json.value) :=
  fun s =>
    match snapshot (world s) with
    | Some _ =>
        (let! refresh_index :=
           input "Index file found. Refresh index? (y/n): " in
         if bool_decide (Py.lower (Py.strip refresh_index) = latin1 "y")
         then fresh_index tree
         else lift_m load_index) s
    | None => fresh_index tree s
    end.

(** [main(dry_run)], with the directory found at [music_dir]. *)
Definition main (env : Env) (tree : Dir) (dry_run : bool) : Run unit :=
  let! idx := obtain_index tree in
  let flac_files := fst idx in
  let m4a_files := snd idx in
  let! n_flac := lift_res (py_len flac_files) in
  let! n_m4a := lift_res (py_len m4a_files) in
  emit (Logs (FoundFiles n_flac n_m4a)) ;;;
  let! flac_names := lift_outcome (file_names flac_files) in
  let flac_artists := get_artists_with_files flac_names in
  let! m4a_names := lift_outcome (file_names m4a_files) in
  let m4a_artists := get_artists_with_files m4a_names in
  emit (Says "Artists with FLAC files:") ;;;
  let! convert_flac_artists := select_artists_io flac_artists false in
  (if bool_decide (convert_flac_artists <> []) then
     emit (Logs (ConvertingFlac convert_flac_artists)) ;;;
     lift_m (process_files env flac_names convert_flac_artists
                           flac_converted_dir dry_run)
   else emit (Logs NoFlacSelected)) ;;;
  emit (Says "Artists with M4A files:") ;;;
  let! convert_m4a_artists := select_artists_io m4a_artists true in
  if bool_decide (convert_m4a_artists <> []) then
    emit (Logs (ConvertingM4a convert_m4a_artists)) ;;;
    lift_m (process_files env m4a_names convert_m4a_artists
                          m4a_converted_dir dry_run)
  else emit (Logs NoM4aSelected).

(** The script run as a program: the two converted directories are made
    when the module is loaded, then [main] runs.  [dry_run] is the
    [--dry-run] flag of the command line. *)
Definition script (env : Env) (tree : Dir) (dry_run : bool) : Run unit :=
  lift_m (makedirs flac_converted_dir) ;;;
  lift_m (makedirs m4a_converted_dir) ;;;
  main env tree dry_run.

(** A run that leaves the relation [R] between the world in which it starts
    and the world in which it stops. *)
Definition run_preserves {A} (R : World -> World -> Prop) (m : Run A)
    : Prop :=
  forall s, R (world s) (world (snd (fst (m s)))).

(** [w'] has the files and the error log of [w], has run no process and
    moved no file. *)
Definition media_untouched (w w' : World) : Prop :=
  files w' = files w /\ spawned w' = spawned w /\ moved w' = moved w /\
  errors_log w' = errors_log w.

(** [w'] has the index file of [w]. *)
Definition same_snapshot (w w' : World) : Prop := snapshot w' = snapshot w.





(** * Properties *)

(** ** Strings *)

Lemma startswith_spec (p s : str) :
  Py.startswith p s = true <-> exists t, s = p ++ t.
Proof.
  revert s. induction p as [|a p IH]; intros s; simpl.
  - split; [intros _; by exists s | done].
  - destruct s as [|b s].
    + split; [done | intros [t Ht]; discriminate].
    + rewrite andb_true_iff, IH. split.
      * intros [Hab [t ->]]. apply N.eqb_eq in Hab as ->. by exists t.
      * intros [t Ht]. injection Ht as -> ->. split; [apply N.eqb_refl | by exists t].
Qed.

Lemma endswith_spec (p s : str) :
  Py.endswith p s = true <-> exists t, s = t ++ p.
Proof.
  unfold Py.endswith. rewrite startswith_spec. split.
  - intros [t Ht]. exists (rev t).
    rewrite <- (rev_involutive s), Ht, rev_app_distr, rev_involutive. done.
  - intros [t ->]. exists (rev t). by rewrite rev_app_distr.
Qed.

Lemma contains_spec (p s : str) :
  Py.contains p s = true <-> exists a b, s = a ++ p ++ b.
Proof.
  induction s as [|c s IH]; simpl.
  - rewrite orb_false_r, startswith_spec. split.
    + intros [t Ht]. by exists [], t.
    + intros [a [b Hab]]. destruct a; [by exists b | discriminate].
  - rewrite orb_true_iff, startswith_spec, IH. split.
    + intros [[t Ht] | [a [b ->]]].
      * by exists [], t.
      * by exists (c :: a), b.
    + intros [[|c' a] [b Hab]].
      * left. by exists b.
      * right. injection Hab as -> ->. by exists a, b.
Qed.

Lemma split_by_cons_inv {C} (is_sep : C -> bool) (s : list C) :
  exists w ws, Py.split_by is_sep s = w :: ws.
Proof.
  destruct s as [|c s]; simpl; [by eexists _, _ |].
  destruct (is_sep c); [by eexists _, _ |].
  destruct (Py.split_by is_sep s); by eexists _, _.
Qed.

Lemma split_by_no_sep {C} (is_sep : C -> bool) (s : list C) :
  (forall c, c ∈ s -> is_sep c = false) -> Py.split_by is_sep s = [s].
Proof.
  induction s as [|c s IH]; intros Hs; simpl; [done |].
  rewrite (Hs c) by left. rewrite IH; [done |].
  intros x Hx. apply Hs. by right.
Qed.

Lemma split_by_app {C} (is_sep : C -> bool) (a b : list C) (c : C) :
  is_sep c = true ->
  Py.split_by is_sep (a ++ c :: b)
  = Py.split_by is_sep a ++ Py.split_by is_sep b.
Proof.
  intros Hc. induction a as [|x a IH]; cbn [app Py.split_by].
  - by rewrite Hc.
  - destruct (is_sep x); [by rewrite IH |].
    rewrite IH. destruct (split_by_cons_inv is_sep a) as (w & ws & ->). done.
Qed.

Lemma split_cons_inv (sep : char) (s : str) :
  exists w ws, Py.split sep s = w :: ws.
Proof. apply split_by_cons_inv. Qed.

Lemma split_no_sep (sep : char) (s : str) :
  sep ∉ s -> Py.split sep s = [s].
Proof.
  intros Hs. apply split_by_no_sep. intros c Hc.
  apply N.eqb_neq. by intros ->.
Qed.

Lemma split_app (sep : char) (a b : str) :
  Py.split sep (a ++ sep :: b) = Py.split sep a ++ Py.split sep b.
Proof. apply split_by_app, N.eqb_refl. Qed.

Lemma split_line_no_sep (sep : ascii) (s : line) :
  sep ∉ s -> Py.split_line sep s = [s].
Proof.
  intros Hs. apply split_by_no_sep. intros c Hc.
  apply Ascii.eqb_neq. by intros ->.
Qed.

Lemma split_line_app (sep : ascii) (a b : line) :
  Py.split_line sep (a ++ sep :: b)
  = Py.split_line sep a ++ Py.split_line sep b.
Proof. apply split_by_app, Ascii.eqb_refl. Qed.

Lemma elem_of_rev {A} (x : A) (l : list A) : x ∈ rev l <-> x ∈ l.
Proof. rewrite !list_elem_of_In. symmetry. apply in_rev. Qed.

Lemma lstrip_elem (c : ascii) (s : line) :
  c ∈ s -> Py.isspace_char c = false -> c ∈ Py.lstrip s.
Proof.
  induction s as [|a s IH]; intros Hin Hc; simpl; [done |].
  destruct (Py.isspace_char a) eqn:Ha; [| done].
  apply IH; [| done].
  apply elem_of_cons in Hin as [-> | Hin]; [congruence | done].
Qed.

Lemma strip_elem (c : ascii) (s : line) :
  c ∈ s -> Py.isspace_char c = false -> c ∈ Py.strip s.
Proof.
  intros Hin Hc. unfold Py.strip, Py.rstrip.
  apply elem_of_rev, lstrip_elem; [| done].
  apply elem_of_rev, lstrip_elem; done.
Qed.

(** ** The artist extractor *)

Lemma add_artist_elem (artists : gset str) (file artist : str) :
  artist ∈ add_artist artists file <->
  artist ∈ artists \/
  ((6 <= length (Py.split "/" file))%nat /\
   Py.split "/" file !! 5%nat = Some artist).
Proof.
  unfold add_artist, Py.len.
  destruct (Z.ltb_spec 5 (Z.of_nat (length (Py.split "/" file)))) as [Hlen | Hlen].
  - destruct (Py.split "/" file !! 5%nat) as [a|] eqn:Ha.
    + rewrite elem_of_union, elem_of_singleton. split.
      * intros [-> | ?]; [right; split; [lia | done] | by left].
      * intros [? | [_ [= ->]]]; [by right | by left].
    + split; [by left | intros [? | [_ ?]]; done].
  - split; [by left | intros [? | [? _]]; [done | lia]].
Qed.

Lemma foldl_add_artist_elem (files : list str) (artists : gset str)
    (artist : str) :
  artist ∈ foldl add_artist artists files <->
  artist ∈ artists \/
  exists file, file ∈ files /\ (6 <= length (Py.split "/" file))%nat /\
               Py.split "/" file !! 5%nat = Some artist.
Proof.
  revert artists. induction files as [|f files IH]; intros artists; simpl.
  - split; [by left | intros [? | [? [H _]]]; [done | by apply elem_of_nil in H]].
  - rewrite IH, add_artist_elem. split.
    + intros [[? | [? ?]] | [file [? ?]]].
      * by left.
      * right. exists f. split; [left | done].
      * right. exists file. split; [by right | done].
    + intros [? | [file [Hin ?]]].
      * left. by left.
      * apply elem_of_cons in Hin as [-> | Hin].
        -- left. by right.
        -- right. by exists file.
Qed.

(** C7. The artist extractor returns a list without duplicates whose
    members are exactly the segments at index 5 of the paths that have six
    segments or more once split on the separator; a path with fewer than
    six segments contributes no identity. *)
Theorem get_artists_with_files_spec (files : list str) :
  NoDup (get_artists_with_files files) /\
  (forall artist : str,
     artist ∈ get_artists_with_files files <->
     exists file, file ∈ files /\
                  (6 <= length (Py.split "/" file))%nat /\
                  Py.split "/" file !! 5%nat = Some artist) /\
  (forall (artists : gset str) (file : str),
     (length (Py.split "/" file) < 6)%nat ->
     add_artist artists file = artists).
Proof.
  split; [unfold get_artists_with_files; apply NoDup_elements |]. split.
  - intros artist. unfold get_artists_with_files.
    rewrite elem_of_elements, foldl_add_artist_elem. split.
    + intros [H | H]; [by apply not_elem_of_empty in H | done].
    + intros H. by right.
  - intros artists file Hlen. unfold add_artist, Py.len.
    destruct (Z.ltb_spec 5 (Z.of_nat (length (Py.split "/" file)))); [lia | done].
Qed.

(** ** The selector *)

(** C1. On the menu of three artists, the input line [0,2,5] does not
    select the second artist: indexing the list with 4 raises
    [IndexError].  A token made of a superscript digit passes [isdigit] and
    makes [int] raise [ValueError]. *)
Theorem select_artists_out_of_range :
  select_artists three_artists false (latin1 "0,2,5") = Raise IndexError /\
  select_artists three_artists false (latin1 "2," ++ ["178"%char]) = Raise ValueError /\
  select_artists three_artists false (latin1 "0,2,x") = Ok ["B" : str].
Proof. repeat split; vm_compute; reflexivity. Qed.

Lemma lower_char_a_or_l (c : ascii) :
  Py.lower_char c = "a"%char \/ Py.lower_char c = "l"%char ->
  Py.isdigit_char c = false /\ Py.isspace_char c = false /\ c <> ","%char.
Proof.
  destruct c as [[] [] [] [] [] [] [] []]; vm_compute;
    intros [H | H]; try discriminate H; repeat split; discriminate.
Qed.

Lemma lower_all_chars (s : line) (c : ascii) :
  Py.lower s = latin1 "all" -> c ∈ s ->
  Py.lower_char c = "a"%char \/ Py.lower_char c = "l"%char.
Proof.
  unfold Py.lower. intros Hs Hc.
  assert (Hin : Py.lower_char c ∈ map Py.lower_char s)
    by (apply list_elem_of_fmap; by exists c).
  rewrite Hs in Hin. cbn in Hin.
  apply elem_of_cons in Hin as [-> | Hin]; [by left |].
  apply elem_of_cons in Hin as [-> | Hin]; [by right |].
  apply elem_of_cons in Hin as [-> | Hin]; [by right |].
  by apply elem_of_nil in Hin.
Qed.

Lemma all_token_not_numeric (choices : line) :
  Py.lower (Py.strip choices) = latin1 "all" ->
  Py.split_line "," choices = [choices] /\ Py.isdigit (Py.strip choices) = false.
Proof.
  intros Hall. split.
  - apply split_line_no_sep. intros Hin.
    assert (Hs : ","%char ∈ Py.strip choices) by (by apply strip_elem).
    destruct (lower_all_chars _ _ Hall Hs) as [H | H]; vm_compute in H; discriminate.
  - destruct (Py.strip choices) as [|c s] eqn:Hs; [done |].
    assert (Hc : c ∈ c :: s) by left.
    apply (lower_all_chars _ _ Hall), lower_char_a_or_l in Hc as [Hd _].
    simpl. by rewrite Hd.
Qed.

(** C8. When the trimmed, case-folded input line is [all], the selector
    with the shortcut enabled returns the list of artists as it is; with
    the shortcut disabled the same line selects nothing. *)
Theorem select_artists_all (artists : list str) (choices : line) :
  Py.lower (Py.strip choices) = latin1 "all" ->
  select_artists artists true choices = Ok artists /\
  select_artists artists false choices = Ok [].
Proof.
  intros Hall. unfold select_artists. split.
  - rewrite bool_decide_eq_true_2; done.
  - simpl. unfold selected_indices.
    destruct (all_token_not_numeric _ Hall) as [-> Hd].
    cbn. rewrite decide_False; [done |]. by rewrite Hd.
Qed.

Lemma select_artists_all_witness :
  select_artists three_artists true (latin1 "  ALL ") = Ok three_artists /\
  select_artists three_artists false (latin1 "  ALL ") = Ok [].
Proof. apply (select_artists_all three_artists (latin1 "  ALL ")). reflexivity. Defined.

(** ** The indexer *)

Lemma join_cases (a b : str) :
  posixpath.join a b = b \/ posixpath.join a b = a ++ b \/
  posixpath.join a b = a ++ "/" ++ b.
Proof.
  unfold posixpath.join.
  destruct (Py.startswith "/" b); [by left |].
  destruct (bool_decide (a = []) || Py.endswith "/" a); auto.
Qed.

Lemma join_plain_cases (a b : str) :
  ("/"%char : char) ∉ b ->
  posixpath.join a b = a ++ b \/ posixpath.join a b = a ++ "/" ++ b.
Proof.
  intros Hb. unfold posixpath.join.
  destruct (Py.startswith "/" b) eqn:Hs.
  - apply startswith_spec in Hs as [t ->]. exfalso. apply Hb. left.
  - destruct (bool_decide (a = []) || Py.endswith "/" a); auto.
Qed.

Lemma join_endswith (ext a b : str) :
  Py.endswith ext b = true -> Py.endswith ext (posixpath.join a b) = true.
Proof.
  rewrite !endswith_spec. intros [t ->].
  destruct (join_cases a (t ++ ext)) as [-> | [-> | ->]].
  - by exists t.
  - exists (a ++ t). by rewrite <- app_assoc.
  - exists (a ++ "/" ++ t). by rewrite <- !app_assoc.
Qed.

Lemma startswith_false (p s : str) :
  (forall t, s <> p ++ t) -> Py.startswith p s = false.
Proof.
  intros H. destruct (Py.startswith p s) eqn:Hs; [| done].
  apply startswith_spec in Hs as [t ->]. by destruct (H t).
Qed.

Lemma contains_prefix (p t : str) : Py.contains p (p ++ t) = true.
Proof. apply contains_spec. by exists [], t. Qed.

(** A file of a directory that does not contain [conv] in its path does not
    lie beneath [conv]. *)
Lemma join_not_beneath (conv root file : str) :
  ("/"%char : char) ∉ file ->
  Py.contains conv root = false ->
  Py.startswith (conv ++ "/") (posixpath.join root file) = false.
Proof.
  intros Hfile Hroot. apply startswith_false. intros t Heq.
  assert (Hmid : exists m : str, (m = [] \/ m = [("/"%char : char)]) /\
                          root ++ m ++ file = conv ++ ("/"%char : char) :: t).
  { rewrite <- app_assoc in Heq.
    destruct (join_plain_cases root file Hfile) as [E | E]; rewrite E in Heq.
    - exists []. split; [by left | done].
    - exists [("/"%char : char)]. split; [by right | done]. }
  destruct Hmid as [m [Hm Heq']].
  apply app_eq_inv in Heq' as [[k [-> Hk]] | [k [-> Hk]]].
  - by rewrite contains_prefix in Hroot.
  - destruct k as [|c k].
    + pose proof (contains_prefix root []) as H.
      rewrite app_nil_r in H, Hroot. congruence.
    + apply Hfile. destruct Hm as [-> | ->]; simpl in Hk.
      * rewrite Hk. right. apply elem_of_app. right. left.
      * injection Hk as Hc Hk. subst c. rewrite Hk. apply elem_of_app. right. left.
Qed.

Section Indexer.

Variable walk : list (str * list str * list str).
Hypothesis Hplain : plain_names walk.

Lemma indexed_from_join (ext root : str) (ds fs : list str) (file : str) :
  (root, ds, fs) ∈ walk -> file ∈ fs ->
  Py.contains flac_converted_dir root = false ->
  Py.contains m4a_converted_dir root = false ->
  Py.endswith ext file = true ->
  indexed_from walk ext (posixpath.join root file).
Proof.
  intros Hroot Hfile Hflac Hm4a Hext.
  assert (Hsep : ("/"%char : char) ∉ file) by (by eapply Hplain).
  split; [by apply join_endswith |].
  split; [by apply join_not_beneath |].
  split; [by apply join_not_beneath |].
  by exists root, ds, fs, file.
Qed.

Lemma index_file_name_inv (root : str) (ds fs : list str) (file : str)
    (acc : Index) :
  (root, ds, fs) ∈ walk -> file ∈ fs ->
  Py.contains flac_converted_dir root = false ->
  Py.contains m4a_converted_dir root = false ->
  index_inv walk acc -> index_inv walk (index_file_name root acc file).
Proof.
  intros Hroot Hfile Hflac Hm4a [Hf Hm]. destruct acc as [flac m4a].
  unfold index_file_name.
  destruct (Py.endswith ".flac" file) eqn:E1;
    [| destruct (Py.endswith ".m4a" file) eqn:E2]; split; simpl in *;
    try done; intros p Hp;
    apply elem_of_app in Hp as [Hp | Hp]; auto;
    apply list_elem_of_singleton in Hp as ->;
    by eapply indexed_from_join.
Qed.

Lemma foldl_index_file_name_inv (root : str) (ds fs : list str)
    (names : list str) (acc : Index) :
  (root, ds, fs) ∈ walk -> (forall f, f ∈ names -> f ∈ fs) ->
  Py.contains flac_converted_dir root = false ->
  Py.contains m4a_converted_dir root = false ->
  index_inv walk acc -> index_inv walk (foldl (index_file_name root) acc names).
Proof.
  intros Hroot Hsub Hflac Hm4a. revert acc.
  induction names as [|f names IH]; intros acc Hacc; simpl; [done |].
  apply IH.
  - intros g Hg. apply Hsub. by right.
  - eapply index_file_name_inv; eauto. apply Hsub. left.
Qed.

(** The walk ends normally, and every indexed path comes from a directory
    that was not skipped. *)
Lemma for_each_index_dir_inv (entries : list (str * list str * list str))
    (acc : Index) (w : World) :
  (forall e, e ∈ entries -> e ∈ walk) ->
  index_inv walk acc ->
  exists idx w', for_each entries index_dir acc w = (Ok idx, w') /\
                 index_inv walk idx /\ snapshot w' = snapshot w.
Proof.
  revert acc w. induction entries as [|[[root ds] fs] entries IH];
    intros acc w Hsub Hacc; simpl.
  - by exists acc, w.
  - assert (Hroot : (root, ds, fs) ∈ walk) by (apply Hsub; left).
    assert (Hsub' : forall e, e ∈ entries -> e ∈ walk)
      by (intros e He; apply Hsub; by right).
    unfold bind at 1. unfold index_dir.
    destruct (Py.contains flac_converted_dir root) eqn:Hflac; simpl.
    + by apply IH.
    + destruct (Py.contains m4a_converted_dir root) eqn:Hm4a; simpl.
      * by apply IH.
      * destruct (IH (foldl (index_file_name root) acc fs)
                     (add_stdout (IndexingDir root) w) Hsub')
          as [idx [w' [Hrun [Hidx Hsnap]]]].
        { by eapply foldl_index_file_name_inv. }
        exists idx, w'. done.
Qed.

End Indexer.

(** C2, as amended.  For every directory tree whose file names hold no
    separator, the indexer returns two lists; every path of the first ends
    with [.flac], every path of the second with [.m4a]; every path joins a
    walked directory and one of its file names, the directory containing
    neither converted-directory path as a substring, so that the path lies
    beneath neither converted directory. *)
Theorem index_music_files_paths (tree : Dir) (w : World) :
  plain_names (os_walk music_dir tree) ->
  exists flac_files m4a_files,
    fst (index_music_files tree w) = Ok (flac_files, m4a_files) /\
    (forall p, p ∈ flac_files ->
       indexed_from (os_walk music_dir tree) ".flac" p) /\
    (forall p, p ∈ m4a_files ->
       indexed_from (os_walk music_dir tree) ".m4a" p).
Proof.
  intros Hplain. unfold index_music_files, bind, print, modify, save_index, ret.
  destruct (for_each_index_dir_inv (os_walk music_dir tree) Hplain
              (os_walk music_dir tree) ([], []) (add_stdout IndexingStart w))
    as [[flac m4a] [w' [Hrun [[Hf Hm] _]]]]; [done | |].
  { split; intros p Hp; by apply elem_of_nil in Hp. }
  exists flac, m4a. rewrite Hrun. done.
Qed.

Lemma plain_names_lookalike :
  plain_names (os_walk music_dir tree_with_lookalike).
Proof.
  intros root ds fs file Hwalk Hfile.
  vm_compute in Hwalk.
  repeat (apply elem_of_cons in Hwalk as [Hwalk | Hwalk];
          [injection Hwalk as -> -> ->;
           repeat (apply elem_of_cons in Hfile as [-> | Hfile];
                   [apply (bool_decide_unpack _); vm_compute; exact I |]);
           by apply elem_of_nil in Hfile |]).
  by apply elem_of_nil in Hwalk.
Qed.

Lemma index_music_files_paths_witness :
  exists flac_files m4a_files,
    fst (index_music_files tree_with_lookalike empty_world)
    = Ok (flac_files, m4a_files) /\
    (forall p, p ∈ flac_files ->
       indexed_from (os_walk music_dir tree_with_lookalike) ".flac" p) /\
    (forall p, p ∈ m4a_files ->
       indexed_from (os_walk music_dir tree_with_lookalike) ".m4a" p).
Proof.
  apply (index_music_files_paths tree_with_lookalike empty_world).
  exact plain_names_lookalike.
Defined.

(** C2, as the specification words it, fails on a music directory that
    holds the file [FLAC_CONVERTED.flac] at its top: that file is indexed
    and its path begins with the path of the converted directory. *)
Lemma indexer_prefix_free_counterexample :
  ~ indexer_prefix_free tree_with_lookalike.
Proof.
  intros H.
  destruct (H empty_world _ _ eq_refl) as [Hflac _].
  destruct (Hflac "/Volumes/Media/Music/FLAC_CONVERTED.flac") as [_ [Hp _]].
  - left.
  - vm_compute in Hp. discriminate.
Qed.

(** The skip is decided by substring: a directory whose path contains the
    path of the converted directory without beginning with it is skipped
    too, and its files are not indexed. *)
Lemma index_skips_by_substring :
  let root : str :=
    "/Volumes/Media/Music/Lib/Volumes/Media/Music/FLAC_CONVERTED" in
  (root, [], ["s.flac" : str]) ∈ os_walk music_dir tree_with_nested_path /\
  Py.startswith flac_converted_dir root = false /\
  Py.contains flac_converted_dir root = true /\
  fst (index_music_files tree_with_nested_path empty_world) = Ok ([], []).
Proof.
  cbv zeta. split; [| repeat split; vm_compute; reflexivity].
  apply (bool_decide_unpack _). vm_compute. exact I.
Qed.

(** ** The index store *)

(** *** Arithmetic of the escapes *)

Lemma ord_of_Z (n : Z) : 0 <= n -> Py.ord (Z.to_N n) = n.
Proof. intros H. unfold Py.ord. by rewrite Z2N.id. Qed.

Lemma hex_value_hex_digit (d : Z) :
  0 <= d < 16 -> json.hex_value (json.hex_digit d) = Some d.
Proof.
  intros Hd. unfold json.hex_value, json.hex_digit.
  destruct (Z.ltb_spec d 10); rewrite ord_of_Z by lia.
  - rewrite (proj2 (Z.leb_le _ _)), (proj2 (Z.leb_le _ _)) by lia.
    cbn [andb]. f_equal. lia.
  - rewrite (proj2 (Z.leb_le 48 _)), (proj2 (Z.leb_gt _ 57)) by lia.
    rewrite (proj2 (Z.leb_le 97 _)), (proj2 (Z.leb_le _ 102)) by lia.
    cbn [andb]. f_equal. lia.
Qed.

Lemma hex4_u_escape (n : Z) :
  0 <= n < 65536 ->
  json.hex4 (json.hex_digit (n / 4096)) (json.hex_digit (n / 256 mod 16))
            (json.hex_digit (n / 16 mod 16)) (json.hex_digit (n mod 16))
  = Some n.
Proof.
  intros Hn. unfold json.hex4.
  rewrite !hex_value_hex_digit by (Z.to_euclidean_division_equations; lia).
  f_equal. Z.to_euclidean_division_equations. lia.
Qed.

Lemma lor_shiftl_small (a b n : Z) :
  0 <= n -> 0 <= b < 2 ^ n -> Z.lor (Z.shiftl a n) b = Z.shiftl a n + b.
Proof.
  intros Hn Hb.
  assert (Hland : Z.land (Z.shiftl a n) b = 0).
  { apply Z.bits_inj'. intros i Hi. rewrite Z.land_spec, Z.bits_0.
    destruct (Z.lt_ge_cases i n).
    - by rewrite Z.shiftl_spec_low.
    - rewrite <- (Z.mod_small b (2 ^ n)) by lia.
      rewrite Z.mod_pow2_bits_high by lia. apply andb_false_r. }
  rewrite <- Z.lxor_lor by done. symmetry. by apply Z.add_nocarry_lxor.
Qed.

(** The two surrogates that the encoder writes for a character above the
    basic plane. *)
Lemma high_surrogate_of (v : Z) :
  0 <= v < 1048576 ->
  Z.lor 55296 (Z.land (Z.shiftr v 10) 1023) = 55296 + v / 1024.
Proof.
  intros Hv. change 1023 with (Z.ones 10).
  rewrite Z.land_ones, Z.shiftr_div_pow2 by lia.
  change (2 ^ 10) with 1024. change 55296 with (Z.shiftl 54 10).
  rewrite lor_shiftl_small; [| lia |].
  - rewrite Z.mod_small; [done |]. Z.to_euclidean_division_equations. lia.
  - change (2 ^ 10) with 1024. Z.to_euclidean_division_equations. lia.
Qed.

Lemma low_surrogate_of (v : Z) :
  0 <= v -> Z.lor 56320 (Z.land v 1023) = 56320 + v mod 1024.
Proof.
  intros Hv. change 1023 with (Z.ones 10). rewrite Z.land_ones by lia.
  change (2 ^ 10) with 1024. change 56320 with (Z.shiftl 55 10).
  rewrite lor_shiftl_small; [done | lia |].
  change (2 ^ 10) with 1024. Z.to_euclidean_division_equations. lia.
Qed.

Lemma join_surrogates_of (v : Z) :
  0 <= v < 1048576 ->
  json.join_surrogates (55296 + v / 1024) (56320 + v mod 1024)
  = Z.to_N (65536 + v).
Proof.
  intros Hv. unfold json.join_surrogates. f_equal. f_equal.
  replace (55296 + v / 1024 - 55296) with (v / 1024) by lia.
  replace (56320 + v mod 1024 - 56320) with (v mod 1024) by lia.
  rewrite lor_shiftl_small; [| lia |].
  - rewrite Z.shiftl_mul_pow2 by lia. change (2 ^ 10) with 1024.
    Z.to_euclidean_division_equations. lia.
  - change (2 ^ 10) with 1024. Z.to_euclidean_division_equations. lia.
Qed.

(** *** The string literals *)

(** Decides the comparisons of two known characters. *)
Ltac eqb_lit :=
  repeat match goal with
         | |- context [N.eqb ?a ?b] =>
             let v := eval vm_compute in (N.eqb a b) in
             match v with
             | true => change (N.eqb a b) with true
             | false => change (N.eqb a b) with false
             end; cbv iota
         end.

Lemma scanstring_u_escape (n : Z) (t : str) :
  0 <= n < 65536 ->
  (json.is_high_surrogate n = true -> pair_follows t = false) ->
  json.scanstring (json.u_escape n ++ t)
  = json.cons_result (Z.to_N n) (json.scanstring t).
Proof.
  intros Hn Hpair. unfold json.u_escape. cbn [app].
  cbn [json.scanstring]. change (N.eqb json.backslash json.dquote) with false.
  change (N.eqb json.backslash json.backslash) with true.
  change (N.eqb "u"%char "u"%char) with true. cbv iota.
  rewrite hex4_u_escape by done.
  destruct (json.is_high_surrogate n); [| done].
  specialize (Hpair eq_refl).
  destruct t as [|b [|u t2]]; [done | done |].
  cbn [pair_follows] in Hpair.
  destruct (N.eqb b json.backslash); [| done].
  destruct (N.eqb u "u"%char); [| done]. cbn [andb] in Hpair.
  destruct t2 as [|k1 [|k2 [|k3 [|k4 r4]]]]; try discriminate Hpair.
  destruct (json.hex4 k1 k2 k3 k4); [| discriminate Hpair].
  by rewrite Hpair.
Qed.

Lemma scanstring_pair (v : Z) (t : str) :
  0 <= v < 1048576 ->
  json.scanstring
    (json.u_escape (55296 + v / 1024) ++ json.u_escape (56320 + v mod 1024) ++ t)
  = json.cons_result (Z.to_N (65536 + v)) (json.scanstring t).
Proof.
  intros Hv.
  assert (Hhi : 55296 <= 55296 + v / 1024 <= 56319)
    by (Z.to_euclidean_division_equations; lia).
  assert (Hlo : 56320 <= 56320 + v mod 1024 <= 57343)
    by (Z.to_euclidean_division_equations; lia).
  unfold json.u_escape. cbn [app].
  cbn [json.scanstring]. change (N.eqb json.backslash json.dquote) with false.
  change (N.eqb json.backslash json.backslash) with true.
  change (N.eqb "u"%char "u"%char) with true. cbv iota. cbn [andb].
  rewrite !hex4_u_escape by lia.
  unfold json.is_high_surrogate, json.is_low_surrogate.
  rewrite !(proj2 (Z.leb_le _ _)) by lia. cbn [andb].
  by rewrite join_surrogates_of.
Qed.

Lemma escape_char_cases (c : char) :
  is_code_point c = true ->
  (exists e : char, json.escape_char c = [json.backslash; e] /\
                    N.eqb e "u"%char = false /\ json.unescape e = Some c) \/
  (json.escape_char c = [c] /\ N.eqb c json.dquote = false /\
   N.eqb c json.backslash = false /\ (Py.ord c <? 32) = false) \/
  (json.escape_char c = json.u_escape (Py.ord c) /\ 0 <= Py.ord c < 65536) \/
  (exists v, 0 <= v < 1048576 /\ c = Z.to_N (65536 + v) /\
             json.escape_char c
             = json.u_escape (55296 + v / 1024)
               ++ json.u_escape (56320 + v mod 1024)).
Proof.
  unfold is_code_point, json.escape_char. intros Hc.
  apply Z.leb_le in Hc.
  assert (H0 : 0 <= Py.ord c) by apply N2Z.is_nonneg.
  assert (Hof : forall n : N, Py.ord c = Z.of_N n -> c = n)
    by (intros n; apply N2Z.inj).
  repeat (match goal with
          | |- context [Py.ord c =? ?k] =>
              destruct (Z.eqb_spec (Py.ord c) k) as [E | ?];
              [left; apply (Hof (Z.to_N k)) in E; subst c;
               eexists; repeat split; reflexivity |]
          end).
  destruct ((32 <=? Py.ord c) && (Py.ord c <=? 126)) eqn:Hraw.
  { right. left. apply andb_true_iff in Hraw as [H1 H2].
    apply Z.leb_le in H1, H2.
    repeat split; [apply N.eqb_neq | apply N.eqb_neq | apply Z.ltb_ge; lia];
      intros ->; by vm_compute in *. }
  destruct (Z.ltb_spec (Py.ord c) 65536).
  { right. right. left. split; [done | lia]. }
  right. right. right. exists (Py.ord c - 65536).
  split; [lia |]. split.
  - replace (65536 + (Py.ord c - 65536)) with (Py.ord c) by lia.
    unfold Py.ord. by rewrite N2Z.id.
  - cbv zeta. by rewrite high_surrogate_of, low_surrogate_of by lia.
Qed.

Lemma scanstring_escape_char (c : char) (t : str) :
  is_code_point c = true ->
  (json.is_high_surrogate (Py.ord c) = true -> pair_follows t = false) ->
  json.scanstring (json.escape_char c ++ t)
  = json.cons_result c (json.scanstring t).
Proof.
  intros Hc Hpair.
  destruct (escape_char_cases c Hc)
    as [[e [-> [He Hu]]] | [[-> [Hq [Hb Hctl]]] | [[-> Hn] | [v [Hv [-> ->]]]]]].
  - cbn [app json.scanstring].
    change (N.eqb json.backslash json.dquote) with false.
    change (N.eqb json.backslash json.backslash) with true.
    cbv iota.
    match goal with
    | |- (if ?b then _ else _) = _ =>
        replace b with false by (symmetry; exact He)
    end.
    by rewrite Hu.
  - cbn [app json.scanstring]. by rewrite Hq, Hb, Hctl.
  - rewrite scanstring_u_escape by done. unfold Py.ord. by rewrite N2Z.id.
  - rewrite <- app_assoc. by apply scanstring_pair.
Qed.

Lemma pair_follows_encoded (s rest : str) :
  forallb is_code_point s = true -> low_first s = false ->
  pair_follows (flat_map json.escape_char s ++ json.dquote :: rest) = false.
Proof.
  destruct s as [|c s]; [done |]. cbn [forallb flat_map low_first].
  intros Hc Hlow. apply andb_true_iff in Hc as [Hc _].
  destruct (escape_char_cases c Hc)
    as [[e [-> [He Hu]]] | [[-> [Hq [Hb Hctl]]] | [[-> Hn] | [v [Hv [-> ->]]]]]].
  - cbn [app pair_follows].
    match goal with
    | |- _ && (?b && _) = false => replace b with false by (symmetry; exact He)
    end.
    apply andb_false_r.
  - cbn [app pair_follows]. by rewrite Hb.
  - unfold json.u_escape. cbn [app pair_follows].
    rewrite hex4_u_escape by done. by rewrite Hlow.
  - unfold json.u_escape. cbn [app pair_follows].
    rewrite hex4_u_escape by (Z.to_euclidean_division_equations; lia).
    unfold json.is_low_surrogate.
    rewrite (proj2 (Z.leb_gt _ _)); [done |].
    Z.to_euclidean_division_equations; lia.
Qed.

Lemma scanstring_encoded (s rest : str) :
  kept_by_json s = true ->
  json.scanstring (flat_map json.escape_char s ++ json.dquote :: rest)
  = Ok (s, rest).
Proof.
  unfold kept_by_json. intros H. apply andb_true_iff in H as [Hc Hp].
  induction s as [|c s IH]; [reflexivity |].
  cbn [forallb no_surrogate_pair] in Hc, Hp.
  apply andb_true_iff in Hc as [Hc Hcs]. apply andb_true_iff in Hp as [Hp Hps].
  cbn [flat_map]. rewrite <- app_assoc, scanstring_escape_char, IH; try done.
  intros Hhigh. rewrite Hhigh in Hp. cbn [andb] in Hp.
  apply pair_follows_encoded; [done |]. by destruct (low_first s).
Qed.

Lemma scan_once_encoded_string (fuel : nat) (s rest : str) :
  kept_by_json s = true ->
  json.scan_once (S fuel) (json.encode_string s ++ rest)
  = Ok (json.PyStr s, rest).
Proof.
  intros Hs. unfold json.encode_string. cbn [app json.scan_once].
  rewrite N.eqb_refl, <- app_assoc. cbn [app].
  by rewrite scanstring_encoded.
Qed.

Lemma sep_concat_encoded_head (x : str) (l : list str) :
  exists t, json.sep_concat ", " (map json.encode_string (x :: l))
            = json.dquote :: t.
Proof. destruct l; cbn; eauto. Qed.

Lemma parse_elements_eq (fuel : nat) (s : str) :
  json.parse_elements (S fuel) s
  = res_bind (json.scan_once fuel s) (fun vr =>
      match json.skip_ws (snd vr) with
      | [] => Raise JSONDecodeError
      | c :: r =>
          if N.eqb c "]"%char then Ok ([fst vr], r)
          else if N.eqb c ","%char then
            res_bind (json.parse_elements fuel (json.skip_ws r))
                     (fun er => Ok (fst vr :: fst er, snd er))
          else Raise JSONDecodeError
      end).
Proof. reflexivity. Qed.

Lemma skip_ws_encoded (x : str) (l : list str) (t : str) :
  json.skip_ws (json.sep_concat ", " (map json.encode_string (x :: l)) ++ t)
  = json.sep_concat ", " (map json.encode_string (x :: l)) ++ t.
Proof. destruct (sep_concat_encoded_head x l) as [u ->]. reflexivity. Qed.

Lemma parse_elements_strings (l : list str) (x : str) (rest : str)
    (fuel : nat) :
  forallb kept_by_json (x :: l) = true ->
  (length l < fuel)%nat ->
  json.parse_elements (S fuel)
    (json.sep_concat ", " (map json.encode_string (x :: l)) ++ "]" ++ rest)
  = Ok (map json.PyStr (x :: l), rest).
Proof.
  revert x fuel. induction l as [|y l IH]; intros x fuel Hkept Hfuel;
    (destruct fuel as [|fuel]; [simpl in Hfuel; lia |]);
    rewrite parse_elements_eq;
    cbn [forallb] in Hkept; apply andb_true_iff in Hkept as [Hx Hkept].
  - cbn [map json.sep_concat].
    rewrite scan_once_encoded_string by done. reflexivity.
  - change (json.sep_concat ", " (map json.encode_string (x :: y :: l)))
      with (json.encode_string x ++ ", "
            ++ json.sep_concat ", " (map json.encode_string (y :: l))).
    rewrite <- app_assoc, scan_once_encoded_string by done.
    cbn [res_bind snd fst].
    change (json.skip_ws
              ((", " ++ json.sep_concat ", " (map json.encode_string (y :: l)))
               ++ "]" ++ rest))
      with ((","%char : char) :: (" "%char : char) ::
            json.sep_concat ", " (map json.encode_string (y :: l))
            ++ "]" ++ rest).
    cbv beta iota.
    change (N.eqb ","%char "]"%char) with false. change (N.eqb ","%char ","%char) with true.
    cbv beta iota.
    change (json.skip_ws
              ((" "%char : char) ::
               json.sep_concat ", " (map json.encode_string (y :: l))
               ++ "]" ++ rest))
      with (json.skip_ws
              (json.sep_concat ", " (map json.encode_string (y :: l))
               ++ "]" ++ rest)).
    rewrite skip_ws_encoded, IH; [reflexivity | done | simpl in Hfuel; lia].
Qed.

Lemma scan_once_array (fuel : nat) (c2 : char) (r2 : str) :
  json.is_ws c2 = false -> N.eqb c2 "]"%char = false ->
  json.scan_once (S fuel) (("["%char : char) :: c2 :: r2)
  = res_bind (json.parse_elements fuel (c2 :: r2))
             (fun er => Ok (json.PyList (fst er), snd er)).
Proof.
  intros Hws Hc. cbn [json.scan_once json.skip_ws]. eqb_lit.
  rewrite Hws, Hc. reflexivity.
Qed.

Lemma scan_once_object (fuel : nat) (r2 : str) :
  json.scan_once (S fuel) (("{"%char : char) :: json.dquote :: r2)
  = res_bind (json.parse_members fuel r2)
             (fun mr => Ok (json.PyDict (fst mr), snd mr)).
Proof. reflexivity. Qed.

Lemma parse_members_eq (fuel : nat) (s : str) :
  json.parse_members (S fuel) s
  = res_bind (json.scanstring s) (fun kr =>
      match json.skip_ws (snd kr) with
      | [] => Raise JSONDecodeError
      | c :: r =>
          if N.eqb c ":"%char then
            res_bind (json.scan_once fuel (json.skip_ws r)) (fun vr =>
              match json.skip_ws (snd vr) with
              | [] => Raise JSONDecodeError
              | c2 :: r2 =>
                  if N.eqb c2 "}"%char then Ok ([(fst kr, fst vr)], r2)
                  else if N.eqb c2 ","%char then
                    match json.skip_ws r2 with
                    | [] => Raise JSONDecodeError
                    | c3 :: r3 =>
                        if N.eqb c3 json.dquote then
                          res_bind (json.parse_members fuel r3) (fun mr =>
                            Ok ((fst kr, fst vr) :: fst mr, snd mr))
                        else Raise JSONDecodeError
                    end
                  else Raise JSONDecodeError
              end)
          else Raise JSONDecodeError
      end).
Proof. reflexivity. Qed.

Lemma dumps_str_list (l : list str) :
  json.dumps (py_str_list l)
  = "[" ++ json.sep_concat ", " (map json.encode_string l) ++ "]".
Proof.
  unfold py_str_list. cbn [json.dumps]. rewrite map_map. reflexivity.
Qed.

Lemma scan_once_str_list (l : list str) (rest : str) (fuel : nat) :
  forallb kept_by_json l = true ->
  (length l < fuel)%nat ->
  json.scan_once (S fuel) (json.dumps (py_str_list l) ++ rest)
  = Ok (py_str_list l, rest).
Proof.
  intros Hkept Hfuel. rewrite dumps_str_list. destruct l as [|x l].
  - reflexivity.
  - destruct fuel as [|fuel]; [simpl in Hfuel; lia |].
    destruct (sep_concat_encoded_head x l) as [u Hu].
    change (("[" ++ json.sep_concat ", " (map json.encode_string (x :: l)) ++ "]")
            ++ rest)
      with (("["%char : char) ::
            (json.sep_concat ", " (map json.encode_string (x :: l)) ++ "]")
            ++ rest).
    rewrite <- app_assoc.
    pose proof (parse_elements_strings l x rest fuel Hkept) as Hp.
    rewrite Hu in *. cbn [app]. rewrite scan_once_array by reflexivity.
    cbn [app] in Hp. rewrite Hp by (simpl in Hfuel; lia). reflexivity.
Qed.

Lemma dumps_index_dict (flac m4a : list str) (rest : str) :
  json.dumps (index_dict flac m4a) ++ rest
  = ("{"%char : char) :: json.encode_string "flac" ++ ": "
    ++ json.dumps (py_str_list flac)
    ++ ", " ++ json.encode_string "m4a" ++ ": "
    ++ json.dumps (py_str_list m4a) ++ "}" ++ rest.
Proof.
  unfold index_dict.
  cbn [json.dumps map json.sep_concat fst snd].
  rewrite <- !app_assoc. reflexivity.
Qed.

Lemma skip_ws_dumps_str_list (l : list str) (t : str) :
  json.skip_ws (json.dumps (py_str_list l) ++ t)
  = json.dumps (py_str_list l) ++ t.
Proof. rewrite dumps_str_list. reflexivity. Qed.

Lemma skip_ws_other (c : char) (t : str) :
  json.is_ws c = false -> json.skip_ws (c :: t) = c :: t.
Proof. intros H. cbn [json.skip_ws]. by rewrite H. Qed.

Lemma scan_once_index_dict (flac m4a : list str) (rest : str) (fuel : nat) :
  forallb kept_by_json flac = true -> forallb kept_by_json m4a = true ->
  (length flac < fuel)%nat -> (length m4a < fuel)%nat ->
  json.scan_once (S (S (S (S fuel)))) (json.dumps (index_dict flac m4a) ++ rest)
  = Ok (index_dict flac m4a, rest).
Proof.
  intros Kflac Km4a Hflac Hm4a. rewrite dumps_index_dict.
  unfold json.encode_string at 1. cbn [app]. rewrite <- app_assoc. cbn [app].
  rewrite scan_once_object, parse_members_eq.
  rewrite scanstring_encoded by reflexivity.
  cbn [res_bind fst snd].
  change ((": " : str) ++ ?t) with ((":"%char : char) :: (" "%char : char) :: t).
  rewrite skip_ws_other by reflexivity. eqb_lit.
  change (json.skip_ws ((" "%char : char) :: ?t)) with (json.skip_ws t).
  rewrite skip_ws_dumps_str_list, scan_once_str_list by (done || lia).
  cbn [res_bind fst snd].
  change ((", " : str) ++ ?t) with ((","%char : char) :: (" "%char : char) :: t).
  rewrite skip_ws_other by reflexivity. eqb_lit.
  change (json.skip_ws ((" "%char : char) :: ?t)) with (json.skip_ws t).
  unfold json.encode_string. cbn [app]. rewrite <- app_assoc. cbn [app].
  rewrite skip_ws_other by reflexivity. eqb_lit.
  rewrite parse_members_eq, scanstring_encoded by reflexivity.
  cbn [res_bind fst snd].
  change ((": " : str) ++ ?t) with ((":"%char : char) :: (" "%char : char) :: t).
  rewrite skip_ws_other by reflexivity. eqb_lit.
  change (json.skip_ws ((" "%char : char) :: ?t)) with (json.skip_ws t).
  rewrite skip_ws_dumps_str_list, scan_once_str_list by (done || lia).
  cbn [res_bind fst snd].
  change (("}" : str) ++ rest) with (("}"%char : char) :: rest).
  rewrite skip_ws_other by reflexivity. eqb_lit.
  reflexivity.
Qed.

Lemma length_sep_concat_encoded (l : list str) :
  (length l <= length (json.sep_concat ", " (map json.encode_string l)))%nat.
Proof.
  induction l as [|x [|y l] IH]; [done | cbn; lia |].
  change (json.sep_concat ", " (map json.encode_string (x :: y :: l)))
    with (json.encode_string x ++ ", "
          ++ json.sep_concat ", " (map json.encode_string (y :: l))).
  rewrite !length_app. cbn [length] in IH. cbn [length].
  assert (length (", " : str) = 2%nat) by reflexivity. lia.
Qed.

Lemma length_dumps_index_dict (flac m4a : list str) :
  (length flac + length m4a + 2 <= length (json.dumps (index_dict flac m4a)))%nat.
Proof.
  rewrite <- (app_nil_r (json.dumps _)), dumps_index_dict, !dumps_str_list.
  pose proof (length_sep_concat_encoded flac).
  pose proof (length_sep_concat_encoded m4a).
  cbn [length]. rewrite !length_app.
  assert (length ("[" : str) = 1%nat) by reflexivity. lia.
Qed.

Lemma loads_dumps_index_dict (flac m4a : list str) :
  forallb kept_by_json flac = true -> forallb kept_by_json m4a = true ->
  json.loads (json.dumps (index_dict flac m4a)) = Ok (index_dict flac m4a).
Proof.
  intros Kflac Km4a. unfold json.loads.
  pose proof (length_dumps_index_dict flac m4a) as Hlen.
  assert (Hskip : json.skip_ws (json.dumps (index_dict flac m4a))
                  = json.dumps (index_dict flac m4a)).
  { rewrite <- (app_nil_r (json.dumps _)), dumps_index_dict. reflexivity. }
  rewrite Hskip.
  replace (S (2 * length (json.dumps (index_dict flac m4a))))
    with (S (S (S (S (2 * length (json.dumps (index_dict flac m4a)) - 3)))))
    by lia.
  rewrite <- (app_nil_r (json.dumps _)) at 2.
  rewrite scan_once_index_dict by (done || lia). reflexivity.
Qed.

Lemma load_index_eq (w : World) :
  load_index w
  = (match snapshot w with
     | None => Raise FileNotFoundError
     | Some text =>
         res_bind (json.loads text) (fun data =>
         res_bind (json.getitem data "flac") (fun flac =>
         res_bind (json.getitem data "m4a") (fun m4a => Ok (flac, m4a))))
     end, w).
Proof.
  unfold load_index, read_index_file, bind, lift, ret.
  destruct (snapshot w) as [text|]; [| done].
  destruct (json.loads text) as [data|]; [| done]. cbn [res_bind].
  destruct (json.getitem data "flac"); [| done]. cbn [res_bind].
  destruct (json.getitem data "m4a"); done.
Qed.

Lemma load_saved_index (flac_files m4a_files : list str) (w : World) :
  forallb kept_by_json flac_files = true ->
  forallb kept_by_json m4a_files = true ->
  load_index (snd (save_index flac_files m4a_files w))
  = (Ok (py_str_list flac_files, py_str_list m4a_files),
     snd (save_index flac_files m4a_files w)).
Proof.
  intros Kflac Km4a.
  rewrite load_index_eq. cbn [save_index modify snd set_snapshot snapshot].
  rewrite loads_dumps_index_dict by done. reflexivity.
Qed.

Lemma skip_ws_length (s : str) : (length (json.skip_ws s) <= length s)%nat.
Proof.
  induction s as [|c s IH]; [done |]. cbn [json.skip_ws].
  destruct (json.is_ws c); cbn [length]; lia.
Qed.

Lemma cons_result_inv (c : char) (r : res (str * str)) (t rest : str) :
  json.cons_result c r = Ok (t, rest) ->
  exists t', r = Ok (t', rest) /\ t = c :: t'.
Proof.
  destruct r as [[t' rest']|]; [| discriminate].
  cbn. intros [= <- <-]. eauto.
Qed.

Lemma cons_result_fuel (c : char) (r : res (str * str)) :
  json.cons_result c r = Raise OutOfFuel -> r = Raise OutOfFuel.
Proof. destruct r as [[? ?]|]; [discriminate | by intros [= ->]]. Qed.

(** The cases of [scanstring] after [\u]. *)
Ltac scanstring_split H :=
  repeat match type of H with
         | context [match ?x with _ => _ end] => destruct x; try discriminate H
         end.

Lemma scanstring_shorter (s t rest : str) :
  json.scanstring s = Ok (t, rest) -> (length rest < length s)%nat.
Proof.
  remember (length s) as n eqn:Hn. revert s t rest Hn.
  induction n as [n IH] using lt_wf_ind. intros s t rest -> Hs.
  destruct s as [|c r]; [discriminate |]. cbn [json.scanstring] in Hs.
  destruct (N.eqb c json.dquote).
  { injection Hs as <- <-. cbn [length]. lia. }
  destruct (N.eqb c json.backslash).
  - destruct r as [|e r1]; [discriminate |].
    destruct (N.eqb e "u"%char).
    + scanstring_split Hs;
        apply cons_result_inv in Hs as [t' [Hs _]];
        (eapply IH in Hs; [| | reflexivity]); cbn [length] in *; lia.
    + destruct (json.unescape e); [| discriminate].
      apply cons_result_inv in Hs as [t' [Hs _]].
      eapply IH in Hs; [| | reflexivity]; cbn [length] in *; lia.
  - destruct (Py.ord c <? 32); [discriminate |].
    apply cons_result_inv in Hs as [t' [Hs _]].
    eapply IH in Hs; [| | reflexivity]; cbn [length] in *; lia.
Qed.

Lemma scanstring_fuel (s : str) : json.scanstring s <> Raise OutOfFuel.
Proof.
  remember (length s) as n eqn:Hn. revert s Hn.
  induction n as [n IH] using lt_wf_ind. intros s -> Hs.
  destruct s as [|c r]; [discriminate |]. cbn [json.scanstring] in Hs.
  destruct (N.eqb c json.dquote); [discriminate |].
  destruct (N.eqb c json.backslash).
  - destruct r as [|e r1]; [discriminate |].
    destruct (N.eqb e "u"%char).
    + scanstring_split Hs;
        apply cons_result_fuel in Hs;
        (eapply IH in Hs; [done | | reflexivity]); cbn [length] in *; lia.
    + destruct (json.unescape e); [| discriminate].
      apply cons_result_fuel in Hs.
      eapply IH in Hs; [done | | reflexivity]; cbn [length] in *; lia.
  - destruct (Py.ord c <? 32); [discriminate |].
    apply cons_result_fuel in Hs.
    eapply IH in Hs; [done | | reflexivity]; cbn [length] in *; lia.
Qed.

Lemma digits_length (s d r : str) :
  json.digits s = (d, r) -> length s = (length d + length r)%nat.
Proof.
  revert d r. induction s as [|c s IH]; intros d r H; cbn [json.digits] in H.
  - by injection H as <- <-.
  - destruct (json.is_decimal c).
    + destruct (json.digits s) as [d' r'] eqn:E. injection H as <- <-.
      cbn [length]. rewrite (IH d' r' eq_refl). lia.
    + by injection H as <- <-.
Qed.

Lemma scan_word_shorter (word : str) (v v' : json.value) (s r : str) :
  word <> [] ->
  json.scan_word word v s = Some (v', r) -> (length r < length s)%nat.
Proof.
  intros Hw. unfold json.scan_word.
  destruct (Py.startswith word s) eqn:E; [| discriminate].
  intros [= <- <-]. apply startswith_spec in E as [t ->].
  rewrite drop_app_length, length_app. destruct word; [done | cbn [length]; lia].
Qed.

Lemma digits_nil (s r : str) : json.digits s = ([], r) -> r = s.
Proof.
  destruct s as [|c s]; cbn [json.digits]; [by intros [= <-] |].
  destruct (json.is_decimal c); [| by intros [= <-]].
  destruct (json.digits s). discriminate.
Qed.

Lemma number_int_shorter (s i r : str) :
  json.number_int s = Some (i, r) -> (length r < length s)%nat.
Proof.
  unfold json.number_int.
  assert (Hint : forall sign t,
    match t with
    | [] => None
    | c :: r' =>
        if N.eqb c "0"%char then Some (sign ++ [c], r')
        else if json.is_decimal c
        then let '(d, r'') := json.digits r' in Some (sign ++ c :: d, r'')
        else None
    end = Some (i, r) -> (length r < length t)%nat).
  { intros sign [|c r']; [discriminate |].
    destruct (N.eqb c "0"%char); [intros [= _ <-]; cbn [length]; lia |].
    destruct (json.is_decimal c); [| discriminate].
    destruct (json.digits r') as [d r''] eqn:E. apply digits_length in E.
    intros [= _ <-]. cbn [length]. lia. }
  destruct s as [|c s]; [discriminate |].
  destruct (N.eqb c "-"%char); intros H.
  - apply Hint in H. cbn [length]. lia.
  - apply (Hint [] (c :: s)) in H. done.
Qed.

Lemma number_frac_shorter (r1 f r2 : str) :
  json.number_frac r1 = (f, r2) -> (length r2 <= length r1)%nat.
Proof.
  unfold json.number_frac. destruct r1 as [|c r']; [by intros [= _ <-] |].
  destruct (N.eqb c "."%char); [| by intros [= _ <-]].
  destruct (json.digits r') as [[|d0 d] r''] eqn:E; apply digits_length in E;
    intros [= _ <-]; cbn [length] in *; lia.
Qed.

Lemma number_exp_shorter (r2 e r3 : str) :
  json.number_exp r2 = (e, r3) -> (length r3 <= length r2)%nat.
Proof.
  unfold json.number_exp. destruct r2 as [|c r']; [by intros [= _ <-] |].
  destruct (N.eqb c "e"%char || N.eqb c "E"%char); [| by intros [= _ <-]].
  destruct r' as [|c' t].
  - cbn [json.digits]. by intros [= _ <-].
  - destruct (N.eqb c' "-"%char || N.eqb c' "+"%char).
    + destruct (json.digits t) as [[|d0 d] r''] eqn:E; apply digits_length in E;
        intros [= _ <-]; cbn [length] in *; lia.
    + destruct (json.digits (c' :: t)) as [[|d0 d] r''] eqn:E;
        apply digits_length in E; intros [= _ <-]; cbn [length] in *; lia.
Qed.

Lemma scan_number_shorter (s lit r : str) :
  json.scan_number s = Some (lit, r) -> (length r < length s)%nat.
Proof.
  unfold json.scan_number.
  destruct (json.number_int s) as [[i r1]|] eqn:Ei; [| discriminate].
  destruct (json.number_frac r1) as [f r2] eqn:Ef.
  destruct (json.number_exp r2) as [e r3] eqn:Ee. intros [= _ <-].
  apply number_int_shorter in Ei. apply number_frac_shorter in Ef.
  apply number_exp_shorter in Ee. lia.
Qed.

Lemma scan_atom_shorter (s : str) (v : json.value) (r : str) :
  json.scan_atom s = Ok (v, r) -> (length r < length s)%nat.
Proof.
  unfold json.scan_atom. intros H.
  repeat match type of H with
  | context [json.scan_word ?w ?v ?s] =>
      let E := fresh "E" in
      destruct (json.scan_word w v s) as [[? ?]|] eqn:E;
      [apply scan_word_shorter in E; [| discriminate]; simplify_eq; assumption |]
  end.
  destruct (json.scan_number s) as [[? ?]|] eqn:En; [| ].
  - apply scan_number_shorter in En. simplify_eq. assumption.
  - repeat match type of H with
    | context [json.scan_word ?w ?v ?s] =>
        let E := fresh "E" in
        destruct (json.scan_word w v s) as [[? ?]|] eqn:E;
        [apply scan_word_shorter in E; [| discriminate]; simplify_eq; assumption |]
    end. discriminate.
Qed.

Lemma scan_atom_fuel (s : str) : json.scan_atom s <> Raise OutOfFuel.
Proof.
  unfold json.scan_atom.
  repeat match goal with
  | |- context [match ?x with _ => _ end] => destruct x as [[? ?]|]
  end; discriminate.
Qed.

Lemma scan_once_eq (fuel : nat) (s : str) :
  json.scan_once (S fuel) s
  = match s with
    | [] => Raise JSONDecodeError
    | c :: r =>
        if N.eqb c json.dquote then
          res_bind (json.scanstring r)
                   (fun tr => Ok (json.PyStr (fst tr), snd tr))
        else if N.eqb c "{"%char then
          match json.skip_ws r with
          | [] => Raise JSONDecodeError
          | c2 :: r2 =>
              if N.eqb c2 "}"%char then Ok (json.PyDict [], r2)
              else if N.eqb c2 json.dquote then
                res_bind (json.parse_members fuel r2)
                         (fun mr => Ok (json.PyDict (fst mr), snd mr))
              else Raise JSONDecodeError
          end
        else if N.eqb c "["%char then
          match json.skip_ws r with
          | [] => Raise JSONDecodeError
          | c2 :: r2 =>
              if N.eqb c2 "]"%char then Ok (json.PyList [], r2)
              else
                res_bind (json.parse_elements fuel (c2 :: r2))
                         (fun er => Ok (json.PyList (fst er), snd er))
          end
        else json.scan_atom s
    end.
Proof. reflexivity. Qed.

Lemma res_bind_ok {A B} (m : res A) (k : A -> res B) (b : B) :
  res_bind m k = Ok b -> exists a, m = Ok a /\ k a = Ok b.
Proof. destruct m as [a|]; [eauto | discriminate]. Qed.

Lemma res_bind_raise {A B} (m : res A) (k : A -> res B) (e : exn) :
  res_bind m k = Raise e ->
  m = Raise e \/ exists a, m = Ok a /\ k a = Raise e.
Proof. destruct m as [a|]; [eauto | intros [= ->]; by left]. Qed.

Lemma scanners_consume_all (fuel : nat) : scanners_consume fuel.
Proof.
  induction fuel as [|fuel [IHv [IHe IHm]]];
    [repeat split; intros; discriminate |].
  repeat split.
  - intros s v r. rewrite scan_once_eq.
    destruct s as [|c s]; [discriminate |].
    destruct (N.eqb c json.dquote).
    { intros H. apply res_bind_ok in H as [[t rest] [Hs [= <- <-]]].
      apply scanstring_shorter in Hs. cbn [length snd]. lia. }
    pose proof (skip_ws_length s) as Hws.
    destruct (N.eqb c "{"%char).
    { destruct (json.skip_ws s) as [|c2 r2]; [discriminate |].
      destruct (N.eqb c2 "}"%char);
        [intros [= <- <-]; cbn [length] in *; lia |].
      destruct (N.eqb c2 json.dquote); [| discriminate].
      intros H. apply res_bind_ok in H as [[ms rest] [Hs [= <- <-]]].
      apply IHm in Hs. cbn [length snd] in *. lia. }
    destruct (N.eqb c "["%char).
    { destruct (json.skip_ws s) as [|c2 r2]; [discriminate |].
      destruct (N.eqb c2 "]"%char);
        [intros [= <- <-]; cbn [length] in *; lia |].
      intros H. apply res_bind_ok in H as [[ms rest] [Hs [= <- <-]]].
      apply IHe in Hs. cbn [length snd] in *. lia. }
    apply scan_atom_shorter.
  - intros s vs r. rewrite parse_elements_eq. intros H.
    apply res_bind_ok in H as [[v r1] [Hv H]]. apply IHv in Hv.
    cbn [fst snd] in H. pose proof (skip_ws_length r1) as Hws.
    destruct (json.skip_ws r1) as [|c r2]; [discriminate |].
    destruct (N.eqb c "]"%char);
      [injection H as <- <-; cbn [length] in *; lia |].
    destruct (N.eqb c ","%char); [| discriminate].
    apply res_bind_ok in H as [[vs' r3] [He [= <- <-]]]. apply IHe in He.
    pose proof (skip_ws_length r2). cbn [length snd] in *. lia.
  - intros s ms r. rewrite parse_members_eq. intros H.
    apply res_bind_ok in H as [[k r1] [Hk H]]. apply scanstring_shorter in Hk.
    cbn [fst snd] in H. pose proof (skip_ws_length r1) as Hws.
    destruct (json.skip_ws r1) as [|c r2]; [discriminate |].
    destruct (N.eqb c ":"%char); [| discriminate].
    apply res_bind_ok in H as [[v r3] [Hv H]]. apply IHv in Hv.
    cbn [fst snd] in H.
    pose proof (skip_ws_length r2). pose proof (skip_ws_length r3).
    destruct (json.skip_ws r3) as [|c2 r4]; [discriminate |].
    destruct (N.eqb c2 "}"%char);
      [injection H as <- <-; cbn [length] in *; lia |].
    destruct (N.eqb c2 ","%char); [| discriminate].
    pose proof (skip_ws_length r4).
    destruct (json.skip_ws r4) as [|c3 r5]; [discriminate |].
    destruct (N.eqb c3 json.dquote); [| discriminate].
    apply res_bind_ok in H as [[ms' r6] [Hm [= <- <-]]]. apply IHm in Hm.
    cbn [length snd] in *. lia.
Qed.

Lemma scanners_fuelled_all (fuel : nat) : scanners_fuelled fuel.
Proof.
  induction fuel as [|fuel [IHv [IHe IHm]]];
    [repeat split; intros; lia |].
  destruct (scanners_consume_all fuel) as [Cv [Ce Cm]].
  repeat split.
  - intros s Hfuel. rewrite scan_once_eq.
    destruct s as [|c s]; [discriminate |]. cbn [length] in Hfuel.
    destruct (N.eqb c json.dquote).
    { intros H. apply res_bind_raise in H as [H | [a [_ H]]];
        [by apply scanstring_fuel in H | discriminate]. }
    pose proof (skip_ws_length s) as Hws.
    destruct (N.eqb c "{"%char).
    { destruct (json.skip_ws s) as [|c2 r2]; [discriminate |].
      destruct (N.eqb c2 "}"%char); [discriminate |].
      destruct (N.eqb c2 json.dquote); [| discriminate].
      intros H. apply res_bind_raise in H as [H | [a [_ H]]];
        [| discriminate].
      apply IHm in H; [done | cbn [length] in *; lia]. }
    destruct (N.eqb c "["%char).
    { destruct (json.skip_ws s) as [|c2 r2]; [discriminate |].
      destruct (N.eqb c2 "]"%char); [discriminate |].
      intros H. apply res_bind_raise in H as [H | [a [_ H]]];
        [| discriminate].
      apply IHe in H; [done | cbn [length] in *; lia]. }
    apply scan_atom_fuel.
  - intros s Hfuel. rewrite parse_elements_eq. intros H.
    apply res_bind_raise in H as [H | [[v r1] [Hv H]]];
      [apply IHv in H; [done | lia] |].
    apply Cv in Hv. cbn [fst snd] in H.
    pose proof (skip_ws_length r1) as Hws.
    destruct (json.skip_ws r1) as [|c r2]; [discriminate |].
    destruct (N.eqb c "]"%char); [discriminate |].
    destruct (N.eqb c ","%char); [| discriminate].
    apply res_bind_raise in H as [H | [a [_ H]]]; [| discriminate].
    pose proof (skip_ws_length r2).
    apply IHe in H; [done | cbn [length] in *; lia].
  - intros s Hfuel. rewrite parse_members_eq. intros H.
    apply res_bind_raise in H as [H | [[k r1] [Hk H]]];
      [by apply scanstring_fuel in H |].
    apply scanstring_shorter in Hk. cbn [fst snd] in H.
    pose proof (skip_ws_length r1) as Hws.
    destruct (json.skip_ws r1) as [|c r2]; [discriminate |].
    destruct (N.eqb c ":"%char); [| discriminate].
    pose proof (skip_ws_length r2).
    apply res_bind_raise in H as [H | [[v r3] [Hv H]]];
      [apply IHv in H; [done | cbn [length] in *; lia] |].
    apply Cv in Hv. cbn [fst snd] in H.
    pose proof (skip_ws_length r3).
    destruct (json.skip_ws r3) as [|c2 r4]; [discriminate |].
    destruct (N.eqb c2 "}"%char); [discriminate |].
    destruct (N.eqb c2 ","%char); [| discriminate].
    pose proof (skip_ws_length r4).
    destruct (json.skip_ws r4) as [|c3 r5]; [discriminate |].
    destruct (N.eqb c3 json.dquote); [| discriminate].
    apply res_bind_raise in H as [H | [a [_ H]]]; [| discriminate].
    apply IHm in H; [done | cbn [length] in *; lia].
Qed.

(** [loads] never stops for lack of fuel: what it raises is an error of the
    text. *)
Lemma loads_fuel (s : str) : json.loads s <> Raise OutOfFuel.
Proof.
  unfold json.loads. intros H.
  apply res_bind_raise in H as [H | [[v r] [_ H]]].
  - destruct (scanners_fuelled_all (S (2 * length s))) as [Hv _].
    apply Hv in H; [done |]. pose proof (skip_ws_length s). lia.
  - cbn [fst snd] in H. destruct (json.skip_ws r); discriminate.
Qed.

(** *** Paths *)

Lemma path_char_kept (c : char) :
  path_char c = true ->
  is_code_point c = true /\ json.is_high_surrogate (Py.ord c) = false.
Proof.
  unfold path_char, is_code_point, json.is_high_surrogate. cbv zeta.
  intros H. apply andb_true_iff in H as [H1 H2]. split; [done |].
  apply Z.leb_le in H1. apply orb_true_iff in H2 as [H2 | H2].
  - apply negb_true_iff, andb_false_iff in H2 as [H2 | H2];
      apply Z.leb_gt in H2; apply andb_false_iff; [left | right];
      apply Z.leb_gt; lia.
  - apply andb_true_iff in H2 as [H2 _]. apply Z.leb_le in H2.
    apply andb_false_iff. right. apply Z.leb_gt. lia.
Qed.

(** What the operating system gives as a path comes back from the snapshot
    as it was written. *)
Lemma path_string_kept (s : str) :
  path_string s = true -> kept_by_json s = true.
Proof.
  unfold path_string, kept_by_json. intros H. apply andb_true_iff.
  induction s as [|c s IH]; [done |]. cbn [forallb no_surrogate_pair] in *.
  apply andb_true_iff in H as [Hc Hs]. destruct (IH Hs) as [-> ->].
  apply path_char_kept in Hc as [-> ->]. done.
Qed.

Lemma path_strings_kept (l : list str) :
  path_strings l = true -> forallb kept_by_json l = true.
Proof.
  unfold path_strings. rewrite !forallb_forall. intros H s Hs.
  by apply path_string_kept, H.
Qed.

(** *** The errors of the decoder *)

Lemma cons_result_raise (c : char) (r : res (str * str)) (e : exn) :
  json.cons_result c r = Raise e -> r = Raise e.
Proof. destruct r as [[? ?]|]; [discriminate | by intros [= ->]]. Qed.

Lemma scanstring_error (s : str) (e : exn) :
  json.scanstring s = Raise e -> e = JSONDecodeError.
Proof.
  remember (length s) as n eqn:Hn. revert s Hn.
  induction n as [n IH] using lt_wf_ind. intros s -> Hs.
  destruct s as [|c r]; [by injection Hs |]. cbn [json.scanstring] in Hs.
  destruct (N.eqb c json.dquote); [discriminate |].
  destruct (N.eqb c json.backslash).
  - destruct r as [|e' r1]; [by injection Hs |].
    destruct (N.eqb e' "u"%char).
    + repeat match type of Hs with
             | context [match ?x with _ => _ end] => destruct x
             end;
        try (by injection Hs);
        apply cons_result_raise in Hs;
        (eapply IH in Hs; [done | | reflexivity]); cbn [length] in *; lia.
    + destruct (json.unescape e'); [| by injection Hs].
      apply cons_result_raise in Hs.
      eapply IH in Hs; [done | | reflexivity]; cbn [length] in *; lia.
  - destruct (Py.ord c <? 32); [by injection Hs |].
    apply cons_result_raise in Hs.
    eapply IH in Hs; [done | | reflexivity]; cbn [length] in *; lia.
Qed.

Lemma scan_atom_error (s : str) (e : exn) :
  json.scan_atom s = Raise e -> e = JSONDecodeError.
Proof.
  unfold json.scan_atom.
  repeat match goal with
  | |- context [match ?x with _ => _ end] => destruct x as [[? ?]|]
  end; try discriminate. by intros [= <-].
Qed.

Lemma scanners_errors (fuel : nat) :
  (forall s e, json.scan_once fuel s = Raise e ->
               e = JSONDecodeError \/ e = OutOfFuel) /\
  (forall s e, json.parse_elements fuel s = Raise e ->
               e = JSONDecodeError \/ e = OutOfFuel) /\
  (forall s e, json.parse_members fuel s = Raise e ->
               e = JSONDecodeError \/ e = OutOfFuel).
Proof.
  induction fuel as [|fuel [IHv [IHe IHm]]];
    [repeat split; intros s e [= <-]; by right |].
  assert (Hraise : forall (A : Type) e, @Raise A JSONDecodeError = Raise e ->
                                        e = JSONDecodeError \/ e = OutOfFuel)
    by (intros A e [= <-]; by left).
  repeat split.
  - intros s e. rewrite scan_once_eq.
    destruct s as [|c s]; [apply Hraise |].
    destruct (N.eqb c json.dquote).
    { intros H. apply res_bind_raise in H as [H | [a [_ H]]];
        [left; by apply scanstring_error in H | discriminate]. }
    destruct (N.eqb c "{"%char).
    { destruct (json.skip_ws s) as [|c2 r2]; [apply Hraise |].
      destruct (N.eqb c2 "}"%char); [discriminate |].
      destruct (N.eqb c2 json.dquote); [| apply Hraise].
      intros H. apply res_bind_raise in H as [H | [a [_ H]]];
        [by apply IHm in H | discriminate]. }
    destruct (N.eqb c "["%char).
    { destruct (json.skip_ws s) as [|c2 r2]; [apply Hraise |].
      destruct (N.eqb c2 "]"%char); [discriminate |].
      intros H. apply res_bind_raise in H as [H | [a [_ H]]];
        [by apply IHe in H | discriminate]. }
    intros H. left. by apply scan_atom_error in H.
  - intros s e. rewrite parse_elements_eq. intros H.
    apply res_bind_raise in H as [H | [[v r1] [_ H]]]; [by apply IHv in H |].
    cbn [fst snd] in H.
    destruct (json.skip_ws r1) as [|c r2]; [exact (Hraise _ _ H) |].
    destruct (N.eqb c "]"%char); [discriminate |].
    destruct (N.eqb c ","%char); [| exact (Hraise _ _ H)].
    apply res_bind_raise in H as [H | [a [_ H]]]; [| discriminate].
    by apply IHe in H.
  - intros s e. rewrite parse_members_eq. intros H.
    apply res_bind_raise in H as [H | [[k r1] [_ H]]];
      [left; by apply scanstring_error in H |].
    cbn [fst snd] in H.
    destruct (json.skip_ws r1) as [|c r2]; [exact (Hraise _ _ H) |].
    destruct (N.eqb c ":"%char); [| exact (Hraise _ _ H)].
    apply res_bind_raise in H as [H | [[v r3] [_ H]]]; [by apply IHv in H |].
    cbn [fst snd] in H.
    destruct (json.skip_ws r3) as [|c2 r4]; [exact (Hraise _ _ H) |].
    destruct (N.eqb c2 "}"%char); [discriminate |].
    destruct (N.eqb c2 ","%char); [| exact (Hraise _ _ H)].
    destruct (json.skip_ws r4) as [|c3 r5]; [exact (Hraise _ _ H) |].
    destruct (N.eqb c3 json.dquote); [| exact (Hraise _ _ H)].
    apply res_bind_raise in H as [H | [a [_ H]]]; [| discriminate].
    by apply IHm in H.
Qed.

(** [loads] returns a value or raises the error of the decoder. *)
Lemma loads_outcome (s : str) :
  (exists v, json.loads s = Ok v) \/ json.loads s = Raise JSONDecodeError.
Proof.
  destruct (json.loads s) as [v | e] eqn:H; [left; by exists v | right].
  assert (He : e = JSONDecodeError \/ e = OutOfFuel).
  { unfold json.loads in H.
    apply res_bind_raise in H as [H | [[v r] [_ H]]].
    - by apply (scanners_errors _) in H.
    - cbn [fst snd] in H. destruct (json.skip_ws r); [discriminate |].
      injection H as <-. by left. }
  destruct He as [-> | ->]; [done |]. by apply loads_fuel in H.
Qed.

(** *** Text that is not a snapshot *)

Lemma eqb_of_ord (c d : char) :
  Py.ord c <> Py.ord d -> N.eqb c d = false.
Proof. intros H. apply N.eqb_neq. by intros ->. Qed.

Lemma startswith_head (x c : char) (w r : str) :
  Py.ord c <> Py.ord x -> Py.startswith (x :: w) (c :: r) = false.
Proof.
  intros H. apply startswith_false. intros t [= -> _]. done.
Qed.

(** Text in which no value begins is not JSON. *)
Lemma loads_no_value (text : str) :
  begins_value text = false -> json.loads text = Raise JSONDecodeError.
Proof.
  unfold begins_value, json.loads. intros H.
  destruct (json.skip_ws text) as [|c r]; [reflexivity |].
  cbv zeta in H. repeat (apply orb_false_iff in H as [H ?]).
  repeat match goal with
         | E : (_ =? _) = false |- _ => apply Z.eqb_neq in E
         end.
  assert (Hdec : json.is_decimal c = false) by (unfold json.is_decimal; assumption).
  rewrite scan_once_eq.
  rewrite !eqb_of_ord by done. unfold json.scan_atom, json.scan_word.
  change ("null" : str) with (("n"%char : char) :: ("ull" : str)).
  change ("true" : str) with (("t"%char : char) :: ("rue" : str)).
  change ("false" : str) with (("f"%char : char) :: ("alse" : str)).
  change ("NaN" : str) with (("N"%char : char) :: ("aN" : str)).
  change ("Infinity" : str) with (("I"%char : char) :: ("nfinity" : str)).
  change ("-Infinity" : str) with (("-"%char : char) :: ("Infinity" : str)).
  rewrite !startswith_head by done.
  unfold json.scan_number, json.number_int.
  rewrite !eqb_of_ord, Hdec; [done | |].
  - intros E. apply andb_false_iff in Hdec as [Hd | Hd];
      [apply Z.leb_gt in Hd | apply Z.leb_gt in Hd]; rewrite E in Hd;
      by vm_compute in Hd.
  - done.
Qed.

(** The saved snapshot followed by other text is not JSON. *)
Lemma loads_extra_data (flac m4a : list str) (rest : str) :
  forallb kept_by_json flac = true -> forallb kept_by_json m4a = true ->
  json.skip_ws rest <> [] ->
  json.loads (json.dumps (index_dict flac m4a) ++ rest) = Raise JSONDecodeError.
Proof.
  intros Kflac Km4a Hrest. unfold json.loads.
  pose proof (length_dumps_index_dict flac m4a) as Hlen.
  assert (Hskip : json.skip_ws (json.dumps (index_dict flac m4a) ++ rest)
                  = json.dumps (index_dict flac m4a) ++ rest)
    by (rewrite dumps_index_dict; reflexivity).
  rewrite Hskip, length_app.
  replace (S (2 * (length (json.dumps (index_dict flac m4a)) + length rest)))
    with (S (S (S (S (2 * (length (json.dumps (index_dict flac m4a))
                           + length rest) - 3)))))
    by lia.
  rewrite scan_once_index_dict by (done || lia). cbn [res_bind fst snd].
  by destruct (json.skip_ws rest).
Qed.

(** *** Text that is cut short *)

Lemma skip_ws_ext (r : str) (c : char) (r2 b : str) :
  json.skip_ws r = c :: r2 -> json.skip_ws (r ++ b) = c :: r2 ++ b.
Proof.
  induction r as [|a r IH]; [discriminate |]. cbn [app json.skip_ws].
  destruct (json.is_ws a); [apply IH | by intros [= -> ->]].
Qed.

Lemma is_ws_stop (c : char) : json.is_ws c = true -> number_stop c = true.
Proof.
  unfold json.is_ws, number_stop. cbv zeta. intros H.
  repeat (apply orb_true_iff in H as [H | H]);
    apply Z.eqb_eq in H; by rewrite H.
Qed.

(** A value that is followed, after whitespace, by a delimiter ends for
    good. *)
Lemma skip_ws_ends (r : str) (c : char) (r2 : str) :
  json.skip_ws r = c :: r2 -> number_stop c = true -> number_ends r = true.
Proof.
  destruct r as [|a r]; [discriminate |]. cbn [json.skip_ws number_ends].
  destruct (json.is_ws a) eqn:E; [intros _ _; by apply is_ws_stop |].
  by intros [= -> _].
Qed.

Lemma digits_ext (s d : str) (c : char) (r b : str) :
  json.digits s = (d, c :: r) -> json.digits (s ++ b) = (d, c :: r ++ b).
Proof.
  revert d. induction s as [|a s IH]; intros d; [discriminate |].
  cbn [app json.digits]. destruct (json.is_decimal a).
  - destruct (json.digits s) as [d' r'] eqn:E. intros [= <- ->].
    by rewrite (IH d' eq_refl).
  - by intros [= <- -> ->].
Qed.

Lemma number_stop_inv (c : char) :
  number_stop c = true ->
  json.is_decimal c = false /\ N.eqb c "."%char = false /\
  N.eqb c "e"%char = false /\ N.eqb c "E"%char = false.
Proof.
  unfold number_stop, json.is_decimal. cbv zeta. intros H.
  repeat (apply andb_true_iff in H as [H ?]).
  repeat match goal with
         | E : negb _ = true |- _ => apply negb_true_iff in E
         end.
  repeat match goal with
         | E : (_ =? _) = false |- _ => apply Z.eqb_neq in E
         end.
  repeat split; [done | by apply eqb_of_ord ..].
Qed.

Lemma number_int_ext (s i : str) (c : char) (r b : str) :
  json.number_int s = Some (i, c :: r) ->
  json.number_int (s ++ b) = Some (i, c :: r ++ b).
Proof.
  unfold json.number_int.
  assert (Hint : forall sign t,
    match t with
    | [] => None
    | c0 :: r' =>
        if N.eqb c0 "0"%char then Some (sign ++ [c0], r')
        else if json.is_decimal c0
        then let '(d, r'') := json.digits r' in Some (sign ++ c0 :: d, r'')
        else None
    end = Some (i, c :: r) ->
    match t ++ b with
    | [] => None
    | c0 :: r' =>
        if N.eqb c0 "0"%char then Some (sign ++ [c0], r')
        else if json.is_decimal c0
        then let '(d, r'') := json.digits r' in Some (sign ++ c0 :: d, r'')
        else None
    end = Some (i, c :: r ++ b)).
  { intros sign [|c0 r']; [discriminate |]. cbn [app].
    destruct (N.eqb c0 "0"%char); [by intros [= <- ->] |].
    destruct (json.is_decimal c0); [| discriminate].
    destruct (json.digits r') as [d r''] eqn:E. intros [= <- ->].
    by rewrite (digits_ext _ _ _ _ b E). }
  destruct s as [|c0 s]; [discriminate |]. cbn [app].
  destruct (N.eqb c0 "-"%char); intros H.
  - by apply Hint.
  - by apply (Hint [] (c0 :: s)).
Qed.

Lemma number_frac_ext (r1 f : str) (c : char) (r b : str) :
  json.number_frac r1 = (f, c :: r) -> N.eqb c "."%char = false ->
  json.number_frac (r1 ++ b) = (f, c :: r ++ b).
Proof.
  unfold json.number_frac. destruct r1 as [|c1 r']; [discriminate |].
  cbn [app]. destruct (N.eqb c1 "."%char) eqn:E1.
  - destruct (json.digits r') as [[|d0 d] r''] eqn:E.
    + intros [= _ -> _]. congruence.
    + intros [= <- ->] _. by rewrite (digits_ext _ _ _ _ b E).
  - by intros [= <- -> ->].
Qed.

Lemma number_exp_ext (r2 e : str) (c : char) (r b : str) :
  json.number_exp r2 = (e, c :: r) ->
  N.eqb c "e"%char = false -> N.eqb c "E"%char = false ->
  json.number_exp (r2 ++ b) = (e, c :: r ++ b).
Proof.
  unfold json.number_exp. destruct r2 as [|c2 r']; [discriminate |].
  cbn [app]. destruct (N.eqb c2 "e"%char || N.eqb c2 "E"%char) eqn:E2.
  - intros H He HE.
    assert (Hno : (e, c :: r) <> ([], c2 :: r')).
    { intros [= _ -> _]. rewrite He, HE in E2. discriminate. }
    destruct r' as [|c' t]; [cbn [json.digits] in H; congruence |].
    cbn [app]. destruct (N.eqb c' "-"%char || N.eqb c' "+"%char).
    + destruct (json.digits t) as [[|d0 d] r''] eqn:E; [congruence |].
      injection H as <- ->. by rewrite (digits_ext _ _ _ _ b E).
    + destruct (json.digits (c' :: t)) as [[|d0 d] r''] eqn:E; [congruence |].
      injection H as <- ->.
      change (c' :: t ++ b) with ((c' :: t) ++ b).
      by rewrite (digits_ext _ _ _ _ b E).
  - by intros [= <- -> ->].
Qed.

(** The text after an exponent does not begin with a point, and the text
    before a fraction is not empty. *)
Lemma number_exp_head (r2 e : str) (c : char) (r : str) :
  json.number_exp r2 = (e, c :: r) -> N.eqb c "."%char = false ->
  exists c2 r2', r2 = c2 :: r2' /\ N.eqb c2 "."%char = false.
Proof.
  unfold json.number_exp. destruct r2 as [|c2 r']; [discriminate |].
  intros H Hc. exists c2, r'. split; [done |].
  destruct (N.eqb c2 "e"%char || N.eqb c2 "E"%char) eqn:E2.
  - apply orb_true_iff in E2 as [E2 | E2]; apply N.eqb_eq in E2; by rewrite E2.
  - by injection H as _ ->.
Qed.

Lemma number_frac_head (r1 f : str) (c : char) (r : str) :
  json.number_frac r1 = (f, c :: r) -> exists c1 r1', r1 = c1 :: r1'.
Proof. destruct r1 as [|c1 r1']; [discriminate | eauto]. Qed.

Lemma scan_number_ext (s lit r b : str) :
  json.scan_number s = Some (lit, r) -> number_ends r = true ->
  json.scan_number (s ++ b) = Some (lit, r ++ b).
Proof.
  unfold json.scan_number.
  destruct (json.number_int s) as [[i r1]|] eqn:Ei; [| discriminate].
  destruct (json.number_frac r1) as [f r2] eqn:Ef.
  destruct (json.number_exp r2) as [e r3] eqn:Ee. intros [= <- <-] Hends.
  destruct r3 as [|c r]; [discriminate |]. cbn [number_ends] in Hends.
  apply number_stop_inv in Hends as [_ [Hp [He HE]]].
  destruct (number_exp_head _ _ _ _ Ee Hp) as [c2 [r2' [-> Hc2]]].
  destruct (number_frac_head _ _ _ _ Ef) as [c1 [r1' ->]].
  rewrite (number_int_ext _ _ _ _ b Ei).
  change (c1 :: r1' ++ b) with ((c1 :: r1') ++ b).
  rewrite (number_frac_ext _ _ _ _ b Ef Hc2).
  change (c2 :: r2' ++ b) with ((c2 :: r2') ++ b).
  by rewrite (number_exp_ext _ _ _ _ b Ee He HE).
Qed.

Lemma scan_number_head (s lit r : str) :
  json.scan_number s = Some (lit, r) ->
  exists c t, s = c :: t /\ (Py.ord c = 45 \/ 48 <= Py.ord c <= 57).
Proof.
  unfold json.scan_number, json.number_int.
  destruct s as [|c t]; [discriminate |]. intros H. exists c, t.
  split; [done |].
  destruct (N.eqb c "-"%char) eqn:E.
  { apply N.eqb_eq in E. left. by rewrite E. }
  right. destruct (N.eqb c "0"%char) eqn:E0.
  { apply N.eqb_eq in E0. by rewrite E0. }
  destruct (json.is_decimal c) eqn:Ed; [| discriminate].
  unfold json.is_decimal in Ed. apply andb_true_iff in Ed as [H1 H2].
  apply Z.leb_le in H1, H2. lia.
Qed.

Lemma scan_word_ext (word : str) (v v' : json.value) (s r b : str) :
  json.scan_word word v s = Some (v', r) ->
  json.scan_word word v (s ++ b) = Some (v', r ++ b).
Proof.
  unfold json.scan_word.
  destruct (Py.startswith word s) eqn:E; [| discriminate].
  intros [= <- <-]. apply startswith_spec in E as [t ->].
  rewrite <- app_assoc.
  rewrite (proj2 (startswith_spec word (word ++ t ++ b))) by eauto.
  by rewrite !drop_app_length.
Qed.

Lemma scan_word_head (x : char) (w : str) (v v' : json.value) (s r : str) :
  json.scan_word (x :: w) v s = Some (v', r) -> exists t, s = x :: t.
Proof.
  unfold json.scan_word.
  destruct (Py.startswith (x :: w) s) eqn:E; [| discriminate].
  apply startswith_spec in E as [t ->]. eauto.
Qed.

Lemma scan_word_other (x c : char) (w : str) (v : json.value) (t : str) :
  Py.ord c <> Py.ord x -> json.scan_word (x :: w) v (c :: t) = None.
Proof. intros H. unfold json.scan_word. by rewrite startswith_head. Qed.

Lemma scan_number_other (c : char) (t : str) :
  Py.ord c <> 45 -> ~ 48 <= Py.ord c <= 57 -> json.scan_number (c :: t) = None.
Proof.
  intros Hm Hd. unfold json.scan_number, json.number_int.
  rewrite (eqb_of_ord c "-"%char) by done.
  rewrite (eqb_of_ord c "0"%char) by (change (Py.ord "0"%char) with 48; lia).
  unfold json.is_decimal.
  destruct (Z.leb_spec 48 (Py.ord c)); [| done].
  destruct (Z.leb_spec (Py.ord c) 57); [lia | done].
Qed.

Lemma scan_atom_ext (s : str) (v : json.value) (r b : str) :
  json.scan_atom s = Ok (v, r) ->
  (forall lit, v = json.PyNumber lit -> number_ends r = true) ->
  json.scan_atom (s ++ b) = Ok (v, r ++ b).
Proof.
  unfold json.scan_atom.
  change ("null" : str) with (("n"%char : char) :: ("ull" : str)).
  change ("true" : str) with (("t"%char : char) :: ("rue" : str)).
  change ("false" : str) with (("f"%char : char) :: ("alse" : str)).
  change ("NaN" : str) with (("N"%char : char) :: ("aN" : str)).
  change ("Infinity" : str) with (("I"%char : char) :: ("nfinity" : str)).
  change ("-Infinity" : str) with (("-"%char : char) :: ("Infinity" : str)).
  intros H Hnum.
  repeat match type of H with
         | context [json.scan_word ?w ?v0 s] =>
             let E := fresh "E" in
             destruct (json.scan_word w v0 s) as [[? ?]|] eqn:E;
             [injection H as -> ->;
              pose proof (scan_word_ext _ _ _ _ _ b E) as E';
              destruct (scan_word_head _ _ _ _ _ _ E) as [t ->];
              cbn [app] in *;
              rewrite ?scan_word_other by (by vm_compute);
              try (rewrite scan_number_other by (by vm_compute));
              rewrite ?scan_word_other by (by vm_compute);
              by rewrite E' |]
         | context [json.scan_number s] =>
             let E := fresh "E" in
             destruct (json.scan_number s) as [[? ?]|] eqn:E;
             [injection H as <- <-;
              destruct (scan_number_head _ _ _ E) as [c [t [-> Hc]]];
              cbn [app];
              rewrite !scan_word_other
                by (match goal with
                    | |- Py.ord _ <> Py.ord ?x =>
                        let k := eval vm_compute in (Py.ord x) in
                        change (Py.ord x) with k
                    end; lia);
              change (c :: t ++ b) with ((c :: t) ++ b);
              by rewrite (scan_number_ext _ _ _ b E (Hnum _ eq_refl)) |]
         end.
  match type of H with
  | context [json.scan_word ?w ?v0 s] =>
      destruct (json.scan_word w v0 s) as [[? ?]|] eqn:E5; [| discriminate H]
  end.
  injection H as -> ->.
  pose proof (scan_word_ext _ _ _ _ _ b E5) as E'.
  unfold json.scan_word in E5.
  destruct (Py.startswith _ s) eqn:Es; [| discriminate E5].
  apply startswith_spec in Es as [t ->].
  assert (Hn : json.scan_number
                 (((("-"%char : char) :: ("Infinity" : str)) ++ t) ++ b) = None)
    by (vm_compute; reflexivity).
  rewrite Hn. cbn [app] in *.
  rewrite !scan_word_other by (by vm_compute).
  by rewrite E'.
Qed.

Lemma scanstring_eq (c : char) (r : str) :
  json.scanstring (c :: r)
  = if N.eqb c json.dquote then Ok ([], r)
    else if N.eqb c json.backslash then
      match r with
      | [] => Raise JSONDecodeError
      | e :: r1 =>
          if N.eqb e "u"%char then
            match r1 with
            | h1 :: h2 :: h3 :: h4 :: r2 =>
                match json.hex4 h1 h2 h3 h4 with
                | Some n =>
                    if json.is_high_surrogate n then
                      match r2 with
                      | b :: u :: r3 =>
                          if N.eqb b json.backslash && N.eqb u "u"%char then
                            match r3 with
                            | k1 :: k2 :: k3 :: k4 :: r4 =>
                                match json.hex4 k1 k2 k3 k4 with
                                | Some n2 =>
                                    if json.is_low_surrogate n2
                                    then json.cons_result
                                           (json.join_surrogates n n2)
                                           (json.scanstring r4)
                                    else json.cons_result (Z.to_N n)
                                           (json.scanstring r2)
                                | None => Raise JSONDecodeError
                                end
                            | _ => Raise JSONDecodeError
                            end
                          else json.cons_result (Z.to_N n) (json.scanstring r2)
                      | _ => json.cons_result (Z.to_N n) (json.scanstring r2)
                      end
                    else json.cons_result (Z.to_N n) (json.scanstring r2)
                | None => Raise JSONDecodeError
                end
            | _ => Raise JSONDecodeError
            end
          else
            match json.unescape e with
            | Some c' => json.cons_result c' (json.scanstring r1)
            | None => Raise JSONDecodeError
            end
      end
    else if Py.ord c <? 32 then Raise JSONDecodeError
    else json.cons_result c (json.scanstring r).
Proof. reflexivity. Qed.

Lemma scanstring_one (b0 : char) (t r : str) :
  json.scanstring [b0] = Ok (t, r) -> N.eqb b0 json.backslash = false.
Proof.
  rewrite scanstring_eq. destruct (N.eqb b0 json.backslash) eqn:E; [| done].
  apply N.eqb_eq in E. subst b0. discriminate.
Qed.

(** What [scanstring] makes of a text does not depend on what follows the
    closing quote. *)
Lemma scanstring_ext (a t r b : str) :
  json.scanstring a = Ok (t, r) -> json.scanstring (a ++ b) = Ok (t, r ++ b).
Proof.
  remember (length a) as n eqn:Hn. revert a t r Hn.
  induction n as [n IH] using lt_wf_ind. intros a t r -> H.
  assert (Hrec : forall (c : char) (x : str),
            (length x < length a)%nat ->
            json.cons_result c (json.scanstring x) = Ok (t, r) ->
            json.cons_result c (json.scanstring (x ++ b)) = Ok (t, r ++ b)).
  { intros c x Hx Hc. apply cons_result_inv in Hc as [t' [Hc ->]].
    by rewrite (IH _ Hx x t' r eq_refl Hc). }
  destruct a as [|c s]; [discriminate |].
  cbn [app]. rewrite scanstring_eq in H |- *.
  destruct (N.eqb c json.dquote); [by injection H as <- <- |].
  destruct (N.eqb c json.backslash).
  - destruct s as [|e r1]; [discriminate |]. cbn [app].
    destruct (N.eqb e "u"%char).
    + destruct r1 as [|h1 [|h2 [|h3 [|h4 r2]]]]; try discriminate.
      cbn [app]. destruct (json.hex4 h1 h2 h3 h4) as [n|]; [| discriminate].
      destruct (json.is_high_surrogate n).
      * destruct r2 as [|b0 [|u r3]].
        -- discriminate.
        -- pose proof H as H1. apply cons_result_inv in H1 as [t' [H1 _]].
           apply scanstring_one in H1.
           apply (Hrec _ [b0]) in H; [| cbn [length]; lia].
           cbn [app] in *. destruct b as [|u b]; [done |]. by rewrite H1.
        -- cbn [app]. destruct (N.eqb b0 json.backslash && N.eqb u "u"%char).
           ++ destruct r3 as [|k1 [|k2 [|k3 [|k4 r4]]]]; try discriminate.
              cbn [app].
              destruct (json.hex4 k1 k2 k3 k4) as [n2|]; [| discriminate].
              destruct (json.is_low_surrogate n2).
              ** apply Hrec; [cbn [length]; lia | done].
              ** apply (Hrec _ (b0 :: u :: k1 :: k2 :: k3 :: k4 :: r4));
                   [cbn [length]; lia | done].
           ++ apply (Hrec _ (b0 :: u :: r3)); [cbn [length]; lia | done].
      * apply Hrec; [cbn [length]; lia | done].
    + destruct (json.unescape e); [| discriminate].
      apply Hrec; [cbn [length]; lia | done].
  - destruct (Py.ord c <? 32); [discriminate |].
    apply Hrec; [cbn [length]; lia | done].
Qed.

Lemma scan_once_nil (fuel : nat) (v : json.value) (r : str) :
  json.scan_once fuel [] <> Ok (v, r).
Proof. by destruct fuel. Qed.

Lemma parse_elements_nil (fuel : nat) (vs : list json.value) (r : str) :
  json.parse_elements fuel [] <> Ok (vs, r).
Proof.
  destruct fuel as [|fuel]; [done |]. rewrite parse_elements_eq.
  intros H. apply res_bind_ok in H as [[v r1] [H _]].
  by apply scan_once_nil in H.
Qed.

Lemma delimiter_stop (c d : char) :
  N.eqb c d = true -> number_stop d = true -> number_stop c = true.
Proof. intros H. apply N.eqb_eq in H. by subst. Qed.

(** What the decoder makes of a text does not depend on what follows the
    value, when the value is not a number that the following text could
    continue; more fuel changes nothing. *)
Lemma scanners_extend (fuel : nat) :
  (forall a v r b fuel', json.scan_once fuel a = Ok (v, r) ->
     (forall lit, v = json.PyNumber lit -> number_ends r = true) ->
     (fuel <= fuel')%nat -> json.scan_once fuel' (a ++ b) = Ok (v, r ++ b)) /\
  (forall a vs r b fuel', json.parse_elements fuel a = Ok (vs, r) ->
     (fuel <= fuel')%nat ->
     json.parse_elements fuel' (a ++ b) = Ok (vs, r ++ b)) /\
  (forall a ms r b fuel', json.parse_members fuel a = Ok (ms, r) ->
     (fuel <= fuel')%nat ->
     json.parse_members fuel' (a ++ b) = Ok (ms, r ++ b)).
Proof.
  induction fuel as [|fuel [IHv [IHe IHm]]];
    [repeat split; intros; discriminate |].
  assert (Hvalue : forall a v r1 c r2 b fuel',
            json.scan_once fuel a = Ok (v, r1) ->
            json.skip_ws r1 = c :: r2 -> number_stop c = true ->
            (fuel <= fuel')%nat ->
            json.scan_once fuel' (a ++ b) = Ok (v, r1 ++ b)).
  { intros a v r1 c r2 b fuel' Hv Hws Hc Hf. apply IHv; [done | | done].
    intros _ _. by eapply skip_ws_ends. }
  repeat split.
  - intros a v r b [|fuel'] H Hnum Hf; [lia |]. apply le_S_n in Hf.
    rewrite scan_once_eq in H |- *.
    destruct a as [|c s]; [discriminate |]. cbn [app].
    destruct (N.eqb c json.dquote).
    { apply res_bind_ok in H as [[t rest] [Hs [= <- <-]]].
      by rewrite (scanstring_ext _ _ _ b Hs). }
    destruct (N.eqb c "{"%char).
    { destruct (json.skip_ws s) as [|c2 r2] eqn:Hws; [discriminate |].
      rewrite (skip_ws_ext _ _ _ b Hws).
      destruct (N.eqb c2 "}"%char); [by injection H as <- <- |].
      destruct (N.eqb c2 json.dquote); [| discriminate].
      apply res_bind_ok in H as [[ms rest] [Hs [= <- <-]]].
      by rewrite (IHm _ _ _ b fuel' Hs Hf). }
    destruct (N.eqb c "["%char).
    { destruct (json.skip_ws s) as [|c2 r2] eqn:Hws; [discriminate |].
      rewrite (skip_ws_ext _ _ _ b Hws).
      destruct (N.eqb c2 "]"%char); [by injection H as <- <- |].
      apply res_bind_ok in H as [[vs rest] [Hs [= <- <-]]].
      change (c2 :: r2 ++ b) with ((c2 :: r2) ++ b).
      by rewrite (IHe _ _ _ b fuel' Hs Hf). }
    change (c :: s ++ b) with ((c :: s) ++ b). by apply scan_atom_ext.
  - intros a vs r b [|fuel'] H Hf; [lia |]. apply le_S_n in Hf.
    rewrite parse_elements_eq in H |- *.
    apply res_bind_ok in H as [[v r1] [Hv H]]. cbn [fst snd] in H.
    destruct (json.skip_ws r1) as [|c r2] eqn:Hws; [discriminate |].
    destruct (N.eqb c "]"%char) eqn:E1.
    { rewrite (Hvalue _ _ _ _ _ b fuel' Hv Hws) by (done || by eapply delimiter_stop).
      cbn [res_bind fst snd]. rewrite (skip_ws_ext _ _ _ b Hws), E1.
      by injection H as <- <-. }
    destruct (N.eqb c ","%char) eqn:E2; [| discriminate].
    rewrite (Hvalue _ _ _ _ _ b fuel' Hv Hws) by (done || by eapply delimiter_stop).
    cbn [res_bind fst snd]. rewrite (skip_ws_ext _ _ _ b Hws), E1, E2.
    apply res_bind_ok in H as [[vs' r3] [He [= <- <-]]].
    destruct (json.skip_ws r2) as [|c3 r4] eqn:Hws2;
      [by apply parse_elements_nil in He |].
    rewrite (skip_ws_ext _ _ _ b Hws2).
    change (c3 :: r4 ++ b) with ((c3 :: r4) ++ b).
    by rewrite (IHe _ _ _ b fuel' He Hf).
  - intros a ms r b [|fuel'] H Hf; [lia |]. apply le_S_n in Hf.
    rewrite parse_members_eq in H |- *.
    apply res_bind_ok in H as [[k r1] [Hk H]]. cbn [fst snd] in H.
    rewrite (scanstring_ext _ _ _ b Hk). cbn [res_bind fst snd].
    destruct (json.skip_ws r1) as [|c r2] eqn:Hws; [discriminate |].
    rewrite (skip_ws_ext _ _ _ b Hws).
    destruct (N.eqb c ":"%char); [| discriminate].
    apply res_bind_ok in H as [[v r3] [Hv H]]. cbn [fst snd] in H.
    destruct (json.skip_ws r2) as [|c1 r2'] eqn:Hws1;
      [by apply scan_once_nil in Hv |].
    rewrite (skip_ws_ext _ _ _ b Hws1).
    destruct (json.skip_ws r3) as [|c2 r4] eqn:Hws2; [discriminate |].
    change (c1 :: r2' ++ b) with ((c1 :: r2') ++ b).
    destruct (N.eqb c2 "}"%char) eqn:E1.
    { rewrite (Hvalue _ _ _ _ _ b fuel' Hv Hws2) by (done || by eapply delimiter_stop).
      cbn [res_bind fst snd]. rewrite (skip_ws_ext _ _ _ b Hws2), E1.
      by injection H as <- <-. }
    destruct (N.eqb c2 ","%char) eqn:E2; [| discriminate].
    rewrite (Hvalue _ _ _ _ _ b fuel' Hv Hws2) by (done || by eapply delimiter_stop).
    cbn [res_bind fst snd]. rewrite (skip_ws_ext _ _ _ b Hws2), E1, E2.
    destruct (json.skip_ws r4) as [|c3 r5] eqn:Hws3; [discriminate |].
    rewrite (skip_ws_ext _ _ _ b Hws3).
    destruct (N.eqb c3 json.dquote); [| discriminate].
    apply res_bind_ok in H as [[ms' r6] [Hm [= <- <-]]].
    by rewrite (IHm _ _ _ b fuel' Hm Hf).
Qed.

Lemma scan_once_brace (fuel : nat) (s : str) (v : json.value) (r : str) :
  json.scan_once fuel (("{"%char : char) :: s) = Ok (v, r) ->
  exists items, v = json.PyDict items.
Proof.
  destruct fuel as [|fuel]; [discriminate |]. rewrite scan_once_eq. eqb_lit.
  destruct (json.skip_ws s) as [|c2 r2]; [discriminate |].
  destruct (N.eqb c2 "}"%char); [intros [= <- _]; eauto |].
  destruct (N.eqb c2 json.dquote); [| discriminate].
  intros H. apply res_bind_ok in H as [[ms rest] [_ [= <- _]]]. eauto.
Qed.

(** The saved snapshot cut short is not JSON. *)
Lemma loads_cut_short (flac m4a : list str) (n : nat) :
  forallb kept_by_json flac = true -> forallb kept_by_json m4a = true ->
  (n < length (json.dumps (index_dict flac m4a)))%nat ->
  json.loads (take n (json.dumps (index_dict flac m4a))) = Raise JSONDecodeError.
Proof.
  intros Kflac Km4a Hn.
  destruct (loads_outcome (take n (json.dumps (index_dict flac m4a))))
    as [[v Hv] | H]; [exfalso | done].
  pose proof (length_dumps_index_dict flac m4a) as Hlen.
  pose proof (take_drop n (json.dumps (index_dict flac m4a))) as Hsplit.
  pose proof (length_drop (json.dumps (index_dict flac m4a)) n) as Hdrop.
  pose proof (scan_once_index_dict flac m4a []
                (2 * length (json.dumps (index_dict flac m4a))) Kflac Km4a)
    as Hfull.
  rewrite app_nil_r in Hfull.
  pose proof (dumps_index_dict flac m4a []) as Hbrace.
  rewrite app_nil_r in Hbrace.
  remember (json.dumps (index_dict flac m4a)) as saved eqn:Hsaved.
  clear Hsaved. remember (drop n saved) as b eqn:Hb. clear Hb.
  unfold json.loads in Hv.
  apply res_bind_ok in Hv as [[v' r] [Hs Hr]]. cbn [fst snd] in Hr.
  destruct n as [|n].
  { cbn [take json.skip_ws] in Hs. discriminate Hs. }
  rewrite Hbrace in Hs at 2. cbn [take] in Hs.
  rewrite skip_ws_other in Hs by reflexivity.
  destruct (scan_once_brace _ _ _ _ Hs) as [items ->].
  destruct (scanners_extend (S (2 * length (take (S n) saved)))) as [Hext _].
  apply (Hext _ _ _ b
           (S (S (S (S (2 * length saved)))))) in Hs;
    [| discriminate | rewrite length_take; lia].
  change (("{"%char : char) :: take n ?t) with (take (S n) (("{"%char : char) :: t))
    in Hs.
  rewrite <- Hbrace, Hsplit, Hfull in Hs by lia.
  injection Hs as _ Hs. symmetry in Hs. apply app_eq_nil in Hs as [_ ->].
  cbn [length] in Hdrop. lia.
Qed.

(** The escapes of a high surrogate and of a low surrogate that follows it
    are read as one character: the string of the two surrogates U+D83D and
    U+DE00 comes back as the one character U+1F600. *)
Lemma surrogate_pair_joined :
  json.loads (json.dumps (json.PyStr [55357%N; 56832%N]))
  = Ok (json.PyStr [128512%N]).
Proof. vm_compute. reflexivity. Qed.

(** What is malformed is refused by the decoder. *)
Lemma loads_malformed (text : str) :
  malformed_snapshot text -> json.loads text = Raise JSONDecodeError.
Proof.
  intros [t Ht | flac m4a n Kflac Km4a Hn | flac m4a rest Kflac Km4a Hrest].
  - by apply loads_no_value.
  - by apply loads_cut_short.
  - by apply loads_extra_data.
Qed.

(** C3. Loading the snapshot that was saved for two lists of paths gives
    back the two lists, in their order.  The paths are any strings in which
    no high surrogate is directly followed by a low surrogate
    ([kept_by_json]); every path that the operating system gives is one
    ([path_strings_kept]).  Loading raises [FileNotFoundError] when there is
    no snapshot, and [JSONDecodeError], the error of the decoder, when the
    snapshot is malformed: when no value begins its text (the text is
    empty, blank, or begins with another character), when it is a saved
    snapshot cut short, and when it is a saved snapshot followed by other
    text. *)
Theorem index_store_round_trip (flac_files m4a_files : list str) (w : World) :
  forallb kept_by_json flac_files = true ->
  forallb kept_by_json m4a_files = true ->
  load_index (snd (save_index flac_files m4a_files w))
  = (Ok (py_str_list flac_files, py_str_list m4a_files),
     snd (save_index flac_files m4a_files w)) /\
  load_index (set_snapshot None w)
  = (Raise FileNotFoundError, set_snapshot None w) /\
  (forall text : str,
     malformed_snapshot text ->
     load_index (set_snapshot (Some text) w)
     = (Raise JSONDecodeError, set_snapshot (Some text) w)).
Proof.
  intros Kflac Km4a.
  split; [by apply load_saved_index |].
  split; [by rewrite load_index_eq |].
  intros text Htext. rewrite load_index_eq. cbn [set_snapshot snapshot].
  by rewrite loads_malformed.
Qed.

(** A path with a letter of Latin-1, a character of the basic plane, one
    above it and the stand-in of a byte that is not UTF-8 comes back as it
    was saved. *)
Lemma index_store_round_trip_witness :
  load_index (snd (save_index [path_of_many_planes] [] empty_world))
  = (Ok (py_str_list [path_of_many_planes], py_str_list []),
     snd (save_index [path_of_many_planes] [] empty_world)).
Proof.
  exact (proj1 (index_store_round_trip [path_of_many_planes] [] empty_world
                  eq_refl eq_refl)).
Defined.

(** After indexing, the snapshot loads as the two lists just returned. *)
Lemma index_then_load (tree : Dir) (w : World) (idx : Index) (w' : World) :
  index_music_files tree w = (Ok idx, w') ->
  forallb kept_by_json (fst idx) = true ->
  forallb kept_by_json (snd idx) = true ->
  load_index w' = (Ok (py_str_list (fst idx), py_str_list (snd idx)), w').
Proof.
  unfold index_music_files, bind, print, modify, ret.
  destruct (for_each _ _ _ _) as [[idx'|e] w1]; [| discriminate].
  intros [= <- <-]. apply load_saved_index.
Qed.

(** Text that is JSON of another shape is not an error of the decoder: the
    lookup of the two keys raises [TypeError] or [KeyError]. *)
Lemma load_index_other_shapes :
  fst (load_index (set_snapshot (Some ("[]" : str)) empty_world))
  = Raise TypeError /\
  fst (load_index (set_snapshot (Some ("{}" : str)) empty_world))
  = Raise KeyError.
Proof. split; vm_compute; reflexivity. Qed.

(** ** The batch *)

Lemma getitem_5 (parts : list str) :
  (5 <? Py.len parts) = true ->
  exists artist, parts !! 5%nat = Some artist /\ Py.getitem parts 5 = Ok artist.
Proof.
  unfold Py.len. intros H. apply Z.ltb_lt in H.
  destruct (parts !! 5%nat) as [a|] eqn:E.
  - exists a. split; [done |]. unfold Py.getitem.
    change (5 <? 0) with false. cbv iota.
    change (Z.to_nat 5) with 5%nat. by rewrite E.
  - apply lookup_ge_None in E. lia.
Qed.

Lemma process_file_not_selected env artists cdir dry file t w :
  selected artists file = false ->
  process_file env artists cdir dry file t w = (Ok t, w).
Proof.
  unfold selected, process_file. intros Hsel.
  destruct (5 <? Py.len (Py.split "/" file)) eqn:Hlen; [| done].
  destruct (getitem_5 _ Hlen) as [artist [Ha Hg]].
  rewrite Ha in Hsel. rewrite Hg. unfold bind, lift. by rewrite Hsel.
Qed.

Lemma selected_false artists file :
  (length (Py.split "/" file) <= 5)%nat \/
  (exists artist, Py.split "/" file !! 5%nat = Some artist /\ artist ∉ artists) ->
  selected artists file = false.
Proof.
  unfold selected. intros [Hlen | [artist [-> Hnot]]].
  - rewrite lookup_ge_None_2; [done | lia].
  - by apply bool_decide_eq_false_2.
Qed.

Lemma for_each_skip {A S} (body : A -> S -> M S) (before after : list A)
    (x : A) (acc : S) (w : World) :
  (forall acc w, body x acc w = (Ok acc, w)) ->
  for_each (before ++ x :: after) body acc w
  = for_each (before ++ after) body acc w.
Proof.
  intros Hx. revert acc w. induction before as [|y before IH]; intros acc w.
  - cbn [app for_each]. unfold bind. by rewrite Hx.
  - cbn [app for_each]. unfold bind.
    destruct (body y acc w) as [[acc'|e] w']; [apply IH | done].
Qed.

Lemma only_dirs_grow_refl (w : World) : only_dirs_grow w w.
Proof. by repeat split. Qed.

Lemma only_dirs_grow_trans (w1 w2 w3 : World) :
  only_dirs_grow w1 w2 -> only_dirs_grow w2 w3 -> only_dirs_grow w1 w3.
Proof.
  unfold only_dirs_grow. intros (?&?&?&?&?&?&?&?) (?&?&?&?&?&?&?&?).
  repeat split; try congruence. set_solver.
Qed.

Lemma mkdir_frame (name : str) (w : World) :
  only_dirs_grow w (snd (mkdir name w)).
Proof.
  unfold mkdir. repeat case_match; cbn [snd]; try apply only_dirs_grow_refl.
  repeat split; cbn. set_solver.
Qed.

Lemma makedirs_fuel_frame (fuel : nat) (name : str) (w : World) :
  only_dirs_grow w (snd (makedirs_fuel fuel name w)).
Proof.
  revert name w. induction fuel as [|fuel IH]; intros name w.
  - apply only_dirs_grow_refl.
  - cbn [makedirs_fuel].
    destruct (posixpath.split name) as [head tail].
    destruct (if bool_decide (tail = []) then posixpath.split head
              else (head, tail)) as [head' tail'].
    assert (Hlast : forall w0, only_dirs_grow w0
              (snd (try_except (mkdir name)
                 (fun e => Some (fun w1 =>
                    if bool_decide (name ∈ dirs w1) then (Ok tt, w1)
                    else (Raise e, w1))) w0))).
    { intros w0. unfold try_except. pose proof (mkdir_frame name w0) as Hm.
      destruct (mkdir name w0) as [[[]|e] w1]; cbn [snd] in *; [done |].
      by destruct (bool_decide (name ∈ dirs w1)). }
    unfold bind at 1. unfold gets.
    destruct (negb (bool_decide (head' = [])) && negb (bool_decide (tail' = []))
              && negb (exists_ head' w)).
    + unfold bind, try_except, ret. pose proof (IH head' w) as Hh.
      destruct (makedirs_fuel fuel head' w) as [[[]|e] w1]; cbn [snd] in Hh.
      * destruct (bool_decide (tail' = ".")); [done |].
        eapply only_dirs_grow_trans; [exact Hh | apply Hlast].
      * destruct e; try done.
        destruct (bool_decide (tail' = ".")); [done |].
        eapply only_dirs_grow_trans; [exact Hh | apply Hlast].
    + unfold bind, ret. apply Hlast.
Qed.

Lemma makedirs_frame (name : str) (w : World) :
  only_dirs_grow w (snd (makedirs name w)).
Proof. apply makedirs_fuel_frame. Qed.

(** ** [makedirs] has fuel enough *)

Lemma lstrip_sep_length (s : str) :
  (length (posixpath.lstrip_sep s) <= length s)%nat.
Proof.
  induction s as [|c s IH]; [done |]. cbn [posixpath.lstrip_sep].
  destruct (N.eqb c "/"%char); cbn [length]; lia.
Qed.

Lemma rstrip_sep_length (s : str) :
  (length (posixpath.rstrip_sep s) <= length s)%nat.
Proof.
  unfold posixpath.rstrip_sep. rewrite length_rev.
  etransitivity; [apply lstrip_sep_length |]. by rewrite length_rev.
Qed.

Lemma tail_rev_length (r t h : str) :
  posixpath.tail_rev r = (t, h) -> (length t + length h = length r)%nat.
Proof.
  revert t h. induction r as [|c r IH]; intros t h; cbn [posixpath.tail_rev].
  - by intros [= <- <-].
  - destruct (N.eqb c "/"%char); [by intros [= <- <-] |].
    destruct (posixpath.tail_rev r) as [t' h'].
    intros [= <- <-]. cbn [length]. rewrite <- (IH t' h' eq_refl). lia.
Qed.

Lemma split_length (p head tail : str) :
  posixpath.split p = (head, tail) ->
  (length head + length tail <= length p)%nat.
Proof.
  unfold posixpath.split.
  destruct (posixpath.tail_rev (rev p)) as [t h] eqn:E.
  apply tail_rev_length in E. rewrite length_rev in E.
  intros [= <- <-]. rewrite length_rev.
  pose proof (rstrip_sep_length (rev h)) as Hr. rewrite length_rev in Hr.
  destruct (bool_decide _); rewrite ?length_rev; lia.
Qed.

Lemma makedirs_fuel_enough (fuel : nat) (name : str) (w : World) :
  (length name < fuel)%nat ->
  fst (makedirs_fuel fuel name w) <> Raise OutOfFuel.
Proof.
  revert name w. induction fuel as [|fuel IH]; intros name w Hfuel; [lia |].
  cbn [makedirs_fuel].
  destruct (posixpath.split name) as [head tail] eqn:Es.
  apply split_length in Es.
  destruct (if bool_decide (tail = []) then posixpath.split head
            else (head, tail)) as [head' tail'] eqn:Es'.
  assert (Hlen : (length head' + length tail' <= length name)%nat).
  { destruct (bool_decide (tail = [])).
    - apply split_length in Es'. lia.
    - injection Es' as <- <-. lia. }
  assert (Hlast : forall w0,
            fst (try_except (mkdir name)
                   (fun e => Some (fun w1 =>
                      if bool_decide (name ∈ dirs w1) then (Ok tt, w1)
                      else (Raise e, w1))) w0) <> Raise OutOfFuel).
  { intros w0. unfold try_except, mkdir.
    repeat case_match; simplify_eq; cbn [fst]; discriminate. }
  unfold bind at 1. unfold gets.
  destruct (negb (bool_decide (head' = [])) && negb (bool_decide (tail' = []))
            && negb (exists_ head' w)) eqn:Hrec.
  - assert (Hshort : (length head' < fuel)%nat).
    { destruct tail' as [|c tail']; [| cbn [length] in Hlen; lia].
      exfalso. destruct (bool_decide (head' = [])); cbn in Hrec; discriminate. }
    unfold bind, try_except, ret. pose proof (IH head' w Hshort) as Hh.
    destruct (makedirs_fuel fuel head' w) as [[[]|e] w1]; cbn [fst] in Hh.
    + destruct (bool_decide (tail' = ".")); [discriminate | apply Hlast].
    + destruct e; try done.
      destruct (bool_decide (tail' = ".")); [discriminate | apply Hlast].
  - unfold bind, ret. apply Hlast.
Qed.

(** A regular file where a directory of the path should stand:
    [makedirs] stops with [NotADirectoryError]. *)
Lemma makedirs_below_file :
  fst (makedirs (flac_converted_dir ++ "/Lib/Art/Alb")
         (set_files (fun f => <[ (flac_converted_dir ++ "/Lib" : str) := 1%N ]> f)
                    example_world))
  = Raise NotADirectoryError.
Proof. vm_compute. reflexivity. Qed.

Lemma makedirs_never_out_of_fuel (name : str) (w : World) :
  fst (makedirs name w) <> Raise OutOfFuel.
Proof. apply makedirs_fuel_enough. lia. Qed.

#[local] Opaque makedirs.

Ltac unfold_step :=
  unfold process_file, convert_file, run_ffmpeg, calculate_size, shutil_move,
    logging_info, logging_error, error_logger_error, try_except, bind, lift,
    ret, raise, modify, gets.

Ltac frame_makedirs n w :=
  let Hm := fresh "Hm" in
  let rm := fresh "rm" in
  let wm := fresh "wm" in
  pose proof (makedirs_frame n w) as Hm;
  destruct (makedirs n w) as [rm wm];
  cbn [snd] in Hm;
  destruct Hm as (?&?&?&?&?&?&?&?).

Ltac step_cases :=
  repeat (cbv beta in *; cbn [fst snd] in *;
    match goal with
    | H : context [makedirs ?n ?w] |- _ => frame_makedirs n w
    | |- context [makedirs ?n ?w] => frame_makedirs n w
    | _ => case_match; simplify_eq
    end).


Lemma selected_getitem (artists : list str) (file a : str) :
  Py.getitem (Py.split "/" file) 5 = Ok a ->
  selected artists file = bool_decide (a ∈ artists).
Proof.
  unfold Py.getitem, selected. change (5 <? 0) with false. cbv iota.
  change (Z.to_nat 5) with 5%nat.
  destruct (Py.split "/" file !! 5%nat); [by intros [= ->] | discriminate].
Qed.

Ltac world_eqs :=
  cbn [fst snd files dirs snapshot main_log errors_log stdout spawned moved
       set_files set_dirs set_snapshot add_main_log add_errors_log
       add_stdout add_spawned add_moved] in *;
  repeat match goal with
  | H : ?f ?w = _ |- context [?f ?w] => is_var w; rewrite H
  end.

Lemma logs_extend_refl (w : World) : logs_extend w w.
Proof. split; [done |]. exists []. by rewrite app_nil_r. Qed.

Lemma logs_extend_trans (w1 w2 w3 : World) :
  logs_extend w1 w2 -> logs_extend w2 w3 -> logs_extend w1 w3.
Proof.
  intros [Hs1 [m1 [Hm1 Hf1]]] [Hs2 [m2 [Hm2 Hf2]]].
  split; [congruence |]. exists (m1 ++ m2).
  split; [by rewrite Hm2, Hm1, app_assoc | by apply Forall_app].
Qed.

Lemma logs_extend_msgs (w w' : World) (msgs : list LogMsg) :
  stdout w' = stdout w -> main_log w' = main_log w ++ msgs ->
  forallb (fun m => negb (is_report m)) msgs = true ->
  logs_extend w w'.
Proof.
  intros Hs Hm Hf. split; [done |]. exists msgs. split; [done |].
  apply Forall_forall. intros m Hin.
  rewrite forallb_forall in Hf. apply list_elem_of_In, Hf in Hin.
  by destruct (is_report m).
Qed.

Lemma process_file_logs env artists cdir dry file t w :
  logs_extend w (snd (process_file env artists cdir dry file t w)).
Proof.
  unfold_step. step_cases.
  all: try apply logs_extend_refl.
  all: eapply logs_extend_msgs;
    [world_eqs; done
    | world_eqs; rewrite <- ?app_assoc;
      first [reflexivity | symmetry; apply app_nil_r]
    | reflexivity].
Qed.

Lemma for_each_preserves {A S} (R : World -> World -> Prop)
    (body : A -> S -> M S) (l : list A) :
  (forall w, R w w) -> (forall w1 w2 w3, R w1 w2 -> R w2 w3 -> R w1 w3) ->
  (forall x acc w, x ∈ l -> R w (snd (body x acc w))) ->
  forall acc w, R w (snd (for_each l body acc w)).
Proof.
  intros Hrefl Htrans. induction l as [|x l IH]; intros Hbody acc w.
  - apply Hrefl.
  - cbn [for_each]. unfold bind.
    pose proof (Hbody x acc w ltac:(left)) as Hx.
    destruct (body x acc w) as [[acc'|e] w1]; cbn [snd] in *; [| done].
    eapply Htrans; [exact Hx |]. apply IH. intros; apply Hbody. by right.
Qed.

Lemma process_file_dry env artists cdir file t w :
  files_untouched w (snd (process_file env artists cdir true file t w)).
Proof.
  unfold_step. step_cases.
  all: repeat split; world_eqs; done.
Qed.

Lemma files_untouched_refl (w : World) : files_untouched w w.
Proof. by repeat split. Qed.

Lemma files_untouched_trans (w1 w2 w3 : World) :
  files_untouched w1 w2 -> files_untouched w2 w3 -> files_untouched w1 w3.
Proof.
  unfold files_untouched. intros (?&?&?&?&?) (?&?&?&?&?).
  repeat split; congruence.
Qed.


Lemma process_file_world env artists cdir dry file t t0 w :
  snd (process_file env artists cdir dry file t w)
  = snd (process_file env artists cdir dry file t0 w).
Proof.
  unfold_step. step_cases. all: reflexivity.
Qed.

Lemma selected_short (artists : list str) (file : str) :
  (5 <? Py.len (Py.split "/" file)) = false -> selected artists file = false.
Proof.
  unfold Py.len, selected. intros H. apply Z.ltb_ge in H.
  rewrite lookup_ge_None_2; [done | lia].
Qed.

Ltac decide_selected artists :=
  match goal with
  | H : Py.getitem _ 5 = Ok _ |- _ =>
      rewrite (selected_getitem artists _ _ H)
  | H : (5 <? Py.len _) = false |- _ =>
      rewrite (selected_short artists _ H)
  end.

Ltac use_lookups :=
  cbn [fst snd files dirs snapshot main_log errors_log stdout spawned
       moved set_files set_dirs set_snapshot add_main_log add_errors_log
       add_stdout add_spawned add_moved] in *;
  repeat match goal with
  | H : ?l = Some _ |- context [?l] => rewrite H
  | H : ?l = None |- context [?l] => rewrite H
  | H : ?l = true |- context [?l] => rewrite H
  | H : ?l = false |- context [?l] => rewrite H
  end.

Lemma process_file_totals env artists cdir file t w t' w' :
  process_file env artists cdir false file t w = (Ok t', w') ->
  total_original_size t'
  = total_original_size t + original_total (file_outcomes env artists file w w')
  /\ total_converted_size t'
     = total_converted_size t
       + converted_total (file_outcomes env artists file w w').
Proof.
  unfold_step. intros Hrun. step_cases.
  all: unfold file_outcomes; decide_selected artists; use_lookups.
  all: cbn; lia.
Qed.

Lemma original_total_app (l1 l2 : list Outcome) :
  original_total (l1 ++ l2) = original_total l1 + original_total l2.
Proof.
  unfold original_total. induction l1 as [|oc l1 IH]; [done |].
  cbn [app foldr]. rewrite IH. lia.
Qed.

Lemma converted_total_app (l1 l2 : list Outcome) :
  converted_total (l1 ++ l2) = converted_total l1 + converted_total l2.
Proof.
  unfold converted_total. induction l1 as [|oc l1 IH]; [done |].
  cbn [app foldr]. rewrite IH. lia.
Qed.

Lemma for_each_totals env artists cdir files t w t' w' :
  for_each files (process_file env artists cdir false) t w = (Ok t', w') ->
  total_original_size t'
  = total_original_size t
    + original_total (conversion_outcomes env artists cdir files w)
  /\ total_converted_size t'
     = total_converted_size t
       + converted_total (conversion_outcomes env artists cdir files w).
Proof.
  revert t w. induction files as [|file files IH]; intros t w.
  - cbn. intros [= <- <-]. cbn. lia.
  - cbn [for_each conversion_outcomes]. unfold bind.
    rewrite (process_file_world env artists cdir false file (mkTotals 0 0) t w).
    destruct (process_file env artists cdir false file t w) as [[t1|e] w1] eqn:E;
      [| discriminate].
    intros Hrest. apply process_file_totals in E as [E1 E2].
    apply IH in Hrest as [R1 R2]. cbn [snd].
    rewrite original_total_app, converted_total_app. lia.
Qed.


Lemma file_kept_refl (file : str) (w : World) : file_kept file w w.
Proof. by split. Qed.

Lemma file_kept_trans (file : str) (w1 w2 w3 : World) :
  file_kept file w1 w2 -> file_kept file w2 w3 -> file_kept file w1 w3.
Proof. intros [? ?] [? ?]. split; auto. Qed.

Lemma convert_file_failure env input output w :
  returncode (ffmpeg env (files w) input output) <> 0 ->
  exists w' cmd rc,
    convert_file env input output false w = (Ok false, w') /\ rc <> 0 /\
    errors_log w' = errors_log w ++ [ErrorConverting input cmd rc] /\
    main_log w' = main_log w ++ [ErrorConverting input cmd rc] /\
    spawned w' = spawned w ++ [(cmd, rc)] /\
    moved w' = moved w /\ dirs w' = dirs w /\ stdout w' = stdout w /\
    (forall p, p <> output -> files w' !! p = files w !! p) /\
    (forall p, is_Some (files w !! p) -> is_Some (files w' !! p)).
Proof.
  intros Hrc. unfold_step.
  destruct (Z.eqb_spec (returncode (ffmpeg env (files w) input output)) 0)
    as [E | _]; [done |].
  destruct (output_size (ffmpeg env (files w) input output)) as [n|];
    (eexists _, _, _; split; [reflexivity |]; split; [exact Hrc |]);
    cbn; repeat split; try done.
  - intros p Hp. by rewrite lookup_insert_ne.
  - intros p Hp. destruct (decide (output = p)) as [-> | Hne];
      [by rewrite lookup_insert_eq | by rewrite lookup_insert_ne].
Qed.

Lemma convert_file_success env input output w :
  returncode (ffmpeg env (files w) input output) = 0 ->
  exists w', convert_file env input output false w = (Ok true, w') /\
             errors_log w' = errors_log w /\ main_log w' = main_log w.
Proof.
  intros Hrc. unfold_step. rewrite Hrc. cbn.
  destruct (output_size (ffmpeg env (files w) input output));
    (eexists; split; [reflexivity | by split]).
Qed.

Lemma process_file_failure env artists cdir file t w n :
  selected artists file = true ->
  files w !! file = Some n ->
  returncode (ffmpeg env (files w) file (output_file_of file)) <> 0 ->
  exists w' cmd rc,
    process_file env artists cdir false file t w
    = (Ok (mkTotals (total_original_size t + Z.of_N n)
                    (total_converted_size t)), w') /\
    rc <> 0 /\
    errors_log w' = errors_log w ++ [ErrorConverting file cmd rc] /\
    main_log w'
    = main_log w ++ [ErrorConverting file cmd rc; FailedToConvert false file] /\
    moved w' = moved w /\ dirs w' = dirs w /\
    is_Some (files w' !! file) /\
    (forall p, p <> output_file_of file -> files w' !! p = files w !! p).
Proof.
  intros Hsel Hfile Hrc.
  destruct (convert_file_failure env file (output_file_of file) w Hrc)
    as (w1 & cmd & rc & Hconv & Hrc' & He & Hm & _ & Hmv & Hd & _ & Hother & Hkeep).
  unfold process_file.
  destruct (5 <? Py.len (Py.split "/" file)) eqn:Hlen;
    [| by rewrite (selected_short artists file Hlen) in Hsel].
  destruct (getitem_5 _ Hlen) as [artist [Ha Hg]].
  rewrite (selected_getitem artists file artist Hg) in Hsel.
  unfold bind at 1. rewrite Hg. unfold lift at 1. rewrite Hsel.
  unfold bind at 1. unfold calculate_size at 1. rewrite Hfile.
  unfold bind at 1. rewrite Hconv.
  unfold bind, logging_error, modify, ret.
  eexists _, cmd, rc. split; [reflexivity |]. cbn.
  rewrite He, Hm, Hmv, Hd, <- app_assoc. repeat split; try done.
  apply Hkeep. by rewrite Hfile.
Qed.

Ltac keep_lookup :=
  repeat match goal with
  | |- is_Some (<[?k := _]> _ !! ?p) =>
      destruct (decide (k = p)) as [-> | ?];
      [rewrite lookup_insert_eq; eauto | rewrite lookup_insert_ne by done]
  | |- is_Some (delete ?k _ !! ?p) => rewrite lookup_delete_ne by done
  end.

Lemma process_file_keeps env artists cdir file file' t w :
  (forall fs, returncode (ffmpeg env fs file (output_file_of file)) <> 0) ->
  file_kept file w (snd (process_file env artists cdir false file' t w)).
Proof.
  intros Hfail. unfold_step.
  step_cases;
    try apply file_kept_refl;
    try match goal with
        | H : (returncode (ffmpeg env ?fs file' _) =? 0) = true |- _ =>
            assert (file' <> file)
              by (intros ->; apply Z.eqb_eq in H; by apply (Hfail fs))
        end;
    (split; use_lookups;
     repeat match goal with
     | H : ?f ?w = _ |- context [?f ?w] => is_var w; rewrite H
     end);
    try done;
    try (intros dst Hin; apply elem_of_app in Hin as [Hin | Hin];
         [done | apply list_elem_of_singleton in Hin; congruence]);
    (intros [x Hx]; keep_lookup; eauto).
Qed.

(** C4.  Outside dry-run, when the batch ends normally, the report printed
    and logged at its end gives: as total original size the sum of the
    sizes of the originals of every file whose conversion was attempted,
    as total converted size the sum of the sizes of the converted files of
    those whose conversion succeeded, and as space saved their difference in
    [Z], whatever its sign.  In dry-run the batch prints nothing and logs no
    report line. *)
Theorem run_report (env : Env) (files : list str)
    (convert_artists : list str) (converted_dir : str) (w : World) :
  (fst (process_files env files convert_artists converted_dir false w) = Ok tt ->
   let w' := snd (process_files env files convert_artists converted_dir false w) in
   let outcomes :=
     conversion_outcomes env convert_artists converted_dir files w in
   let original := original_total outcomes in
   let converted := converted_total outcomes in
   stdout w'
   = stdout w ++ [TotalOriginalMB original; TotalConvertedMB converted;
                  SpaceSavedMB (original - converted)] /\
   exists msgs,
     main_log w'
     = main_log w ++ msgs
       ++ [TotalOriginalBytes original; TotalConvertedBytes converted;
           SpaceSavedBytes (original - converted)] /\
     Forall (fun m => is_report m = false) msgs) /\
  logs_extend w (snd (process_files env files convert_artists converted_dir true w)).
Proof.
  split.
  - unfold process_files, bind.
    pose proof (for_each_preserves logs_extend
                  (process_file env convert_artists converted_dir false) files
                  logs_extend_refl logs_extend_trans
                  (fun x acc w _ => process_file_logs env convert_artists
                                      converted_dir false x acc w)
                  (mkTotals 0 0) w) as Hlogs.
    destruct (for_each files _ _ w) as [[t|e] w1] eqn:Hrun; [| discriminate].
    intros _. apply for_each_totals in Hrun as [Ho Hc].
    destruct Hlogs as [Hout [msgs [Hmsgs Hall]]].
    cbn [snd] in Hout, Hmsgs. cbn [total_original_size total_converted_size] in Ho, Hc.
    rewrite !Z.add_0_l in Ho, Hc.
    cbn. rewrite Ho, Hc, Hout, Hmsgs. split.
    + by rewrite <- !app_assoc.
    + exists msgs. split; [by rewrite <- !app_assoc | done].
  - unfold process_files, bind.
    pose proof (for_each_preserves logs_extend
                  (process_file env convert_artists converted_dir true) files
                  logs_extend_refl logs_extend_trans
                  (fun x acc w _ => process_file_logs env convert_artists
                                      converted_dir true x acc w)
                  (mkTotals 0 0) w) as Hlogs.
    destruct (for_each files _ _ w) as [[t|e] w1]; exact Hlogs.
Qed.

Lemma run_report_witness :
  let w' := snd (process_files env_growing [track_a; track_other; track_live]
                   ["Art" : str] flac_converted_dir false example_world) in
  stdout w' = [TotalOriginalMB 110; TotalConvertedMB 130; SpaceSavedMB (-20)] /\
  exists msgs,
    main_log w'
    = msgs ++ [TotalOriginalBytes 110; TotalConvertedBytes 130;
               SpaceSavedBytes (-20)] /\
    Forall (fun m => is_report m = false) msgs.
Proof.
  apply (proj1 (run_report env_growing [track_a; track_other; track_live]
                  ["Art" : str] flac_converted_dir example_world)).
  vm_compute. reflexivity.
Defined.

(** C5.  In dry-run the batch leaves the files as they are, starts no
    process and moves no file, and the converter only logs its line and
    returns [True]; but the directory of the relocation target is created
    all the same: on [example_world] the dry run of [track_a] creates
    [FLAC_CONVERTED/Lib/Art/Alb] and its parents. *)
Theorem dry_run_creates_directories :
  (forall env files convert_artists converted_dir w,
     files_untouched w
       (snd (process_files env files convert_artists converted_dir true w))) /\
  (forall env input_file output_file w,
     convert_file env input_file output_file true w
     = (Ok true, add_main_log (DryWouldConvert input_file output_file) w)) /\
  (let run := process_files env_failing [track_a] ["Art" : str]
                            flac_converted_dir true example_world in
   let created : str := "/Volumes/Media/Music/FLAC_CONVERTED/Lib/Art/Alb" in
   fst run = Ok tt /\
   (created ∉ dirs example_world) /\
   (created ∈ dirs (snd run))).
Proof.
  split; [| split].
  - intros env files artists cdir w. unfold process_files, bind.
    pose proof (for_each_preserves files_untouched
                  (process_file env artists cdir true) files
                  files_untouched_refl files_untouched_trans
                  (fun x acc w _ => process_file_dry env artists cdir x acc w)
                  (mkTotals 0 0) w) as Hdry.
    destruct (for_each files _ _ w) as [[t|e] w1]; exact Hdry.
  - reflexivity.
  - cbv zeta. split; [vm_compute; reflexivity |].
    split; apply (bool_decide_unpack _); vm_compute; exact I.
Qed.

(** C9.  The output path is the input path in which every occurrence of
    [.flac], then of [.m4a], is replaced by [.mp3]: for a track in a
    directory whose name ends in [.flac] the output lies in another
    directory than the original; for a path whose only occurrence is its
    extension it lies beside it. *)
Theorem output_file_not_beside_original :
  output_file_of track_live = "/Volumes/Media/Music/Lib/Art/Live.mp3/t.mp3" /\
  posixpath.dirname track_live = "/Volumes/Media/Music/Lib/Art/Live.flac" /\
  posixpath.dirname (output_file_of track_live)
  = "/Volumes/Media/Music/Lib/Art/Live.mp3" /\
  output_file_of track_a = "/Volumes/Media/Music/Lib/Art/Alb/t.mp3".
Proof. repeat split; vm_compute; reflexivity. Qed.

(** C10.  A file whose path has 5 segments or fewer, or whose segment at
    index 5 is not among the selected artists, leaves the totals and the
    whole world (files, directories, logs, processes, moves) as they were,
    in either mode; the batch runs as if the file were not listed. *)
Theorem process_file_skips (env : Env) (convert_artists : list str)
    (converted_dir : str) (dry_run : bool) (file : str) :
  (length (Py.split "/" file) <= 5)%nat \/
  (exists artist, Py.split "/" file !! 5%nat = Some artist /\
                  artist ∉ convert_artists) ->
  (forall t w,
     process_file env convert_artists converted_dir dry_run file t w
     = (Ok t, w)) /\
  (forall before after w,
     process_files env (before ++ file :: after) convert_artists
                   converted_dir dry_run w
     = process_files env (before ++ after) convert_artists
                     converted_dir dry_run w).
Proof.
  intros Hskip. apply (selected_false convert_artists) in Hskip.
  split; [intros; by apply process_file_not_selected |].
  intros before after w. unfold process_files, bind.
  rewrite for_each_skip; [done |].
  intros; by apply process_file_not_selected.
Qed.

Lemma process_file_skips_witness :
  (forall t w,
     process_file env_growing ["Art" : str] flac_converted_dir false
                  track_other t w = (Ok t, w)) /\
  (forall before after w,
     process_files env_growing (before ++ track_other :: after) ["Art" : str]
                   flac_converted_dir false w
     = process_files env_growing (before ++ after) ["Art" : str]
                     flac_converted_dir false w).
Proof.
  apply (process_file_skips env_growing ["Art" : str] flac_converted_dir false
           track_other).
  right. exists ("Bob" : str). split; [reflexivity |].
  apply (bool_decide_unpack _). vm_compute. exact I.
Defined.

(** C6.  When the transcoder exits with a non-zero status on [file], in
    live mode the converter then returns [False] after logging an error
    line that names [file]; the turn of [file] in the batch adds its size
    to the total original size only, moves nothing, creates no directory,
    leaves [file] where it is and every path other than the output path as
    it was, and the loop goes on with the next file; after the whole
    batch [file] is still at its path and no move of [file] was made.  On
    exit status zero the converter returns [True] and logs no error. *)
Theorem failed_conversion_keeps_file (env : Env) (convert_artists : list str)
    (converted_dir file : str) :
  (forall w,
     returncode (ffmpeg env (files w) file (output_file_of file)) <> 0 ->
     exists w' cmd rc,
       convert_file env file (output_file_of file) false w = (Ok false, w') /\
       rc <> 0 /\
       errors_log w' = errors_log w ++ [ErrorConverting file cmd rc]) /\
  (forall t w n,
     selected convert_artists file = true ->
     files w !! file = Some n ->
     returncode (ffmpeg env (files w) file (output_file_of file)) <> 0 ->
     exists w' cmd rc,
       process_file env convert_artists converted_dir false file t w
       = (Ok (mkTotals (total_original_size t + Z.of_N n)
                       (total_converted_size t)), w') /\
       (forall rest,
          for_each (file :: rest)
            (process_file env convert_artists converted_dir false) t w
          = for_each rest
              (process_file env convert_artists converted_dir false)
              (mkTotals (total_original_size t + Z.of_N n)
                        (total_converted_size t)) w') /\
       rc <> 0 /\
       errors_log w' = errors_log w ++ [ErrorConverting file cmd rc] /\
       main_log w'
       = main_log w
         ++ [ErrorConverting file cmd rc; FailedToConvert false file] /\
       moved w' = moved w /\ dirs w' = dirs w /\
       is_Some (files w' !! file) /\
       (forall p, p <> output_file_of file -> files w' !! p = files w !! p)) /\
  ((forall fs, returncode (ffmpeg env fs file (output_file_of file)) <> 0) ->
   forall files w,
     file_kept file w
       (snd (process_files env files convert_artists converted_dir false w))) /\
  (forall env' input_file output_file w,
     returncode (ffmpeg env' (files w) input_file output_file) = 0 ->
     exists w',
       convert_file env' input_file output_file false w = (Ok true, w') /\
       errors_log w' = errors_log w).
Proof.
  repeat apply conj.
  - intros w Hrc.
    destruct (convert_file_failure env file (output_file_of file) w Hrc)
      as (w' & cmd & rc & H1 & H2 & H3 & _).
    by exists w', cmd, rc.
  - intros t w n Hsel Hfile Hrc.
    destruct (process_file_failure env convert_artists converted_dir file t w n
                Hsel Hfile Hrc)
      as (w' & cmd & rc & Hrun & Hrest).
    exists w', cmd, rc. split; [done |]. split; [| done].
    intros rest. cbn [for_each]. unfold bind. by rewrite Hrun.
  - intros Hfail files w. unfold process_files, bind.
    pose proof (for_each_preserves (file_kept file)
                  (process_file env convert_artists converted_dir false) files
                  (file_kept_refl file) (file_kept_trans file)
                  (fun x acc w _ => process_file_keeps env convert_artists
                                      converted_dir file x acc w Hfail)
                  (mkTotals 0 0) w) as Hkept.
    destruct (for_each files _ _ w) as [[t|e] w1]; exact Hkept.
  - intros env' input output w Hrc.
    destruct (convert_file_success env' input output w Hrc) as (w' & H1 & H2 & _).
    by exists w'.
Qed.

Lemma failed_conversion_keeps_file_witness :
  file_kept track_a example_world
    (snd (process_files env_failing [track_a; track_other] ["Art" : str]
                        flac_converted_dir false example_world)).
Proof.
  refine (proj1 (proj2 (proj2
            (failed_conversion_keeps_file env_failing ["Art" : str]
               flac_converted_dir track_a))) _ _ _).
  intros fs. cbn. discriminate.
Defined.

(** ** The selector: numbers, bounds and the menu *)

Lemma digit_char_facts (c : ascii) :
  is_Some (Py.digit_value c) ->
  Py.isdigit_char c = true /\ Py.isspace_char c = false /\
  c <> ","%char /\ c <> "-"%char /\ c <> "+"%char /\
  Py.lower_char c <> "a"%char /\ Py.lower_char c <> "l"%char.
Proof.
  destruct c as [[] [] [] [] [] [] [] []]; intros [d H]; vm_compute in H;
    try discriminate H; repeat split; discriminate.
Qed.

Lemma digit_value_render (d : Z) :
  0 <= d <= 9 ->
  Py.digit_value (ascii_of_N (Z.to_N (48 + d))) = Some d.
Proof.
  intros Hd.
  assert (d = 0 \/ d = 1 \/ d = 2 \/ d = 3 \/ d = 4 \/ d = 5 \/ d = 6 \/
          d = 7 \/ d = 8 \/ d = 9) as H by lia.
  repeat (destruct H as [-> | H]; [reflexivity |]). subst. reflexivity.
Qed.

Lemma render_digits_app (fuel : nat) (n : Z) (acc : line) :
  render_digits fuel n acc = render_digits fuel n [] ++ acc.
Proof.
  revert n acc. induction fuel as [|fuel IH]; intros n acc; [done |].
  cbn [render_digits]. destruct (n <? 10); [done |].
  rewrite (IH _ (_ :: acc)), (IH _ [_]), <- app_assoc. done.
Qed.

Lemma int_body_snoc (x : line) (a : Z) (f : bool) (v : Z) (c : ascii) (d : Z) :
  Py.int_body a f x = Some v -> Py.digit_value c = Some d ->
  Py.int_body a f (x ++ [c]) = Some (10 * v + d).
Proof.
  intros Hx Hc. revert a f Hx. induction x as [|c' x IH]; intros a f Hx.
  - cbn in *. destruct f; [| discriminate]. injection Hx as ->.
    by rewrite Hc.
  - cbn [app Py.int_body] in *. destruct (Py.digit_value c'); [by apply IH |].
    destruct (Ascii.eqb c' "_" && f); [| discriminate].
    destruct x as [|c'' x]; [discriminate |]. by apply IH.
Qed.

(** The digits of a non-negative integer are decimal digits, and read back
    as the integer. *)
Lemma render_digits_spec (fuel : nat) (n : Z) :
  0 <= n -> (Z.to_nat n < fuel)%nat ->
  Py.int_body 0 false (render_digits fuel n []) = Some n /\
  Forall (fun c => is_Some (Py.digit_value c)) (render_digits fuel n []) /\
  render_digits fuel n [] <> [].
Proof.
  revert n. induction fuel as [|fuel IH]; intros n Hn Hfuel; [lia |].
  cbn [render_digits].
  assert (Hd : Py.digit_value (ascii_of_N (Z.to_N (48 + n mod 10)))
               = Some (n mod 10))
    by (apply digit_value_render; pose proof (Z.mod_pos_bound n 10); lia).
  destruct (Z.ltb_spec n 10) as [Hsmall | Hbig].
  - rewrite Z.mod_small in * by lia. split; [| split].
    + cbn. rewrite Hd. cbn. f_equal; lia.
    + constructor; [by rewrite Hd | constructor].
    + discriminate.
  - rewrite render_digits_app.
    assert (Hq : 0 <= n / 10 < n) by (split; [apply Z.div_pos | apply Z.div_lt]; lia).
    destruct (IH (n / 10)) as (Hv & Hall & Hne); [lia | lia |].
    split; [| split].
    + rewrite (int_body_snoc _ _ _ _ _ _ Hv Hd). f_equal.
      pose proof (Z.div_mod n 10). lia.
    + apply Forall_app. split; [done |]. constructor; [by rewrite Hd | constructor].
    + intros H. apply app_eq_nil in H as [_ H]. discriminate.
Qed.

Lemma lstrip_no_space (s : line) :
  Forall (fun c => Py.isspace_char c = false) s -> Py.lstrip s = s.
Proof. destruct 1 as [|c s Hc _]; [done |]. cbn. by rewrite Hc. Qed.

Lemma strip_no_space (s : line) :
  Forall (fun c => Py.isspace_char c = false) s -> Py.strip s = s.
Proof.
  intros H. unfold Py.strip, Py.rstrip. rewrite (lstrip_no_space s H).
  rewrite lstrip_no_space; [apply rev_involutive |].
  apply Forall_forall. intros c Hc. rewrite Forall_forall in H.
  apply H. by apply elem_of_rev.
Qed.

(** What a string of decimal digits is for the selector: a numeric token
    that [int] reads. *)
Lemma digits_token (s : line) (v : Z) :
  Forall (fun c => is_Some (Py.digit_value c)) s -> s <> [] ->
  Py.int_body 0 false s = Some v ->
  Py.strip s = s /\ Py.isdigit s = true /\ Py.int s = Ok v /\
  (","%char ∉ s) /\ Py.lower s <> latin1 "all".
Proof.
  intros Hall Hne Hv.
  assert (Hstrip : Py.strip s = s).
  { apply strip_no_space. eapply Forall_impl; [exact Hall |].
    intros c Hc. by apply digit_char_facts in Hc as (_ & ? & _). }
  split; [done |]. repeat split.
  - destruct s as [|c s]; [done |]. cbn [Py.isdigit].
    apply forallb_forall. intros x Hx. rewrite Forall_forall in Hall.
    apply list_elem_of_In, Hall, digit_char_facts in Hx. tauto.
  - unfold Py.int. rewrite Hstrip. destruct s as [|c s]; [done |].
    apply Forall_cons in Hall as [Hc _].
    apply digit_char_facts in Hc as (_ & _ & _ & Hm & Hp & _ & _).
    destruct (ascii_dec c "-") as [-> | _]; [done |].
    destruct (ascii_dec c "+") as [-> | _]; [done |].
    assert (Hbody : (let '(neg, body) :=
                       match c :: s with
                       | "-"%char :: r => (true, r)
                       | "+"%char :: r => (false, r)
                       | _ => (false, c :: s)
                       end in
                     match Py.int_body 0 false body with
                     | Some v => Ok (if neg : bool then - v else v)
                     | None => Raise ValueError
                     end) = Ok v).
    { destruct c as [[] [] [] [] [] [] [] []]; try done; by rewrite Hv. }
    exact Hbody.
  - intros Hin. rewrite Forall_forall in Hall.
    apply Hall, digit_char_facts in Hin. tauto.
  - destruct s as [|c s]; [done |]. apply Forall_cons in Hall as [Hc _].
    apply digit_char_facts in Hc as (_ & _ & _ & _ & _ & Ha & _).
    cbn. intros [= H _]. done.
Qed.

Lemma str_int_token (n : Z) :
  0 <= n ->
  Py.strip (str_int n) = str_int n /\ Py.isdigit (str_int n) = true /\
  Py.int (str_int n) = Ok n /\ (","%char ∉ str_int n) /\
  Py.lower (str_int n) <> latin1 "all".
Proof.
  intros Hn. unfold str_int. destruct (Z.ltb_spec n 0); [lia |].
  destruct (render_digits_spec (S (Z.to_nat n)) n) as (Hv & Hall & Hne);
    [lia | lia |].
  by apply digits_token.
Qed.

Lemma split_sep_concat (toks : list line) :
  toks <> [] -> (forall t, t ∈ toks -> ","%char ∉ t) ->
  Py.split_line "," (json.sep_concat (latin1 ",") toks) = toks.
Proof.
  induction toks as [|t [|t' toks] IH]; intros Hne Hplain; [done | |].
  - cbn. apply split_line_no_sep, Hplain. left.
  - change (json.sep_concat (latin1 ",") (t :: t' :: toks))
      with (t ++ ","%char :: json.sep_concat (latin1 ",") (t' :: toks)).
    rewrite split_line_app, split_line_no_sep by (apply Hplain; left).
    rewrite IH; [done | done |]. intros x Hx. apply Hplain. by right.
Qed.

Lemma elem_of_sep_concat (c : ascii) (sep : line) (toks : list line) :
  c ∈ json.sep_concat sep toks -> c ∈ sep \/ exists t, t ∈ toks /\ c ∈ t.
Proof.
  induction toks as [|t [|t' toks] IH]; intros Hc.
  - by apply elem_of_nil in Hc.
  - right. exists t. split; [left | done].
  - change (json.sep_concat sep (t :: t' :: toks))
      with (t ++ sep ++ json.sep_concat sep (t' :: toks)) in Hc.
    apply elem_of_app in Hc as [Hc | Hc]; [right; exists t; split; [left | done] |].
    apply elem_of_app in Hc as [Hc | Hc]; [by left |].
    destruct (IH Hc) as [? | (x & Hx & ?)]; [by left |].
    right. exists x. split; [by right | done].
Qed.

Lemma lstrip_subset (c : ascii) (s : line) : c ∈ Py.lstrip s -> c ∈ s.
Proof.
  induction s as [|a s IH]; [done |]. cbn.
  destruct (Py.isspace_char a); [intros H; right; auto | done].
Qed.

Lemma strip_subset (c : ascii) (s : line) : c ∈ Py.strip s -> c ∈ s.
Proof.
  unfold Py.strip, Py.rstrip. intros H.
  apply elem_of_rev, lstrip_subset, elem_of_rev, lstrip_subset in H. done.
Qed.

(** [l[i]] for an index that is not negative. *)
Lemma getitem_nonneg {A} (l : list A) (i : Z) :
  0 <= i ->
  Py.getitem l i = match l !! Z.to_nat i with
                   | Some x => Ok x
                   | None => Raise IndexError
                   end.
Proof.
  intros Hi. unfold Py.getitem.
  destruct (Z.ltb_spec i 0); [lia |]. destruct (Z.ltb_spec i 0); [lia | done].
Qed.

Lemma res_map_getitem_ok {A} (l : list A) (idx : list Z) :
  (forall i, i ∈ idx -> 0 <= i < Py.len l) ->
  exists items, res_map (fun i => Py.getitem l i) idx = Ok items /\
                Forall2 (fun i x => l !! Z.to_nat i = Some x) idx items.
Proof.
  induction idx as [|i idx IH]; intros Hidx.
  - exists []. split; [done | constructor].
  - destruct IH as (items & Hitems & Hall); [intros; apply Hidx; by right |].
    assert (Hi : 0 <= i < Py.len l) by (apply Hidx; left).
    destruct (l !! Z.to_nat i) as [x|] eqn:Hx.
    + exists (x :: items). cbn [res_map].
      rewrite getitem_nonneg, Hx, Hitems by lia. split; [done |].
      by constructor.
    + apply lookup_ge_None in Hx. unfold Py.len in Hi. lia.
Qed.

Lemma res_map_getitem_raise {A} (l : list A) (idx : list Z) :
  (forall i, i ∈ idx -> 0 <= i) ->
  (exists i, i ∈ idx /\ Py.len l <= i) ->
  res_map (fun i => Py.getitem l i) idx = Raise IndexError.
Proof.
  induction idx as [|i idx IH]; intros Hpos (j & Hj & Hbig).
  - by apply elem_of_nil in Hj.
  - cbn [res_map]. rewrite getitem_nonneg by (apply Hpos; left).
    destruct (l !! Z.to_nat i) as [x|] eqn:Hx; [| done]. cbn [res_bind].
    apply elem_of_cons in Hj as [-> | Hj].
    + apply lookup_lt_Some in Hx. unfold Py.len in Hbig.
      assert (0 <= i) by (apply Hpos; left). lia.
    + rewrite IH; [done | intros; apply Hpos; by right | by exists j].
Qed.

Lemma int_body_nonneg (s : line) (a : Z) (f : bool) (v : Z) :
  0 <= a -> Py.int_body a f s = Some v -> 0 <= v.
Proof.
  revert a f. induction s as [|c s IH]; intros a f Ha; cbn [Py.int_body].
  - destruct f; [by intros [= <-] | discriminate].
  - destruct (Py.digit_value c) as [d|] eqn:Hd.
    + apply IH. unfold Py.digit_value in Hd.
      destruct ((48 <=? Py.ord c) && (Py.ord c <=? 57)) eqn:E; [| discriminate].
      injection Hd as <-. lia.
    + destruct (Ascii.eqb c "_" && f); [| discriminate].
      destruct s; [discriminate | by apply IH].
Qed.

Lemma isdigit_char_facts (c : ascii) :
  Py.isdigit_char c = true ->
  Py.isspace_char c = false /\ c <> "-"%char /\ c <> "+"%char.
Proof.
  destruct c as [[] [] [] [] [] [] [] []]; vm_compute; intros H;
    try discriminate H; repeat split; discriminate.
Qed.

(** [int] of a token that passed [isdigit] is not negative. *)
Lemma int_isdigit_nonneg (t : line) (n : Z) :
  Py.isdigit t = true -> Py.int t = Ok n -> 0 <= n.
Proof.
  intros Hd. destruct t as [|c t]; [discriminate |].
  cbn [Py.isdigit] in Hd. rewrite forallb_forall in Hd.
  assert (Hstrip : Py.strip (c :: t) = c :: t).
  { apply strip_no_space, Forall_forall. intros x Hx.
    apply list_elem_of_In, Hd, isdigit_char_facts in Hx. tauto. }
  unfold Py.int. rewrite Hstrip.
  destruct (isdigit_char_facts c) as (_ & Hm & Hp); [apply Hd; left; done |].
  assert (Hbody : forall r : res Z,
            (let '(neg, body) :=
               match c :: t with
               | "-"%char :: r => (true, r)
               | "+"%char :: r => (false, r)
               | _ => (false, c :: t)
               end in
             match Py.int_body 0 false body with
             | Some v => Ok (if neg : bool then - v else v)
             | None => Raise ValueError
             end) = r ->
            match Py.int_body 0 false (c :: t) with
            | Some v => Ok v
            | None => Raise ValueError
            end = r).
  { destruct c as [[] [] [] [] [] [] [] []]; try done. }
  intros H. apply Hbody in H.
  destruct (Py.int_body 0 false (c :: t)) as [v|] eqn:Hv; [| discriminate].
  injection H as <-. by apply (int_body_nonneg (c :: t) 0 false).
Qed.

Lemma selected_indices_bound (choices : line) (idx : list Z) :
  selected_indices choices = Ok idx -> forall i, i ∈ idx -> -1 <= i.
Proof.
  unfold selected_indices.
  generalize (Py.split_line "," choices). intros toks. revert idx.
  induction toks as [|tok toks IH]; intros idx.
  - cbn. intros [= <-] i Hi. by apply elem_of_nil in Hi.
  - rewrite filter_cons. destruct (decide (Py.isdigit (Py.strip tok) = true)) as [Hd | Hd].
    + cbn [res_map].
      destruct (Py.int (Py.strip tok)) as [n|] eqn:Hn; [| discriminate].
      cbn [res_bind].
      destruct (res_map _ (filter _ toks)) as [rest|] eqn:Hrest; [| discriminate].
      cbn [res_bind]. intros [= <-] i Hi.
      apply elem_of_cons in Hi as [-> | Hi].
      * pose proof (int_isdigit_nonneg _ _ Hd Hn). lia.
      * by eapply IH.
    + apply IH.
Qed.

Lemma selected_indices_positions (positions : list Z) :
  positions <> [] -> (forall n, n ∈ positions -> 0 <= n) ->
  selected_indices (json.sep_concat (latin1 ",") (map str_int positions))
  = Ok (map (fun n => n - 1) positions).
Proof.
  intros Hne Hpos. unfold selected_indices.
  rewrite split_sep_concat.
  - clear Hne. induction positions as [|n positions IH]; [done |].
    destruct (str_int_token n) as (Hs & Hd & Hi & _); [apply Hpos; left |].
    cbn [map]. rewrite filter_cons_True by (by rewrite Hs).
    cbn [res_map]. rewrite Hs, Hi. cbn [res_bind].
    rewrite IH; [done | intros; apply Hpos; by right].
  - by destruct positions.
  - intros t Ht. apply list_elem_of_fmap in Ht as (n & -> & Hn).
    by apply str_int_token, Hpos.
Qed.

Lemma positions_not_all (positions : list Z) :
  (forall n, n ∈ positions -> 0 <= n) ->
  Py.lower (Py.strip (json.sep_concat (latin1 ",") (map str_int positions))) <> latin1 "all".
Proof.
  intros Hpos Hall.
  destruct (Py.strip _) as [|c s] eqn:Hs; [discriminate |].
  assert (Hc : c ∈ json.sep_concat (latin1 ",") (map str_int positions)).
  { apply strip_subset. rewrite Hs. left. }
  injection Hall as Ha _.
  apply elem_of_sep_concat in Hc as [Hc | (t & Ht & Hc)].
  - apply list_elem_of_singleton in Hc as ->. discriminate.
  - apply list_elem_of_fmap in Ht as (n & -> & Hn).
    unfold str_int in Hc. destruct (Z.ltb_spec n 0); [apply Hpos in Hn; lia |].
    destruct (render_digits_spec (S (Z.to_nat n)) n) as (_ & Hdig & _);
      [lia | lia |].
    rewrite Forall_forall in Hdig. apply Hdig, digit_char_facts in Hc. tauto.
Qed.

Lemma filter_nonneg_all (idx : list Z) :
  (forall i, i ∈ idx -> 0 <= i) -> filter (fun i => 0 <= i) idx = idx.
Proof.
  induction idx as [|i idx IH]; intros H; [done |].
  rewrite filter_cons_True by (apply H; left).
  rewrite IH; [done | intros; apply H; by right].
Qed.

Lemma select_positions (artists : list str) (allow_all : bool)
    (positions : list Z) :
  positions <> [] ->
  (forall n, n ∈ positions -> 1 <= n <= Py.len artists) ->
  exists chosen,
    select_artists artists allow_all
      (json.sep_concat (latin1 ",") (map str_int positions)) = Ok chosen /\
    Forall2 (fun n artist => artists !! Z.to_nat (n - 1) = Some artist)
            positions chosen.
Proof.
  intros Hne Hrange. unfold select_artists.
  rewrite bool_decide_eq_false_2
    by (apply positions_not_all; intros n Hn; apply Hrange in Hn; lia).
  rewrite andb_false_r, selected_indices_positions; [| done |];
    [| intros n Hn; apply Hrange in Hn; lia].
  cbn [res_bind].
  assert (Hall : forall i, i ∈ map (fun n => n - 1) positions ->
                           0 <= i < Py.len artists).
  { intros i Hi. apply list_elem_of_fmap in Hi as (n & -> & Hn).
    apply Hrange in Hn. lia. }
  rewrite filter_nonneg_all by (intros i Hi; apply Hall in Hi; lia).
  destruct (res_map_getitem_ok artists _ Hall) as (items & Hitems & Hf).
  exists items. split; [done |].
  apply Forall2_fmap_l in Hf. done.
Qed.

(** X1.  Typing the positions of a non-empty list of menu numbers, each
    between 1 and the number of artists, separated by commas, selects the
    artists at those positions, in the order typed and as often as typed,
    with or without the shortcut. *)
Theorem select_artists_by_number (artists : list str) (allow_all : bool)
    (positions : list Z) :
  positions <> [] ->
  (forall n, n ∈ positions -> 1 <= n <= Py.len artists) ->
  exists chosen,
    select_artists artists allow_all
      (json.sep_concat (latin1 ",") (map str_int positions)) = Ok chosen /\
    Forall2 (fun n artist => artists !! Z.to_nat (n - 1) = Some artist)
            positions chosen.
Proof. apply select_positions. Qed.

Lemma select_artists_by_number_witness :
  exists chosen,
    select_artists three_artists false
      (json.sep_concat (latin1 ",") (map str_int [3; 1; 3])) = Ok chosen /\
    Forall2 (fun n artist => three_artists !! Z.to_nat (n - 1) = Some artist)
            [3; 1; 3] chosen.
Proof.
  apply (select_artists_by_number three_artists false [3; 1; 3]); [done |].
  intros n Hn. apply list_elem_of_In in Hn. cbn in Hn. unfold Py.len. cbn. lia.
Defined.

Lemma enumerate_lookup {A} (l : list A) (start : Z) (k : nat) (x : A) :
  l !! k = Some x -> (start + Z.of_nat k, x) ∈ enumerate l start.
Proof.
  revert start k. induction l as [|y l IH]; intros start k; [done |].
  destruct k as [|k]; cbn [enumerate].
  - intros [= ->]. rewrite Z.add_0_r. left.
  - intros Hk. right. apply (IH (start + 1)) in Hk.
    by replace (start + Z.of_nat (S k)) with (start + 1 + Z.of_nat k) by lia.
Qed.

(** X2.  Every artist of the list has its line [n. artist] in the menu,
    [n] counting from 1, and typing that [n] alone selects exactly that
    artist. *)
Theorem menu_number_selects (artists : list str) (allow_all : bool)
    (k : nat) (artist : str) :
  artists !! k = Some artist ->
  (widen (str_int (Z.of_nat k + 1)) ++ ". " ++ artist)
    ∈ select_artists_menu artists allow_all /\
  select_artists artists allow_all (str_int (Z.of_nat k + 1)) = Ok [artist].
Proof.
  intros Hk. split.
  - unfold select_artists_menu. rewrite !elem_of_app. right. right.
    apply list_elem_of_fmap. exists (Z.of_nat k + 1, artist). split; [done |].
    rewrite Z.add_comm. by apply enumerate_lookup.
  - destruct (select_positions artists allow_all [Z.of_nat k + 1])
      as (chosen & Hsel & Hall); [done | |].
    + intros n Hn. apply list_elem_of_singleton in Hn as ->.
      apply lookup_lt_Some in Hk. unfold Py.len. lia.
    + cbn [map json.sep_concat] in Hsel. rewrite Hsel.
      apply Forall2_cons_inv_l in Hall as (a & rest & Ha & Hrest & ->).
      apply Forall2_nil_inv_l in Hrest as ->.
      replace (Z.to_nat (Z.of_nat k + 1 - 1)) with k in Ha by lia.
      congruence.
Qed.

Lemma menu_number_selects_witness :
  (widen (str_int (Z.of_nat 1 + 1)) ++ ". " ++ "B")
    ∈ select_artists_menu three_artists true /\
  select_artists three_artists true (str_int (Z.of_nat 1 + 1)) = Ok ["B" : str].
Proof. apply (menu_number_selects three_artists true 1 "B"). reflexivity. Defined.

(** X3.  The bounds of the selector, for a line of at most 4300 characters
    (a longer numeric token is refused by [int] in CPython 3.11 and later).
    The indices that the selector computes from the numeric tokens are at
    least -1, so that a negative index never counts from the end of the
    list.  When [allow_all] is set and the line, stripped and in lower case,
    is [all], the selector returns every artist.  Otherwise, with either
    flag: when all the indices are below the number of artists the selector
    returns the artists at the indices that are not negative, all of them
    artists of the list; when one of them is not, it raises [IndexError]. *)
Theorem select_artists_bounds (artists : list str) (allow_all : bool)
    (choices : line) (idx : list Z) :
  (length choices <= 4300)%nat ->
  selected_indices choices = Ok idx ->
  let all_chosen :=
    allow_all && bool_decide (Py.lower (Py.strip choices) = latin1 "all") in
  (forall i, i ∈ idx -> -1 <= i) /\
  (all_chosen = true -> select_artists artists allow_all choices = Ok artists) /\
  (all_chosen = false ->
   (forall i, i ∈ idx -> i < Py.len artists) ->
   exists chosen,
     select_artists artists allow_all choices = Ok chosen /\
     Forall2 (fun i artist => artists !! Z.to_nat i = Some artist)
             (filter (fun i => 0 <= i) idx) chosen /\
     (forall artist, artist ∈ chosen -> artist ∈ artists)) /\
  (all_chosen = false ->
   (exists i, i ∈ idx /\ Py.len artists <= i) ->
   select_artists artists allow_all choices = Raise IndexError).
Proof.
  intros _ Hidx. cbv zeta.
  split; [by apply (selected_indices_bound choices) |].
  unfold select_artists.
  destruct (allow_all && bool_decide (Py.lower (Py.strip choices) = latin1 "all"));
    (split; [done |]); rewrite ?Hidx; cbn [res_bind]; split; try done.
  - intros _ Hlt.
    destruct (res_map_getitem_ok artists (filter (fun i => 0 <= i) idx))
      as (items & Hitems & Hall).
    { intros i Hi. apply list_elem_of_filter in Hi as [? Hi]. split; [done | auto]. }
    exists items. split; [done |]. split; [done |].
    intros artist Ha. apply list_elem_of_lookup in Ha as [k Hk].
    destruct (Forall2_lookup_r _ _ _ _ _ Hall Hk) as (i & _ & Hi).
    by apply list_elem_of_lookup_2 in Hi.
  - intros _ (i & Hi & Hbig). apply res_map_getitem_raise.
    + intros j Hj. by apply list_elem_of_filter in Hj as [? _].
    + exists i. split; [| done]. apply list_elem_of_filter. split; [| done].
      unfold Py.len in Hbig. lia.
Qed.

Lemma select_artists_bounds_witness :
  select_artists three_artists true (latin1 "0,2,5") = Raise IndexError.
Proof.
  apply (select_artists_bounds three_artists true (latin1 "0,2,5") [-1; 1; 4]).
  - cbn. lia.
  - reflexivity.
  - reflexivity.
  - exists 4. split; [| unfold Py.len; cbn; lia].
    right. right. left.
Defined.

(** ** The menu and the batch *)

(** X4.  The artists offered by the menu are exactly the ones a batch can
    convert.  An artist is listed for [files] if and only if some file of
    [files] would be converted when that artist alone is chosen; and every
    file that a batch converts for the chosen artists has, as the segment at
    index 5 of its path, one of the chosen artists, who is also listed by the
    menu for the same files. *)
Theorem menu_matches_batch (files : list str) :
  (forall artist,
     artist ∈ get_artists_with_files files <->
     exists file, file ∈ files /\ selected [artist] file = true) /\
  (forall convert_artists file,
     file ∈ files -> selected convert_artists file = true ->
     exists artist, artist ∈ convert_artists /\
                    artist ∈ get_artists_with_files files /\
                    Py.split "/" file !! 5%nat = Some artist).
Proof.
  assert (Hchar : forall artist,
            artist ∈ get_artists_with_files files <->
            exists file, file ∈ files /\
                         Py.split "/" file !! 5%nat = Some artist).
  { intros artist. unfold get_artists_with_files.
    rewrite elem_of_elements, foldl_add_artist_elem. split.
    - intros [H | (file & ? & _ & ?)]; [by apply not_elem_of_empty in H |].
      by exists file.
    - intros (file & Hin & Hk). right. exists file. repeat split; try done.
      apply lookup_lt_Some in Hk. lia. }
  split.
  - intros artist. rewrite Hchar. unfold selected.
    split; intros (file & Hin & H); exists file; (split; [done |]).
    + rewrite H. apply bool_decide_eq_true_2. left.
    + destruct (Py.split "/" file !! 5%nat) as [a|]; [| discriminate].
      apply bool_decide_eq_true_1, list_elem_of_singleton in H. by subst.
  - intros convert_artists file Hin Hsel. unfold selected in Hsel.
    destruct (Py.split "/" file !! 5%nat) as [a|] eqn:Ha; [| discriminate].
    apply bool_decide_eq_true_1 in Hsel. exists a. split; [done |].
    split; [| done]. apply Hchar. by exists file.
Qed.

(** ** The index as a function of the walk *)

Lemma foldl_index_file_name (root : str) (names : list str) (acc : Index) :
  foldl (index_file_name root) acc names
  = (fst acc ++ map (posixpath.join root) (List.filter is_flac names),
     snd acc ++ map (posixpath.join root) (List.filter is_m4a names)).
Proof.
  revert acc. induction names as [|f names IH]; intros [flac m4a].
  - cbn. by rewrite !app_nil_r.
  - cbn [foldl]. rewrite IH. unfold index_file_name, is_flac, is_m4a.
    cbn [List.filter].
    destruct (Py.endswith ".flac" f); cbn [negb andb fst snd map].
    + rewrite <- app_assoc. reflexivity.
    + destruct (Py.endswith ".m4a" f); cbn [fst snd map]; [| done].
      rewrite <- app_assoc. reflexivity.
Qed.

Lemma for_each_index_dir (walk : list (str * list str * list str))
    (acc : Index) (w : World) :
  for_each walk index_dir acc w
  = (Ok (fst acc ++ walk_paths is_flac walk, snd acc ++ walk_paths is_m4a walk),
     mkWorld (files w) (dirs w) (snapshot w) (main_log w) (errors_log w)
             (stdout w ++ walk_progress walk) (spawned w) (moved w)).
Proof.
  revert acc w. induction walk as [|[[root ds] fs] walk IH]; intros acc w.
  - cbn. rewrite !app_nil_r. by destruct w, acc.
  - cbn [for_each]. unfold bind at 1. unfold index_dir.
    unfold walk_paths, walk_progress. cbn [flat_map fst snd].
    fold (skipped root). fold (walk_paths is_flac walk).
    fold (walk_paths is_m4a walk). fold (walk_progress walk).
    destruct (skipped root).
    + unfold ret. rewrite IH. done.
    + unfold bind, print, modify, ret. rewrite IH, foldl_index_file_name.
      cbn. by rewrite <- !app_assoc.
Qed.

(** X5.  The indexer as a function of the walk.  The FLAC list holds, in the
    order of the walk and of each directory's file names, the join of the
    directory and the name for every name ending with [.flac] in a directory
    that is not skipped; the M4A list the same for the names ending with
    [.m4a] and not with [.flac].  The run replaces the snapshot by the
    encoding of the two lists, prints the start line, one line for every
    directory that is not skipped and the completion line, and changes
    nothing else. *)
Theorem index_music_files_spec (tree : Dir) (w : World) :
  let walk := os_walk music_dir tree in
  let flac_files := walk_paths is_flac walk in
  let m4a_files := walk_paths is_m4a walk in
  index_music_files tree w
  = (Ok (flac_files, m4a_files),
     mkWorld (files w) (dirs w)
             (Some (json.dumps (index_dict flac_files m4a_files)))
             (main_log w) (errors_log w)
             (stdout w ++ [IndexingStart] ++ walk_progress walk
                       ++ [IndexingComplete])
             (spawned w) (moved w)).
Proof.
  cbv zeta. unfold index_music_files, bind, print, modify, save_index, ret.
  rewrite for_each_index_dir. unfold modify, set_snapshot, add_stdout.
  cbn [app fst snd files dirs snapshot main_log errors_log stdout spawned
       moved].
  rewrite <- !app_assoc. reflexivity.
Qed.

(** ** Indexed paths lie under the media root *)

Lemma walk_paths_elem (keep : str -> bool)
    (walk : list (str * list str * list str)) (p : str) :
  p ∈ walk_paths keep walk <->
  exists root ds fs file,
    (root, ds, fs) ∈ walk /\ skipped root = false /\ file ∈ fs /\
    keep file = true /\ p = posixpath.join root file.
Proof.
  unfold walk_paths. rewrite list_elem_of_In, in_flat_map. split.
  - intros ([[root ds] fs] & Hin & Hp). cbn [fst snd] in Hp.
    destruct (skipped root) eqn:Hs; [done |].
    apply in_map_iff in Hp as (file & <- & Hf).
    apply filter_In in Hf as [Hf Hk].
    exists root, ds, fs, file. rewrite !list_elem_of_In. done.
  - intros (root & ds & fs & file & Hin & Hs & Hf & Hk & ->).
    exists (root, ds, fs). rewrite <- list_elem_of_In. split; [done |].
    cbn [fst snd]. rewrite Hs. apply in_map, filter_In.
    by rewrite <- list_elem_of_In.
Qed.

(** The walk of a directory: its own entry, then the walks of its
    subdirectories. *)
Lemma os_walk_elem (name : str) (subdirs : list Dir) (filenames : list str)
    (top : str) (entry : str * list str * list str) :
  entry ∈ os_walk top (mkDir name subdirs filenames) <->
  entry = (top, map dir_name subdirs, filenames) \/
  exists sub, sub ∈ subdirs /\
              entry ∈ os_walk (posixpath.join top (dir_name sub)) sub.
Proof.
  cbn [os_walk]. rewrite elem_of_cons, list_elem_of_In, in_flat_map.
  split; (intros [-> | (sub & Hsub & Hin)]; [by left | right]);
    exists sub; by rewrite ?list_elem_of_In in *.
Qed.

(** Induction on a directory, with the property for its subdirectories. *)
Lemma Dir_nested_ind (P : Dir -> Prop) :
  (forall name subdirs filenames,
     Forall P subdirs -> P (mkDir name subdirs filenames)) ->
  forall d, P d.
Proof.
  intros H. fix IH 1. intros [name subdirs filenames]. apply H.
  induction subdirs as [|sub subdirs IHs]; constructor; [apply IH | apply IHs].
Qed.

Lemma plain_dir_names_sub (name : str) (subdirs : list Dir)
    (filenames : list str) (top : str) (sub : Dir) :
  plain_dir_names (os_walk top (mkDir name subdirs filenames)) ->
  sub ∈ subdirs ->
  (("/"%char : char) ∉ dir_name sub) /\
  plain_dir_names (os_walk (posixpath.join top (dir_name sub)) sub).
Proof.
  intros Hplain Hsub. split.
  - apply (Hplain top (map dir_name subdirs) filenames).
    + apply os_walk_elem. by left.
    + by apply list_elem_of_fmap_2.
  - intros root ds fs n Hin Hn. apply (Hplain root ds fs n); [| done].
    apply os_walk_elem. right. by exists sub.
Qed.

(** Every directory that the walk visits has the top as a prefix of its
    path. *)
Lemma os_walk_roots (d : Dir) :
  forall top,
    plain_dir_names (os_walk top d) ->
    forall root ds fs, (root, ds, fs) ∈ os_walk top d ->
    exists t, root = top ++ t.
Proof.
  induction d as [name subdirs filenames IH] using Dir_nested_ind.
  intros top Hplain root ds fs Hin.
  apply os_walk_elem in Hin as [[= -> _ _] | (sub & Hsub & Hin)].
  - exists []. by rewrite app_nil_r.
  - destruct (plain_dir_names_sub _ _ _ _ _ Hplain Hsub) as [Hn Hp].
    rewrite Forall_forall in IH.
    destruct (IH sub Hsub _ Hp _ _ _ Hin) as [t ->].
    destruct (join_plain_cases top (dir_name sub) Hn) as [-> | ->].
    + exists (dir_name sub ++ t). by rewrite <- app_assoc.
    + exists ("/" ++ dir_name sub ++ t). by rewrite <- !app_assoc.
Qed.

(** Below the media root, every directory of the walk starts with the root
    and a separator. *)
Lemma os_walk_music_dir (tree : Dir) (root : str) (ds fs : list str) :
  plain_dir_names (os_walk music_dir tree) ->
  (root, ds, fs) ∈ os_walk music_dir tree ->
  root = music_dir \/ exists t, root = music_dir ++ "/" ++ t.
Proof.
  destruct tree as [name subdirs filenames]. intros Hplain Hin.
  apply os_walk_elem in Hin as [[= -> _ _] | (sub & Hsub & Hin)]; [by left |].
  right. destruct (plain_dir_names_sub _ _ _ _ _ Hplain Hsub) as [Hn Hp].
  destruct (os_walk_roots sub _ Hp _ _ _ Hin) as [t ->].
  exists (dir_name sub ++ t).
  destruct (join_plain_cases music_dir (dir_name sub) Hn) as [E | ->].
  - exfalso. unfold posixpath.join in E.
    destruct (Py.startswith "/" (dir_name sub)) eqn:Hs.
    + apply startswith_spec in Hs as [u Hu]. apply Hn. rewrite Hu. left.
    + change (bool_decide (music_dir = []) || Py.endswith "/" music_dir)
        with false in E.
      cbv iota in E. apply app_inv_head in E.
      apply Hn. rewrite <- E. left.
  - by rewrite <- !app_assoc.
Qed.

Lemma plain_dir_names_lookalike :
  plain_dir_names (os_walk music_dir tree_with_lookalike).
Proof.
  intros root ds fs name Hwalk Hname.
  vm_compute in Hwalk.
  repeat (apply elem_of_cons in Hwalk as [Hwalk | Hwalk];
          [injection Hwalk as -> -> ->;
           repeat (apply elem_of_cons in Hname as [-> | Hname];
                   [apply (bool_decide_unpack _); vm_compute; exact I |]);
           by apply elem_of_nil in Hname |]).
  by apply elem_of_nil in Hwalk.
Qed.

(** X6.  When neither a directory name nor a file name of the tree holds a
    separator, the indexer returns two lists and every path of either list
    starts with the media root followed by a separator: the indexer never
    records a file outside the tree it was asked to walk. *)
Theorem indexed_under_music_dir (tree : Dir) (w : World) :
  plain_names (os_walk music_dir tree) ->
  plain_dir_names (os_walk music_dir tree) ->
  exists flac_files m4a_files,
    fst (index_music_files tree w) = Ok (flac_files, m4a_files) /\
    forall p, p ∈ flac_files ++ m4a_files ->
      Py.startswith (music_dir ++ "/") p = true.
Proof.
  intros Hfiles Hdirs.
  exists (walk_paths is_flac (os_walk music_dir tree)),
         (walk_paths is_m4a (os_walk music_dir tree)).
  split.
  { unfold index_music_files, bind, print, modify, save_index, ret.
    by rewrite for_each_index_dir. }
  assert (Hone : forall keep p,
            p ∈ walk_paths keep (os_walk music_dir tree) ->
            Py.startswith (music_dir ++ "/") p = true).
  { intros keep p Hp.
    apply walk_paths_elem in Hp as (root & ds & fs & file & Hin & _ & Hf & _ & ->).
    pose proof (Hfiles _ _ _ _ Hin Hf) as Hplain.
    apply startswith_spec.
    destruct (os_walk_music_dir _ _ _ _ Hdirs Hin) as [-> | [t ->]].
    - exists file. unfold posixpath.join.
      destruct (Py.startswith "/" file) eqn:Hs.
      + apply startswith_spec in Hs as [u ->]. exfalso. apply Hplain. left.
      + change (bool_decide (music_dir = []) || Py.endswith "/" music_dir)
          with false.
        cbv iota. by rewrite <- app_assoc.
    - destruct (join_plain_cases (music_dir ++ "/" ++ t) file Hplain)
        as [-> | ->].
      + exists (t ++ file). by rewrite <- !app_assoc.
      + exists (t ++ "/" ++ file). by rewrite <- !app_assoc. }
  intros p Hp. apply elem_of_app in Hp as [Hp | Hp]; by eapply Hone.
Qed.

Lemma indexed_under_music_dir_witness :
  plain_names (os_walk music_dir tree_with_lookalike) /\
  plain_dir_names (os_walk music_dir tree_with_lookalike) /\
  exists flac_files m4a_files,
    fst (index_music_files tree_with_lookalike empty_world)
    = Ok (flac_files, m4a_files) /\
    forall p, p ∈ flac_files ++ m4a_files ->
      Py.startswith (music_dir ++ "/") p = true.
Proof.
  split; [exact plain_names_lookalike |].
  split; [exact plain_dir_names_lookalike |].
  apply (indexed_under_music_dir tree_with_lookalike empty_world).
  - exact plain_names_lookalike.
  - exact plain_dir_names_lookalike.
Defined.

(** ** Paths below the media root *)

Lemma split_sep_join (comps : list str) :
  comps <> [] -> Forall plain_comp comps ->
  Py.split "/" (posixpath.sep_join comps) = comps.
Proof.
  induction comps as [|c [|c' comps] IH]; intros Hne Hplain; [done | |].
  - cbn. apply split_no_sep. apply Forall_inv in Hplain. apply Hplain.
  - change (posixpath.sep_join (c :: c' :: comps))
      with (c ++ ("/"%char : char) :: posixpath.sep_join (c' :: comps)).
    rewrite split_app, split_no_sep.
    + rewrite IH; [done | done | by eapply Forall_inv_tail].
    + apply Forall_inv in Hplain. apply Hplain.
Qed.

Lemma norm_comps_plain (initial_slashes : nat) (new_comps comps : list str) :
  Forall plain_comp comps ->
  posixpath.norm_comps initial_slashes new_comps comps = rev new_comps ++ comps.
Proof.
  revert new_comps. induction comps as [|c comps IH]; intros new_comps Hplain.
  - cbn. by rewrite app_nil_r.
  - apply Forall_cons in Hplain as [(Hne & _ & Hdot & Hdots) Hplain].
    cbn [posixpath.norm_comps].
    rewrite !bool_decide_eq_false_2 by done. cbn [orb negb].
    rewrite IH by done. cbn [rev]. by rewrite <- app_assoc.
Qed.

Lemma filter_nonempty_plain (comps : list str) :
  Forall plain_comp comps ->
  filter (fun x : str => x <> []) comps = comps.
Proof.
  induction 1 as [|c comps (Hne & _) _ IH]; [done |].
  rewrite filter_cons_True by done. by rewrite IH.
Qed.

Lemma common_len_app (l l' : list str) :
  posixpath.common_len l (l ++ l') = length l.
Proof.
  induction l as [|a l IH]; [by destruct l' |].
  cbn [app posixpath.common_len length].
  rewrite bool_decide_eq_true_2 by done. by rewrite IH.
Qed.

Lemma endswith_sep_plain (a c : str) :
  c <> [] -> (("/"%char : char) ∉ c) -> Py.endswith "/" (a ++ c) = false.
Proof.
  intros Hne Hplain. apply not_true_is_false. intros H.
  apply endswith_spec in H as [t Ht].
  destruct (exists_last Hne) as (c' & z & ->).
  rewrite app_assoc in Ht. apply app_inj_tail in Ht as [_ ->].
  apply Hplain, elem_of_app. right. left.
Qed.

Lemma startswith_sep_plain (c : str) :
  (("/"%char : char) ∉ c) -> Py.startswith "/" c = false.
Proof.
  intros Hplain. apply not_true_is_false. intros H.
  apply startswith_spec in H as [t ->]. apply Hplain. left.
Qed.

Lemma join_plain (a c : str) :
  a <> [] -> Py.endswith "/" a = false -> (("/"%char : char) ∉ c) ->
  posixpath.join a c = a ++ "/" ++ c.
Proof.
  intros Ha He Hc. unfold posixpath.join.
  rewrite startswith_sep_plain, He by done.
  by rewrite bool_decide_eq_false_2.
Qed.

Lemma join_all_plain (a : str) (comps : list str) :
  a <> [] -> Py.endswith "/" a = false -> Forall plain_comp comps ->
  posixpath.join_all a comps = posixpath.sep_join (a :: comps).
Proof.
  unfold posixpath.join_all. revert a.
  induction comps as [|c comps IH]; intros a Ha He Hplain; [done |].
  apply Forall_cons in Hplain as [(Hne & Hsep & _) Hplain].
  cbn [foldl]. rewrite join_plain by done.
  rewrite IH; [| by destruct a | | done].
  - destruct comps as [|c' comps]; [done |].
    change (posixpath.sep_join ((a ++ "/" ++ c) :: c' :: comps))
      with ((a ++ "/" ++ c) ++ "/" ++ posixpath.sep_join (c' :: comps)).
    change (posixpath.sep_join (a :: c :: c' :: comps))
      with (a ++ "/" ++ c ++ "/" ++ posixpath.sep_join (c' :: comps)).
    by rewrite <- !app_assoc.
  - rewrite app_assoc. by apply endswith_sep_plain.
Qed.

Lemma sep_join_plain_head (comps : list str) :
  comps <> [] -> Forall plain_comp comps ->
  exists c t, posixpath.sep_join comps = c :: t /\ c <> "/"%char.
Proof.
  intros Hne Hplain. destruct comps as [|c comps]; [done |].
  apply Forall_inv in Hplain as (Hc & Hsep & _).
  destruct c as [|x c]; [done |].
  assert (x <> "/"%char) by (intros ->; apply Hsep; left).
  destruct comps; cbn; eauto.
Qed.

Lemma plain_comp_music_dir :
  Forall plain_comp ["Volumes" : str; "Media" : str; "Music" : str].
Proof.
  repeat constructor; try discriminate;
    apply (bool_decide_unpack _); vm_compute; exact I.
Qed.

Lemma abspath_absolute (cwd p : str) :
  Py.startswith "/" p = true -> Py.startswith "//" p = false ->
  posixpath.abspath cwd p
  = "/" ++ posixpath.sep_join (posixpath.norm_comps 1 [] (Py.split "/" p)).
Proof.
  intros H1 H2. unfold posixpath.abspath, posixpath.isabs. rewrite H1.
  unfold posixpath.normpath. rewrite H1, H2.
  rewrite bool_decide_eq_false_2 by (intros ->; discriminate).
  cbn [andb List.repeat]. by rewrite bool_decide_eq_false_2.
Qed.

Lemma split_below_music_dir (comps : list str) :
  comps <> [] -> Forall plain_comp comps ->
  Py.split "/" (music_dir ++ "/" ++ posixpath.sep_join comps)
  = [] :: ["Volumes" : str; "Media" : str; "Music" : str] ++ comps.
Proof.
  intros Hne Hplain.
  change (music_dir ++ "/" ++ posixpath.sep_join comps)
    with ([] ++ ("/"%char : char) :: "Volumes/Media/Music"
          ++ ("/"%char : char) :: posixpath.sep_join comps).
  rewrite !split_app, split_sep_join by done. reflexivity.
Qed.

Lemma abspath_below_music_dir (cwd : str) (comps : list str) :
  comps <> [] -> Forall plain_comp comps ->
  posixpath.abspath cwd (music_dir ++ "/" ++ posixpath.sep_join comps)
  = music_dir ++ "/" ++ posixpath.sep_join comps.
Proof.
  intros Hne Hplain.
  rewrite abspath_absolute by reflexivity.
  rewrite split_below_music_dir by done.
  change (posixpath.norm_comps 1 []
            ([] :: ["Volumes" : str; "Media" : str; "Music" : str] ++ comps))
    with (posixpath.norm_comps 1 []
            (["Volumes" : str; "Media" : str; "Music" : str] ++ comps)).
  rewrite norm_comps_plain
    by (apply Forall_app; split; [apply plain_comp_music_dir | done]).
  destruct comps as [|c comps]; [done |]. reflexivity.
Qed.

(** X7.  A file that lies below the media root, at the end of a chain of
    components none of which is empty, [.] or [..] or holds a separator, has
    that chain as its path relative to the media root, whatever the working
    directory; joined to a converted directory, the chain gives the path of
    the same name below the converted directory: the converted directories
    mirror the layout of the library. *)
Theorem relpath_below_music_dir (cwd : str) (comps : list str) :
  comps <> [] -> Forall plain_comp comps ->
  posixpath.relpath cwd (music_dir ++ "/" ++ posixpath.sep_join comps)
                    music_dir
  = Ok (posixpath.sep_join comps) /\
  posixpath.join flac_converted_dir (posixpath.sep_join comps)
  = flac_converted_dir ++ "/" ++ posixpath.sep_join comps /\
  posixpath.join m4a_converted_dir (posixpath.sep_join comps)
  = m4a_converted_dir ++ "/" ++ posixpath.sep_join comps.
Proof.
  intros Hne Hplain. split.
  - unfold posixpath.relpath.
    rewrite bool_decide_eq_false_2 by done.
    rewrite abspath_below_music_dir by done.
    replace (posixpath.abspath cwd music_dir) with music_dir
      by (vm_compute; reflexivity).
    unfold posixpath.nonempty_comps.
    rewrite split_below_music_dir by done.
    change (Py.split "/" music_dir)
      with ([] :: ["Volumes" : str; "Media" : str; "Music" : str]).
    rewrite filter_cons_False by (intros H; by apply H).
    rewrite (filter_cons_False _ []) by (intros H; by apply H).
    rewrite !filter_nonempty_plain
      by (try apply Forall_app; try split; try apply plain_comp_music_dir;
          done).
    rewrite common_len_app. cbn [length Nat.sub List.repeat app drop].
    destruct comps as [|c comps]; [done |].
    apply Forall_cons in Hplain as [(Hc & Hsep & _) Hplain].
    cbn [drop]. rewrite join_all_plain; [done | done | | done].
    by apply (endswith_sep_plain []).
  - destruct (sep_join_plain_head comps Hne Hplain) as (c & t & -> & Hc).
    unfold posixpath.join.
    rewrite (startswith_false "/" (c :: t))
      by (intros t' E; change (c :: t = ("/"%char : char) :: t') in E;
          injection E as E _; by apply Hc).
    split; reflexivity.
Qed.

Lemma relpath_below_music_dir_witness :
  posixpath.relpath "/home" track_a music_dir = Ok ("Lib/Art/Alb/t.flac" : str) /\
  posixpath.join flac_converted_dir "Lib/Art/Alb/t.flac"
  = ("/Volumes/Media/Music/FLAC_CONVERTED/Lib/Art/Alb/t.flac" : str).
Proof.
  destruct (relpath_below_music_dir "/home"
              ["Lib" : str; "Art" : str; "Alb" : str; "t.flac" : str])
    as (H1 & H2 & _).
  - discriminate.
  - repeat constructor; try discriminate;
      apply (bool_decide_unpack _); vm_compute; exact I.
  - split; [exact H1 | exact H2].
Defined.

(** ** A conversion that succeeds *)

(** X8.  A live turn for a selected file whose conversion exits with status
    zero, when it ends normally: the file was there; the transcoder was run
    once, on the file and its output path; the file was moved once, to the
    join of the converted directory and its path relative to the media root;
    one line was logged, none in the error log, nothing printed; the totals
    grew by the size of the original and by the size of the output file.
    When the target is not a directory, the original is gone from its place,
    the target holds it, and every other file is as before. *)
Theorem process_file_relocates (env : Env) (convert_artists : list str)
    (converted_dir file : str) (t t' : Totals) (w w' : World) :
  selected convert_artists file = true ->
  returncode (ffmpeg env (files w) file (output_file_of file)) = 0 ->
  process_file env convert_artists converted_dir false file t w = (Ok t', w') ->
  relocated env converted_dir file t w t' w'.
Proof.
  intros Hsel Hrc. unfold relocated. unfold_step. intros Hrun.
  step_cases;
    try (rewrite (selected_getitem convert_artists _ _ ltac:(eassumption))
           in Hsel; congruence);
    try (rewrite (selected_short convert_artists _ ltac:(eassumption))
           in Hsel; congruence);
    try (rewrite Hrc in *; discriminate);
    cbn [fst snd files dirs snapshot main_log errors_log stdout spawned
         moved set_files set_dirs set_snapshot add_main_log
         add_errors_log add_stdout add_spawned add_moved] in *;
    rewrite Hrc in *;
    (eexists _, _, _; split; [reflexivity |]; split; [reflexivity |]);
    repeat match goal with
    | H : ?f ?w = _ |- context [?f ?w] => is_var w; rewrite H
    | H : ?f ?w = _, H' : context [?f ?w] |- _ =>
        is_var w; rewrite H in H'
    end;
    repeat (split; [done |]);
    intros Hnew;
    match goal with
    | Hd : bool_decide (_ ∈ dirs _) = true |- _ =>
        apply bool_decide_eq_true_1 in Hd; done
    | _ => idtac
    end;
    (split;
     [ intros Hne; rewrite lookup_insert_ne by done; apply lookup_delete_eq
     | split;
       [ intros Hne; rewrite lookup_insert_eq; f_equal;
         rewrite ?lookup_insert_ne in * by done; congruence
       | intros p ? ? ?;
         rewrite lookup_insert_ne, lookup_delete_ne, ?lookup_insert_ne
           by done;
         done ] ]).
Qed.

Lemma process_file_relocates_witness :
  relocated env_growing flac_converted_dir track_a (mkTotals 0 0)
    example_world (mkTotals 100 130)
    (snd (process_file env_growing ["Art" : str] flac_converted_dir false
            track_a (mkTotals 0 0) example_world)).
Proof.
  apply (process_file_relocates env_growing ["Art" : str] flac_converted_dir
           track_a (mkTotals 0 0) (mkTotals 100 130) example_world).
  - vm_compute. reflexivity.
  - vm_compute. reflexivity.
  - vm_compute. reflexivity.
Defined.

(** ** A listed file that is gone *)

Lemma process_file_missing env artists cdir dry file t w :
  selected artists file = true -> files w !! file = None ->
  process_file env artists cdir dry file t w = (Raise FileNotFoundError, w).
Proof.
  intros Hsel Hnone. unfold process_file.
  destruct (5 <? Py.len (Py.split "/" file)) eqn:Hlen;
    [| by rewrite (selected_short artists file Hlen) in Hsel].
  destruct (getitem_5 _ Hlen) as [artist [Ha Hg]].
  rewrite (selected_getitem artists file artist Hg) in Hsel.
  unfold bind at 1. rewrite Hg. unfold lift at 1. rewrite Hsel.
  unfold bind at 1. unfold calculate_size at 1. by rewrite Hnone.
Qed.

Lemma for_each_not_selected env artists cdir dry before rest t w :
  Forall (fun f => selected artists f = false) before ->
  for_each (before ++ rest) (process_file env artists cdir dry) t w
  = for_each rest (process_file env artists cdir dry) t w.
Proof.
  induction 1 as [|f before Hf _ IH]; [done |].
  cbn [app for_each]. unfold bind at 1.
  by rewrite process_file_not_selected.
Qed.

(** X9.  A listed file that is gone stops the batch.  When the first file of
    the list that passes the two tests of the loop does not exist, neither
    as a file nor as a directory, the batch raises [FileNotFoundError] in
    either mode and leaves the world as it found it: nothing is converted,
    moved, logged or printed, no report is made, and the files listed after
    it are not reached. *)
Theorem missing_file_stops_batch (env : Env) (before rest : list str)
    (file : str) (convert_artists : list str) (converted_dir : str)
    (dry_run : bool) (w : World) :
  Forall (fun f => selected convert_artists f = false) before ->
  selected convert_artists file = true ->
  files w !! file = None ->
  file ∉ dirs w ->
  process_files env (before ++ file :: rest) convert_artists converted_dir
                dry_run w
  = (Raise FileNotFoundError, w).
Proof.
  intros Hbefore Hsel Hnone _. unfold process_files. unfold bind at 1.
  rewrite for_each_not_selected by done.
  cbn [for_each]. unfold bind at 1.
  by rewrite process_file_missing.
Qed.

Lemma missing_file_stops_batch_witness :
  process_files env_growing
    ([track_other] ++ ("/Volumes/Media/Music/Lib/Art/Alb/gone.flac" : str)
                   :: [track_a])
    ["Art" : str] flac_converted_dir false example_world
  = (Raise FileNotFoundError, example_world).
Proof.
  apply (missing_file_stops_batch env_growing [track_other] [track_a]).
  - repeat constructor.
  - vm_compute. reflexivity.
  - vm_compute. reflexivity.
  - apply (bool_decide_unpack _). vm_compute. exact I.
Defined.

(** ** What a batch runs and moves *)

Lemma batch_discipline_refl env listed artists cdir w :
  batch_discipline env listed artists cdir w w.
Proof.
  exists [], []. rewrite !app_nil_r. repeat split; constructor.
Qed.

Lemma batch_discipline_trans env listed artists cdir w1 w2 w3 :
  batch_discipline env listed artists cdir w1 w2 ->
  batch_discipline env listed artists cdir w2 w3 ->
  batch_discipline env listed artists cdir w1 w3.
Proof.
  intros (r1 & m1 & Hs1 & Hm1 & Hr1 & Hv1) (r2 & m2 & Hs2 & Hm2 & Hr2 & Hv2).
  exists (r1 ++ r2), (m1 ++ m2).
  rewrite Hs2, Hs1, Hm2, Hm1, <- !app_assoc.
  split; [done |]. split; [done |]. split; [by apply Forall_app |].
  apply Forall_app. split.
  - eapply Forall_impl; [exact Hv1 |].
    intros mv (rel & ? & ? & ? & ? & Hin). exists rel.
    repeat split; try done. apply elem_of_app. by left.
  - eapply Forall_impl; [exact Hv2 |].
    intros mv (rel & ? & ? & ? & ? & Hin). exists rel.
    repeat split; try done. apply elem_of_app. by right.
Qed.

Ltac solve_selected artists :=
  match goal with
  | H : Py.getitem _ 5 = Ok _ |- _ =>
      rewrite (selected_getitem artists _ _ H); assumption
  end.

Lemma process_file_discipline env listed artists cdir dry file t w :
  file ∈ listed ->
  batch_discipline env listed artists cdir w
    (snd (process_file env artists cdir dry file t w)).
Proof.
  intros Hin. unfold_step. step_cases;
    try apply batch_discipline_refl;
    unfold batch_discipline;
    cbn [fst snd files dirs snapshot main_log errors_log stdout spawned
         moved set_files set_dirs set_snapshot add_main_log
         add_errors_log add_stdout add_spawned add_moved] in *;
    repeat match goal with
    | H : ?f ?w = _ |- context [?f ?w] => is_var w; rewrite H
    end;
    repeat match goal with
    | H : (_ =? 0) = true |- _ => apply Z.eqb_eq in H; rewrite ?H
    end;
    (eexists _, _;
     split; [first [reflexivity | symmetry; apply app_nil_r] |];
     split; [first [reflexivity | symmetry; apply app_nil_r] |];
     split;
     repeat first
       [ apply Forall_nil_2
       | apply Forall_cons; cbn [fst snd]; split;
         [ first
             [ exists file; split; [exact Hin |]; split;
               [solve_selected artists | reflexivity]
             | eexists; split; [exact Hin |]; split;
               [solve_selected artists |]; split; [eassumption |]; split;
               [reflexivity | left] ]
         | ] ]).
Qed.

(** X10.  What a batch runs and moves.  In either mode, however the batch
    ends, every process it started is the transcoder [ffmpeg -i file -b:a
    320k output], run on a listed file that passes the two tests of the loop
    and on the output path of that file; and every file it moved is such a
    file, moved to the join of the converted directory and the path of the
    file relative to the media root, after a run of the transcoder on that
    file that exited with status zero. *)
Theorem batch_runs_and_moves (env : Env) (files : list str)
    (convert_artists : list str) (converted_dir : str) (dry_run : bool)
    (w : World) :
  batch_discipline env files convert_artists converted_dir w
    (snd (process_files env files convert_artists converted_dir dry_run w)).
Proof.
  unfold process_files. unfold bind at 1.
  pose proof (for_each_preserves
                (batch_discipline env files convert_artists converted_dir)
                (process_file env convert_artists converted_dir dry_run)
                files
                (batch_discipline_refl env files convert_artists
                                       converted_dir)
                (batch_discipline_trans env files convert_artists
                                        converted_dir)
                (fun x acc w Hx =>
                   process_file_discipline env files convert_artists
                     converted_dir dry_run x acc w Hx)
                (mkTotals 0 0) w) as Hloop.
  destruct (for_each files
              (process_file env convert_artists converted_dir dry_run)
              (mkTotals 0 0) w) as [[t|e] w1]; cbn [snd] in *; [| done].
  destruct dry_run; cbn [negb]; [done |].
  destruct Hloop as (runs & moves & Hs & Hm & Hr & Hv).
  exists runs, moves. done.
Qed.

(** ** What a batch keeps *)

Lemma batch_keeps_refl listed artists w : batch_keeps listed artists w w.
Proof. by repeat split. Qed.

Lemma batch_keeps_trans listed artists w1 w2 w3 :
  batch_keeps listed artists w1 w2 -> batch_keeps listed artists w2 w3 ->
  batch_keeps listed artists w1 w3.
Proof.
  intros (Hd1 & Hs1 & Hf1) (Hd2 & Hs2 & Hf2).
  split; [set_solver |]. split; [congruence |]. eauto.
Qed.

Lemma process_file_batch_keeps env listed artists cdir dry file t w :
  file ∈ listed ->
  batch_keeps listed artists w
    (snd (process_file env artists cdir dry file t w)).
Proof.
  intros Hin. unfold_step. step_cases;
    try apply batch_keeps_refl;
    unfold batch_keeps;
    cbn [fst snd files dirs snapshot main_log errors_log stdout spawned
         moved set_files set_dirs set_snapshot add_main_log
         add_errors_log add_stdout add_spawned add_moved] in *;
    repeat match goal with
    | H : ?f ?w = _ |- context [?f ?w] => is_var w; rewrite H
    end;
    (split; [done |]; split; [done |]);
    intros p Hp [x Hx];
    assert (p <> file)
      by (intros ->; destruct Hp as [Hp | Hp]; [done |];
          match goal with
          | H : Py.getitem _ 5 = Ok _ |- _ =>
              rewrite (selected_getitem artists _ _ H) in Hp; congruence
          end);
    keep_lookup; eauto.
Qed.

(** X11.  What a batch keeps.  In either mode, however the batch ends: every
    directory that was there is still there; the snapshot of the index is
    as it was; and every file that is not a listed file passing the two
    tests of the loop is still there. *)
Theorem batch_keeps_other_files (env : Env) (files : list str)
    (convert_artists : list str) (converted_dir : str) (dry_run : bool)
    (w : World) :
  batch_keeps files convert_artists w
    (snd (process_files env files convert_artists converted_dir dry_run w)).
Proof.
  unfold process_files. unfold bind at 1.
  pose proof (for_each_preserves (batch_keeps files convert_artists)
                (process_file env convert_artists converted_dir dry_run)
                files
                (batch_keeps_refl files convert_artists)
                (batch_keeps_trans files convert_artists)
                (fun x acc w Hx =>
                   process_file_batch_keeps env files convert_artists
                     converted_dir dry_run x acc w Hx)
                (mkTotals 0 0) w) as Hloop.
  destruct (for_each files
              (process_file env convert_artists converted_dir dry_run)
              (mkTotals 0 0) w) as [[t|e] w1]; cbn [snd] in *; [| done].
  destruct dry_run; cbn [negb]; done.
Qed.

(** ** The program *)

(** *** Runs that leave a relation between the worlds *)

Section RunPreserves.

Variable R : World -> World -> Prop.
Hypothesis R_refl : forall w, R w w.
Hypothesis R_trans : forall w1 w2 w3, R w1 w2 -> R w2 w3 -> R w1 w3.

Lemma run_bind_preserves {A B} (m : Run A) (k : A -> Run B) :
  run_preserves R m -> (forall a, run_preserves R (k a)) ->
  run_preserves R (run_bind m k).
Proof.
  intros Hm Hk s. unfold run_bind. specialize (Hm s).
  destruct (m s) as [[[a|e] s'] events]; cbn [fst snd] in *; [| done].
  specialize (Hk a s'). destruct (k a s') as [[r s''] events'].
  cbn [fst snd] in *. by eapply R_trans.
Qed.

Lemma run_ret_preserves {A} (a : A) : run_preserves R (run_ret a).
Proof. intros s. apply R_refl. Qed.

Lemma lift_res_preserves {A} (r : res A) : run_preserves R (lift_res r).
Proof. intros s. unfold lift_res. destruct r; apply R_refl. Qed.

Lemma lift_outcome_preserves {A} (r : outcome A) :
  run_preserves R (lift_outcome r).
Proof. intros s. apply R_refl. Qed.

Lemma emit_preserves (e : MainEvent) : run_preserves R (emit e).
Proof. intros s. apply R_refl. Qed.

Lemma emit_all_preserves (es : list MainEvent) : run_preserves R (emit_all es).
Proof. intros s. apply R_refl. Qed.

Lemma input_preserves (prompt : str) : run_preserves R (input prompt).
Proof. intros s. unfold input. destruct (stdin s); apply R_refl. Qed.

Lemma lift_m_preserves {A} (m : M A) :
  (forall w, R w (snd (m w))) -> run_preserves R (lift_m m).
Proof.
  intros Hm s. unfold lift_m. specialize (Hm (world s)).
  by destruct (m (world s)) as [[a|e] w'].
Qed.

Lemma select_artists_io_preserves (artists : list str) (allow_all : bool) :
  run_preserves R (select_artists_io artists allow_all).
Proof.
  unfold select_artists_io.
  apply run_bind_preserves; [apply emit_all_preserves | intros _].
  apply run_bind_preserves; [apply input_preserves | intros choices].
  apply lift_res_preserves.
Qed.

End RunPreserves.

(** *** A dry run of the program *)

Lemma media_untouched_refl (w : World) : media_untouched w w.
Proof. by repeat split. Qed.

Lemma media_untouched_trans (w1 w2 w3 : World) :
  media_untouched w1 w2 -> media_untouched w2 w3 -> media_untouched w1 w3.
Proof.
  unfold media_untouched. intros (?&?&?&?) (?&?&?&?).
  repeat split; congruence.
Qed.

Lemma index_music_files_world (tree : Dir) (w : World) :
  exists idx out text,
    index_music_files tree w
    = (Ok idx,
       mkWorld (files w) (dirs w) (Some text) (main_log w) (errors_log w)
               (stdout w ++ out) (spawned w) (moved w)).
Proof.
  unfold index_music_files, bind, print, modify, save_index, ret.
  rewrite for_each_index_dir. unfold modify, set_snapshot, add_stdout.
  cbn [app fst snd files dirs snapshot main_log errors_log stdout spawned
       moved].
  eexists _, _, _. rewrite <- !app_assoc. reflexivity.
Qed.

Lemma load_index_world (w : World) : snd (load_index w) = w.
Proof. by rewrite load_index_eq. Qed.

Lemma process_files_dry env files artists cdir w :
  files_untouched w (snd (process_files env files artists cdir true w)).
Proof.
  unfold process_files, bind.
  pose proof (for_each_preserves files_untouched
                (process_file env artists cdir true) files
                files_untouched_refl files_untouched_trans
                (fun x acc w _ => process_file_dry env artists cdir x acc w)
                (mkTotals 0 0) w) as Hdry.
  destruct (for_each files _ _ w) as [[t|e] w1]; exact Hdry.
Qed.

Ltac run_frame R_refl R_trans :=
  repeat first
    [ apply (run_bind_preserves _ R_trans); [| intros ?]
    | apply (lift_res_preserves _ R_refl)
    | apply (lift_outcome_preserves _ R_refl)
    | apply (emit_preserves _ R_refl)
    | apply (emit_all_preserves _ R_refl)
    | apply (input_preserves _ R_refl)
    | apply (run_ret_preserves _ R_refl)
    | apply (select_artists_io_preserves _ R_refl R_trans)
    | case_bool_decide ].

Lemma obtain_index_untouched (tree : Dir) :
  run_preserves media_untouched (obtain_index tree).
Proof.
  assert (Hindex : run_preserves media_untouched
                     (lift_m (index_music_files tree))).
  { apply lift_m_preserves. intros w.
    destruct (index_music_files_world tree w) as (idx & out & text & ->).
    by repeat split. }
  assert (Hload : run_preserves media_untouched (lift_m load_index)).
  { apply lift_m_preserves. intros w.
    rewrite load_index_world. apply media_untouched_refl. }
  intros s. unfold obtain_index.
  destruct (snapshot (world s)); revert s;
    match goal with
    | |- forall s, media_untouched (world s) (world (snd (fst (?m s)))) =>
        change (run_preserves media_untouched m)
    end;
    run_frame media_untouched_refl media_untouched_trans;
    first [apply Hindex | apply Hload].
Qed.

(** X12.  A dry run of the program changes no media file.  Whatever is typed
    and whatever the index holds, [main(dry_run=True)], and the script as a
    whole when it is started with [--dry-run], leave every file with its
    size, start no process, move no file and write nothing in the error
    log, also when they end with an exception.  (The index file may be
    rewritten and directories may be made.) *)
Theorem dry_run_changes_no_media (env : Env) (tree : Dir) :
  run_preserves media_untouched (main env tree true) /\
  run_preserves media_untouched (script env tree true).
Proof.
  assert (Hbatch : forall files artists cdir,
            run_preserves media_untouched
              (lift_m (process_files env files artists cdir true))).
  { intros files artists cdir.
    apply lift_m_preserves. intros w.
    destruct (process_files_dry env files artists cdir w) as (?&?&?&?&?).
    by repeat split. }
  assert (Hmain : run_preserves media_untouched (main env tree true)).
  { unfold main.
    run_frame media_untouched_refl media_untouched_trans;
      try apply obtain_index_untouched; apply Hbatch. }
  split; [exact Hmain |].
  assert (Hmk : forall name,
            run_preserves media_untouched (lift_m (makedirs name))).
  { intros name. apply lift_m_preserves. intros w.
    destruct (makedirs_frame name w) as (?&?&?&?&?&?&?&?).
    by repeat split. }
  unfold script.
  apply (run_bind_preserves _ media_untouched_trans); [apply Hmk | intros _].
  apply (run_bind_preserves _ media_untouched_trans); [apply Hmk | intros _].
  exact Hmain.
Qed.

(** *** The question about the index *)

Lemma run_bind_after {A B} (m1 m2 : Run A) (k : A -> Run B)
    (s1 s2 : Session) (e : Placed) :
  m1 s1 = (let '(r, s, events) := m2 s2 in (r, s, e :: events)) ->
  run_bind m1 k s1
  = (let '(r, s, events) := run_bind m2 k s2 in (r, s, e :: events)).
Proof.
  intros H. unfold run_bind. rewrite H.
  destruct (m2 s2) as [[[a|x] s'] events]; [| done].
  by destruct (k a s') as [[r s''] events'].
Qed.

Lemma run_bind_same {A B} (m1 m2 : Run A) (k : A -> Run B)
    (s1 s2 : Session) :
  m1 s1 = m2 s2 -> run_bind m1 k s1 = run_bind m2 k s2.
Proof. intros H. unfold run_bind. by rewrite H. Qed.

Lemma run_bind_world {A B} (R : World -> World -> Prop) (m : Run A)
    (k : A -> Run B) (s s' : Session) (r : outcome A)
    (events : list Placed) :
  (forall w1 w2 w3, R w1 w2 -> R w2 w3 -> R w1 w3) ->
  m s = (r, s', events) -> R (world s) (world s') ->
  (forall a, run_preserves R (k a)) ->
  R (world s) (world (snd (fst (run_bind m k s)))).
Proof.
  intros Htrans Hm Hs Hk. unfold run_bind. rewrite Hm.
  destruct r as [a|e]; [| done].
  specialize (Hk a s'). destruct (k a s') as [[r s''] events'].
  cbn [fst snd] in *. by eapply Htrans.
Qed.

Lemma index_music_files_forgets (tree : Dir) (w : World)
    (text : option str) :
  index_music_files tree (set_snapshot text w) = index_music_files tree w.
Proof.
  unfold index_music_files, bind, print, modify, save_index, ret.
  rewrite !for_each_index_dir. reflexivity.
Qed.

Lemma fresh_index_forgets (tree : Dir) (w : World) (text : option str)
    (lines : list line) :
  fresh_index tree (mkSession (set_snapshot text w) lines)
  = fresh_index tree (mkSession w lines).
Proof.
  unfold fresh_index, run_bind, lift_m. cbn [world stdin].
  by rewrite index_music_files_forgets.
Qed.

(** X13.  Answering [y] to the question about the index is the same as
    having no index file.  When the index file exists and the answer, once
    stripped and put in lower case, is [y], the program does, returns and
    leaves what it does, returns and leaves when started without the index
    file on the lines that follow the answer; it has only asked the
    question first. *)
Theorem main_refresh (env : Env) (tree : Dir) (dry_run : bool) (w : World)
    (text : str) (answer : line) (rest : list line) :
  snapshot w = Some text ->
  Py.lower (Py.strip answer) = latin1 "y" ->
  main env tree dry_run (mkSession w (answer :: rest))
  = (let '(r, s, events) :=
       main env tree dry_run (mkSession (set_snapshot None w) rest) in
     (r, s,
      place (mkSession w rest)
            (Asks "Index file found. Refresh index? (y/n): ") :: events)).
Proof.
  intros Hsnap Hyes. unfold main. apply run_bind_after.
  unfold obtain_index. cbn [world stdin snapshot set_snapshot]. rewrite Hsnap.
  unfold run_bind at 1. unfold input at 1. cbn [stdin world].
  rewrite bool_decide_eq_true_2 by done.
  rewrite fresh_index_forgets.
  by destruct (fresh_index tree (mkSession w rest)) as [[r s] events].
Qed.

Lemma main_refresh_witness :
  let w := set_snapshot (Some ("{}" : str)) example_world in
  main env_growing tree_with_lookalike true
       (mkSession w [latin1 " Y "; latin1 "0"; latin1 ""])
  = (let '(r, s, events) :=
       main env_growing tree_with_lookalike true
            (mkSession (set_snapshot None w) [latin1 "0"; latin1 ""]) in
     (r, s,
      place (mkSession w [latin1 "0"; latin1 ""])
            (Asks "Index file found. Refresh index? (y/n): ") :: events)).
Proof.
  apply (main_refresh env_growing tree_with_lookalike true
           (set_snapshot (Some ("{}" : str)) example_world) "{}"
           (latin1 " Y ")).
  - reflexivity.
  - vm_compute. reflexivity.
Defined.

Lemma same_snapshot_refl (w : World) : same_snapshot w w.
Proof. done. Qed.

Lemma same_snapshot_trans (w1 w2 w3 : World) :
  same_snapshot w1 w2 -> same_snapshot w2 w3 -> same_snapshot w1 w3.
Proof. unfold same_snapshot. congruence. Qed.

Lemma process_files_snapshot env files artists cdir dry w :
  same_snapshot w (snd (process_files env files artists cdir dry w)).
Proof.
  unfold process_files. unfold bind at 1.
  pose proof (for_each_preserves (batch_keeps files artists)
                (process_file env artists cdir dry) files
                (batch_keeps_refl files artists)
                (batch_keeps_trans files artists)
                (fun x acc w Hx =>
                   process_file_batch_keeps env files artists cdir dry
                                            x acc w Hx)
                (mkTotals 0 0) w) as (_ & Hloop & _).
  destruct (for_each files (process_file env artists cdir dry)
              (mkTotals 0 0) w) as [[t|e] w1]; cbn [snd] in *; [| done].
  destruct dry; cbn [negb]; done.
Qed.

Lemma obtain_index_declined (tree : Dir) (w : World) (text : str)
    (answer : line) (rest : list line) :
  snapshot w = Some text ->
  Py.lower (Py.strip answer) <> latin1 "y" ->
  obtain_index tree (mkSession w (answer :: rest))
  = (match json.loads text with
     | Ok data =>
         match json.getitem data "flac" with
         | Ok flac =>
             match json.getitem data "m4a" with
             | Ok m4a => Done (flac, m4a)
             | Raise e => Failed (Uncaught e)
             end
         | Raise e => Failed (Uncaught e)
         end
     | Raise e => Failed (Uncaught e)
     end,
     mkSession w rest,
     [place (mkSession w rest)
            (Asks "Index file found. Refresh index? (y/n): ")]).
Proof.
  intros Hsnap Hno. unfold obtain_index. cbn [world]. rewrite Hsnap.
  unfold run_bind, input. cbn [stdin world].
  rewrite bool_decide_eq_false_2 by done.
  unfold lift_m. cbn [world stdin]. rewrite load_index_eq, Hsnap.
  destruct (json.loads text) as [data|e]; [| done]. cbn [res_bind].
  destruct (json.getitem data "flac") as [flac|e]; [| done]. cbn [res_bind].
  destruct (json.getitem data "m4a") as [m4a|e]; done.
Qed.

(** X14.  Any other answer keeps the index file.  When the index file
    exists and the answer, once stripped and put in lower case, is not [y]:
    the directory tree is not read, the program does the same on any tree;
    the index file is as it was when the program stops, however it stops;
    and when the index file is malformed (no value begins its text, or it
    is a saved snapshot cut short or followed by other text), the program
    stops at once with [JSONDecodeError], having asked its question and
    read the answer, and nothing else. *)
Theorem main_keeps_index (env : Env) (tree : Dir) (dry_run : bool)
    (w : World) (text : str) (answer : line) (rest : list line) :
  snapshot w = Some text ->
  Py.lower (Py.strip answer) <> latin1 "y" ->
  let run := main env tree dry_run (mkSession w (answer :: rest)) in
  (forall tree', main env tree' dry_run (mkSession w (answer :: rest)) = run) /\
  snapshot (world (snd (fst run))) = Some text /\
  (malformed_snapshot text ->
   run = (Failed (Uncaught JSONDecodeError), mkSession w rest,
          [place (mkSession w rest)
                 (Asks "Index file found. Refresh index? (y/n): ")])).
Proof.
  intros Hsnap Hno. cbv zeta. split; [| split].
  - intros tree'. unfold main. apply run_bind_same.
    by rewrite !(obtain_index_declined _ w text answer rest).
  - rewrite <- Hsnap.
    change (same_snapshot (world (mkSession w (answer :: rest)))
              (world (snd (fst (main env tree dry_run
                                  (mkSession w (answer :: rest))))))).
    unfold main.
    eapply (run_bind_world same_snapshot);
      [ exact same_snapshot_trans
      | by apply (obtain_index_declined _ w text answer rest)
      | done
      | intros idx ].
    run_frame same_snapshot_refl same_snapshot_trans;
      apply lift_m_preserves; intros w0; apply process_files_snapshot.
  - intros He. apply loads_malformed in He. unfold main. unfold run_bind at 1.
    rewrite (obtain_index_declined _ w text answer rest) by done.
    by rewrite He.
Qed.

Lemma main_keeps_index_witness :
  let text := take 12 (json.dumps (index_dict [track_a] [])) in
  let w := set_snapshot (Some text) example_world in
  main env_growing tree_with_lookalike false
       (mkSession w [latin1 "n"; latin1 "1"])
  = (Failed (Uncaught JSONDecodeError), mkSession w [latin1 "1"],
     [place (mkSession w [latin1 "1"])
            (Asks "Index file found. Refresh index? (y/n): ")]).
Proof.
  cbv zeta.
  apply (main_keeps_index env_growing tree_with_lookalike false
           (set_snapshot
              (Some (take 12 (json.dumps (index_dict [track_a] []))))
              example_world)
           (take 12 (json.dumps (index_dict [track_a] []))) (latin1 "n")
           [latin1 "1"]).
  - reflexivity.
  - vm_compute. discriminate.
  - apply cut_short; [reflexivity | reflexivity | vm_compute; lia].
Defined.

(** *** A run in which nothing is chosen *)





(** *** An index that lists a file that is gone *)



(** ** The output path of the converter *)

Lemma replace_absent (old new s : str) :
  Py.contains old s = false -> Py.replace old new s = s.
Proof.
  unfold Py.replace. induction s as [|c s IH]; [done |].
  cbn [Py.contains Py.replace_from]. intros H.
  apply orb_false_iff in H as [Hs Hc]. rewrite Hs, IH; done.
Qed.

Lemma startswith_length (p s : str) :
  Py.startswith p s = true -> (length p <= length s)%nat.
Proof.
  intros H. apply startswith_spec in H as [t ->]. rewrite length_app. lia.
Qed.

Lemma replace_from_length_le (old new : str) (skip : nat) (s : str) :
  (length new <= length old)%nat -> old <> [] ->
  (length (Py.replace_from old new skip s) <= length s - skip)%nat.
Proof.
  intros Hlen Hold. revert skip.
  induction s as [|c s IH]; intros skip; [cbn; lia |].
  cbn [Py.replace_from]. destruct skip as [|k].
  - destruct (Py.startswith old (c :: s)) eqn:Hs.
    + apply startswith_length in Hs. cbn [length] in *.
      rewrite length_app. specialize (IH (Nat.pred (length old))).
      destruct old; [done |]. cbn [length] in *. lia.
    + cbn [length]. specialize (IH 0%nat). lia.
  - cbn [length]. specialize (IH k). lia.
Qed.

Lemma replace_shorter (old new s : str) :
  (length new < length old)%nat ->
  Py.contains old s = true ->
  (length (Py.replace old new s) < length s)%nat.
Proof.
  intros Hlen. unfold Py.replace.
  induction s as [|c s IH]; intros Hc.
  - cbn in Hc. destruct old; [cbn in Hlen; lia | done].
  - cbn [Py.replace_from]. destruct (Py.startswith old (c :: s)) eqn:Hs.
    + apply startswith_length in Hs. rewrite length_app.
      pose proof (replace_from_length_le old new (Nat.pred (length old)) s
                    ltac:(lia) ltac:(by destruct old; [cbn in Hlen; lia |]))
        as Hle.
      cbn [length] in *. lia.
    + cbn [Py.contains] in Hc. rewrite Hs in Hc. cbn [orb] in Hc.
      specialize (IH Hc). cbn [length]. lia.
Qed.

Lemma replace_from_length_eq (old new : str) (skip : nat) (s : str) :
  length new = length old -> old <> [] ->
  length (Py.replace_from old new skip s) = (length s - skip)%nat.
Proof.
  intros Hlen Hold. revert skip.
  induction s as [|c s IH]; intros skip; [cbn; lia |].
  cbn [Py.replace_from]. destruct skip as [|k].
  - destruct (Py.startswith old (c :: s)) eqn:Hs.
    + apply startswith_length in Hs. cbn [length] in *.
      rewrite length_app, (IH (Nat.pred (length old))).
      destruct old; [done |]. cbn [length] in *. lia.
    + cbn [length]. rewrite (IH 0%nat). lia.
  - cbn [length]. by rewrite (IH k).
Qed.

Lemma replace_differs (old new s : str) :
  length new = length old -> old <> new ->
  Py.contains old s = true -> Py.replace old new s <> s.
Proof.
  intros Hlen Hne. unfold Py.replace.
  induction s as [|c s IH]; intros Hc.
  - cbn in Hc. destruct old; [| done]. by destruct new.
  - cbn [Py.replace_from]. destruct (Py.startswith old (c :: s)) eqn:Hs.
    + apply startswith_spec in Hs as [t Ht]. rewrite Ht.
      intros H. apply app_inj_1 in H as [H _]; [| done]. by subst.
    + cbn [Py.contains] in Hc. rewrite Hs in Hc. cbn [orb] in Hc.
      intros [= H]. by apply (IH Hc).
Qed.

(** X17.  The output path of the converter is its input path exactly when
    the input path holds neither [.flac] nor [.m4a].  So a file that the
    indexer found is never converted onto itself, and a listed file whose
    path holds neither (an index that is read can list one) is handed to
    the transcoder as its input and as its output. *)
Theorem output_file_is_input (file : str) :
  output_file_of file = file <->
  Py.contains ".flac" file = false /\ Py.contains ".m4a" file = false.
Proof.
  unfold output_file_of. split.
  - intros Heq.
    destruct (Py.contains ".flac" file) eqn:Hflac.
    + exfalso.
      pose proof (replace_shorter ".flac" ".mp3" file ltac:(cbn; lia) Hflac)
        as Hshort.
      apply (f_equal (@length N)) in Heq. unfold Py.replace in Heq at 1.
      rewrite replace_from_length_eq in Heq by done. lia.
    + split; [done |]. rewrite (replace_absent _ _ _ Hflac) in Heq.
      destruct (Py.contains ".m4a" file) eqn:Hm4a; [| done].
      exfalso. by apply (replace_differs ".m4a" ".mp3" file).
  - intros [Hflac Hm4a]. by rewrite (replace_absent _ _ _ Hflac), replace_absent.
Qed.

(** ** The artist of a file of the library *)

(** X18.  The artist of a file of the library is the second component of
    its path below the media root.  For files given by their components
    below the media root, none empty, [.] or [..] or holding a separator,
    the artists listed are exactly the second components: a file directly
    in the media root has no artist and is never offered, and a file in a
    directory of the first level is offered under its own name. *)
Theorem artist_is_second_component (library : list (list str)) :
  Forall (fun comps => comps <> [] /\ Forall plain_comp comps) library ->
  forall artist,
    artist ∈ get_artists_with_files
               (map (fun comps => music_dir ++ "/" ++ posixpath.sep_join comps)
                    library)
    <-> exists comps, comps ∈ library /\ comps !! 1%nat = Some artist.
Proof.
  intros Hlib artist. unfold get_artists_with_files.
  rewrite elem_of_elements, foldl_add_artist_elem.
  rewrite Forall_forall in Hlib. split.
  - intros [H | (file & Hin & _ & Hk)]; [by apply not_elem_of_empty in H |].
    apply list_elem_of_fmap in Hin as (comps & -> & Hin).
    destruct (Hlib comps Hin) as [Hne Hplain].
    rewrite split_below_music_dir in Hk by done. by exists comps.
  - intros (comps & Hin & Hk). right.
    destruct (Hlib comps Hin) as [Hne Hplain].
    exists (music_dir ++ "/" ++ posixpath.sep_join comps).
    split; [by apply list_elem_of_fmap_2 with (f := fun comps =>
                 music_dir ++ "/" ++ posixpath.sep_join comps) |].
    rewrite split_below_music_dir by done. split; [| exact Hk].
    apply lookup_lt_Some in Hk. cbn [length app]. lia.
Qed.

Lemma artist_is_second_component_witness :
  ("loose.flac" : str)
    ∈ get_artists_with_files
        (map (fun comps => music_dir ++ "/" ++ posixpath.sep_join comps)
             [["Lib" : str; "Art" : str; "Alb" : str; "t.flac" : str];
              ["Lib" : str; "loose.flac" : str];
              ["top.flac" : str]])
  <-> exists comps,
        comps ∈ [["Lib" : str; "Art" : str; "Alb" : str; "t.flac" : str];
                 ["Lib" : str; "loose.flac" : str];
                 ["top.flac" : str]] /\
        comps !! 1%nat = Some ("loose.flac" : str).
Proof.
  apply (artist_is_second_component
           [["Lib" : str; "Art" : str; "Alb" : str; "t.flac" : str];
            ["Lib" : str; "loose.flac" : str];
            ["top.flac" : str]]).
  repeat constructor; try discriminate;
    apply (bool_decide_unpack _); vm_compute; exact I.
Defined.

(** ** The directories made when the script starts *)

#[local] Transparent makedirs.

Lemma makedirs_in_existing (name head tail : str) (w : World) :
  posixpath.split name = (head, tail) -> tail <> [] ->
  head ∈ dirs w ->
  makedirs name w
  = if bool_decide (name ∈ dirs w) then (Ok tt, w)
    else if bool_decide (is_Some (files w !! name))
         then (Raise FileExistsError, w)
         else (Ok tt, set_dirs (fun d => {[ name ]} ∪ d) w).
Proof.
  intros Hsplit Htail Hdir.
  assert (Hhead : exists_ head w = true).
  { unfold exists_. by rewrite bool_decide_eq_true_2. }
  unfold makedirs. cbn [makedirs_fuel].
  rewrite Hsplit. rewrite (bool_decide_eq_false_2 (tail = [])) by done.
  unfold bind at 1. unfold gets at 1. rewrite Hhead.
  cbn [negb andb]. rewrite andb_false_r. unfold bind, ret.
  assert (Hname : name <> []) by (intros ->; cbn in Hsplit; congruence).
  unfold try_except, mkdir, parent_dir, exists_. rewrite Hsplit.
  rewrite (bool_decide_eq_false_2 (tail = [])) by done.
  rewrite (bool_decide_eq_false_2 (name = [])) by done.
  rewrite (bool_decide_eq_true_2 (head ∈ dirs w)) by done.
  cbn [negb]. rewrite andb_false_r.
  destruct (bool_decide (name ∈ dirs w)) eqn:Hd; cbn [orb].
  - by rewrite Hd.
  - destruct (bool_decide (is_Some (files w !! name))); [| done].
    by rewrite Hd.
Qed.

#[local] Opaque makedirs.

Lemma makedirs_then {A} (name head tail : str) (k : unit -> Run A)
    (s : Session) :
  posixpath.split name = (head, tail) -> tail <> [] ->
  head ∈ dirs (world s) ->
  files (world s) !! name = None ->
  run_bind (lift_m (makedirs name)) k s
  = k tt (mkSession (set_dirs (fun d => {[ name ]} ∪ d) (world s)) (stdin s)).
Proof.
  intros Hsplit Htail Hhead Hfile. unfold run_bind, lift_m.
  rewrite (makedirs_in_existing name head tail (world s) Hsplit Htail Hhead).
  rewrite Hfile.
  rewrite (bool_decide_eq_false_2 (is_Some None)) by (intros [? ?]; done).
  destruct (bool_decide (name ∈ dirs (world s))) eqn:Hd.
  - apply bool_decide_eq_true_1 in Hd.
    assert (Hw : set_dirs (fun d => {[ name ]} ∪ d) (world s) = world s).
    { destruct (world s) as [f d sn ml el so sp mv]. unfold set_dirs.
      cbn [files dirs snapshot main_log errors_log stdout spawned moved]
        in *.
      assert (Hu : {[ name ]} ∪ d = d) by set_solver. by rewrite Hu. }
    rewrite Hw. destruct s as [w lines]. cbn [world stdin].
    by destruct (k tt (mkSession w lines)) as [[r s''] events'].
  - by destruct (k tt _) as [[r s''] events'].
Qed.

(** X19.  What the script makes before [main] runs.  When the media root is
    a directory: if no regular file stands at the path of either converted
    directory, the script runs [main] in the world in which both converted
    directories exist, the ones that were missing made, nothing else
    changed; if a regular file stands at the path of the FLAC converted
    directory, the script ends with [FileExistsError] and [main] does not
    run. *)
Theorem script_startup (env : Env) (tree : Dir) (dry_run : bool)
    (s : Session) :
  music_dir ∈ dirs (world s) ->
  (files (world s) !! flac_converted_dir = None ->
   files (world s) !! m4a_converted_dir = None ->
   script env tree dry_run s
   = main env tree dry_run
       (mkSession
          (set_dirs (fun d => {[ flac_converted_dir; m4a_converted_dir ]} ∪ d)
                    (world s))
          (stdin s))) /\
  (is_Some (files (world s) !! flac_converted_dir) ->
   flac_converted_dir ∉ dirs (world s) ->
   script env tree dry_run s = (Failed (Uncaught FileExistsError), s, [])).
Proof.
  intros Hroot.
  assert (Hflac : posixpath.split flac_converted_dir
                  = (music_dir, "FLAC_CONVERTED" : str))
    by (vm_compute; reflexivity).
  assert (Hm4a : posixpath.split m4a_converted_dir
                 = (music_dir, "M4A_CONVERTED" : str))
    by (vm_compute; reflexivity).
  split.
  - intros Hf Hm. unfold script.
    rewrite (makedirs_then _ _ _ _ s Hflac) by done. cbv beta.
    rewrite (makedirs_then _ _ _ _ _ Hm4a); cbn [world stdin].
    + assert (Hw : set_dirs (fun d => {[ m4a_converted_dir ]} ∪ d)
                     (set_dirs (fun d => {[ flac_converted_dir ]} ∪ d)
                               (world s))
                   = set_dirs
                       (fun d =>
                          {[ flac_converted_dir; m4a_converted_dir ]} ∪ d)
                       (world s)).
      { unfold set_dirs.
        cbn [files dirs snapshot main_log errors_log stdout spawned moved].
        assert (Hu : {[ m4a_converted_dir ]}
                       ∪ ({[ flac_converted_dir ]} ∪ dirs (world s))
                     = {[ flac_converted_dir; m4a_converted_dir ]}
                         ∪ dirs (world s)) by set_solver.
        by rewrite Hu. }
      by rewrite Hw.
    + discriminate.
    + unfold set_dirs. cbn [dirs]. set_solver.
    + exact Hm.
  - intros Hf Hd. unfold script, run_bind, lift_m.
    rewrite (makedirs_in_existing _ _ _ (world s) Hflac) by done.
    rewrite (bool_decide_eq_false_2 _ Hd).
    rewrite bool_decide_eq_true_2 by done. by destruct s.
Qed.

Lemma script_startup_witness :
  let s := mkSession example_world [latin1 "0"] in
  (files (world s) !! flac_converted_dir = None ->
   files (world s) !! m4a_converted_dir = None ->
   script env_growing tree_with_lookalike true s
   = main env_growing tree_with_lookalike true
       (mkSession
          (set_dirs (fun d => {[ flac_converted_dir; m4a_converted_dir ]} ∪ d)
                    (world s))
          (stdin s))) /\
  (is_Some (files (world s) !! flac_converted_dir) ->
   flac_converted_dir ∉ dirs (world s) ->
   script env_growing tree_with_lookalike true s
   = (Failed (Uncaught FileExistsError), s, [])).
Proof.
  apply (script_startup env_growing tree_with_lookalike true
           (mkSession example_world [latin1 "0"])).
  apply (bool_decide_unpack _). vm_compute. exact I.
Defined.
